(** * starttls-go: the STARTTLS negotiation engine (package [starttls])

    A shallow embedding of [starttls/starttls.go].  The Go functions keep
    their names; functions of the Go standard library that the package
    calls are written [pkg_Name] ([bufio_ReadString], [io_ReadFull],
    [strings_HasPrefix], ...).

    - A Go [string] or [[]byte] is a [list byte].
    - A call that returns [(v, nil)] is [Ret v], one that returns a non-nil
      error is [Fail e], a run-time panic is [Panic], and a call that never
      returns (a read on a silent connection that nobody cancels) is
      [Blocked].
    - The connection and the two [bufio] buffers are an explicit state,
      threaded through a small state-and-result monad [M]. *)

From Stdlib Require Import ZArith Lia String DecimalString.
From Stdlib Require Import Strings.Byte.
From stdpp Require Import base list gmap strings.

Abbreviation length := Datatypes.length.

Local Open Scope string_scope.
Local Open Scope nat_scope.
Local Open Scope list_scope.

#[global] Instance byte_eq_dec : EqDecision byte := Byte.byte_eq_dec.

(** ** Strings and bytes *)

(** A Go string literal. *)
Definition str (s : string) : list byte := list_byte_of_string s.

Definition CR : byte := x0d.
Definition LF : byte := x0a.
Definition CRLF : list byte := [CR; LF].

(** [uint32(b)] for a byte [b]. *)
Definition byte_to_Z (b : byte) : Z := Z.of_N (Byte.to_N b).

(** [byte(x)]: the low eight bits of an unsigned integer. *)
Definition Z_to_byte (x : Z) : byte :=
  default x00 (Byte.of_N (Z.to_N (x mod 256))).

(** Wrap-around of [uint32] arithmetic. *)
Definition uint32 (x : Z) : Z := x mod 2 ^ 32.

(** The verb [%d] of package [fmt] applied to a byte. *)
Definition fmt_d (b : byte) : list byte :=
  str (NilZero.string_of_uint (N.to_uint (Byte.to_N b))).

(** ** Errors *)

(** The error values that can reach a caller of the package.  [fmt_Errorf]
    is a formatted error without the verb [%w]; [fmt_Errorf_w pre e post] is
    [fmt.Errorf] with exactly one [%w]: its text is [pre], the text of [e],
    then [post], and it unwraps to [e]. *)
Inductive error : Type :=
| ErrStartTLSNotSupported
| ErrInvalidResponse
| ErrUnsupportedProtocol
| io_EOF
| io_ErrUnexpectedEOF
| context_Canceled
| context_DeadlineExceeded
| net_Error (msg : list byte)
| fmt_Errorf (msg : list byte)
| fmt_Errorf_w (pre : list byte) (inner : error) (post : list byte).

(** The method [Error()]. *)
Fixpoint error_text (e : error) : list byte :=
  match e with
  | ErrStartTLSNotSupported => str "STARTTLS not supported by server"
  | ErrInvalidResponse => str "invalid server response"
  | ErrUnsupportedProtocol => str "unsupported protocol"
  | io_EOF => str "EOF"
  | io_ErrUnexpectedEOF => str "unexpected EOF"
  | context_Canceled => str "context canceled"
  | context_DeadlineExceeded => str "context deadline exceeded"
  | net_Error msg => msg
  | fmt_Errorf msg => msg
  | fmt_Errorf_w pre inner post => pre ++ error_text inner ++ post
  end.

(** Go's [==] on two error values.  The package-level values are compared
    by identity; an error built by a call ([fmt.Errorf], the network stack)
    is a fresh object, equal to no package-level value. *)
Definition error_same (a b : error) : bool :=
  match a, b with
  | ErrStartTLSNotSupported, ErrStartTLSNotSupported
  | ErrInvalidResponse, ErrInvalidResponse
  | ErrUnsupportedProtocol, ErrUnsupportedProtocol
  | io_EOF, io_EOF
  | io_ErrUnexpectedEOF, io_ErrUnexpectedEOF
  | context_Canceled, context_Canceled
  | context_DeadlineExceeded, context_DeadlineExceeded => true
  | _, _ => false
  end.

(** [errors.Is]: the chain of [%w] wrappers is searched for [target]. *)
Fixpoint errors_Is (err target : error) : bool :=
  error_same err target ||
  match err with
  | fmt_Errorf_w _ inner _ => errors_Is inner target
  | _ => false
  end.

(** The errors of the transport: what a read of the connection itself
    reports, possibly under wrappers. *)
Fixpoint is_io_error (e : error) : bool :=
  match e with
  | io_EOF | io_ErrUnexpectedEOF | net_Error _ => true
  | fmt_Errorf_w _ inner _ => is_io_error inner
  | _ => false
  end.

(** The errors of the protocol grammar (none of them comes from a read). *)
Definition is_protocol_error (e : error) : bool :=
  errors_Is e ErrStartTLSNotSupported || errors_Is e ErrInvalidResponse
  || errors_Is e ErrUnsupportedProtocol.

(** ** Results *)

Inductive result (A : Type) : Type :=
| Ret (a : A)
| Fail (e : error)
| Panic
| Blocked.
Arguments Ret {A} a.
Arguments Fail {A} e.
Arguments Panic {A}.
Arguments Blocked {A}.

Definition result_bind {A B} (r : result A) (k : A -> result B) : result B :=
  match r with
  | Ret a => k a
  | Fail e => Fail e
  | Panic => Panic
  | Blocked => Blocked
  end.

Declare Scope result_scope.
Delimit Scope result_scope with result.
Notation "x <-- r ;; k" := (result_bind r (fun x => k))
  (at level 100, r at next level, right associativity) : result_scope.

(** [s[i]]: indexing panics outside the slice. *)
Definition index (s : list byte) (i : nat) : result byte :=
  match s !! i with
  | Some b => Ret b
  | None => Panic
  end.

(** ** Package [unicode/utf8] *)

Definition utf8_RuneError : Z := 0xFFFD.
Definition utf8_RuneSelf : Z := 0x80.
Definition utf8_UTFMax : Z := 4.

Definition utf8_maskx : Z := 0x3F.
Definition utf8_mask2 : Z := 0x1F.
Definition utf8_mask3 : Z := 0x0F.
Definition utf8_mask4 : Z := 0x07.
Definition utf8_locb : Z := 0x80.
Definition utf8_hicb : Z := 0xBF.

(** The entries of the table [first]: [xx] an invalid first byte, [as] an
    ASCII byte, otherwise the size of the sequence in the low three bits and
    the index into [acceptRanges] in the high four. *)
Definition utf8_xx : Z := 0xF1.
Definition utf8_as : Z := 0xF0.
Definition utf8_s1 : Z := 0x02.
Definition utf8_s2 : Z := 0x13.
Definition utf8_s3 : Z := 0x03.
Definition utf8_s4 : Z := 0x23.
Definition utf8_s5 : Z := 0x34.
Definition utf8_s6 : Z := 0x04.
Definition utf8_s7 : Z := 0x44.

(** The table [first], row by row. *)
Definition utf8_first (b : Z) : Z :=
  if (b <? 0x80)%Z then utf8_as
  else if (b <? 0xC2)%Z then utf8_xx
  else if (b <? 0xE0)%Z then utf8_s1
  else if (b =? 0xE0)%Z then utf8_s2
  else if (b <? 0xED)%Z then utf8_s3
  else if (b =? 0xED)%Z then utf8_s4
  else if (b <? 0xF0)%Z then utf8_s3
  else if (b =? 0xF0)%Z then utf8_s5
  else if (b <? 0xF4)%Z then utf8_s6
  else if (b =? 0xF4)%Z then utf8_s7
  else utf8_xx.

(** The table [acceptRanges]: the bounds of the second byte. *)
Definition utf8_acceptRanges (i : Z) : Z * Z :=
  if (i =? 0)%Z then (utf8_locb, utf8_hicb)
  else if (i =? 1)%Z then (0xA0, utf8_hicb)%Z
  else if (i =? 2)%Z then (utf8_locb, 0x9F)%Z
  else if (i =? 3)%Z then (0x90, utf8_hicb)%Z
  else if (i =? 4)%Z then (utf8_locb, 0x8F)%Z
  else (0, 0)%Z.

(** [s[i]] as a number, where the length of [s] has been checked before
    (0 outside [s], which the callers below do not reach). *)
Definition byte_at (s : list byte) (i : nat) : Z :=
  match s !! i with
  | Some b => byte_to_Z b
  | None => 0%Z
  end.

(** [utf8.DecodeRuneInString]: the first rune of [s] and its width in
    bytes; [(RuneError, 0)] for the empty string and [(RuneError, 1)] for
    an encoding that is not valid. *)
Definition utf8_DecodeRuneInString (s : list byte) : Z * nat :=
  let n := length s in
  if n <? 1 then (utf8_RuneError, 0)
  else
    let s0 := byte_at s 0 in
    let x := utf8_first s0 in
    if (utf8_as <=? x)%Z then
      (* [mask] is all ones for [xx] and zero for [as]. *)
      (if Z.testbit x 0 then utf8_RuneError else s0, 1)
    else
      let sz := Z.to_nat (Z.land x 7) in
      let accept := utf8_acceptRanges (Z.shiftr x 4) in
      if n <? sz then (utf8_RuneError, 1)
      else
        let s1 := byte_at s 1 in
        if (s1 <? fst accept)%Z || (snd accept <? s1)%Z then (utf8_RuneError, 1)
        else if sz <=? 2 then
          (Z.lor (Z.shiftl (Z.land s0 utf8_mask2) 6) (Z.land s1 utf8_maskx), 2)
        else
          let s2 := byte_at s 2 in
          if (s2 <? utf8_locb)%Z || (utf8_hicb <? s2)%Z then (utf8_RuneError, 1)
          else if sz <=? 3 then
            (Z.lor (Z.lor (Z.shiftl (Z.land s0 utf8_mask3) 12)
                          (Z.shiftl (Z.land s1 utf8_maskx) 6))
                   (Z.land s2 utf8_maskx), 3)
          else
            let s3 := byte_at s 3 in
            if (s3 <? utf8_locb)%Z || (utf8_hicb <? s3)%Z then (utf8_RuneError, 1)
            else
              (Z.lor (Z.lor (Z.lor (Z.shiftl (Z.land s0 utf8_mask4) 18)
                                   (Z.shiftl (Z.land s1 utf8_maskx) 12))
                            (Z.shiftl (Z.land s2 utf8_maskx) 6))
                     (Z.land s3 utf8_maskx), 4).

(** [utf8.RuneStart]: not a continuation byte. *)
Definition utf8_RuneStart (b : Z) : bool := negb (Z.land b 0xC0 =? 0x80)%Z.

(** The loop [for start--; start >= lim; start-- { if RuneStart(s[start])
    { break } }] of [DecodeLastRuneInString], entered with [start]
    already decremented.  It looks at no more than [UTFMax - 1] bytes;
    the fuel of its one call is [UTFMax]. *)
Fixpoint utf8_back_to_start (fuel : nat) (s : list byte) (start lim : Z) : Z :=
  match fuel with
  | 0 => start
  | S fuel' =>
      if (start <? lim)%Z then start
      else if utf8_RuneStart (byte_at s (Z.to_nat start)) then start
      else utf8_back_to_start fuel' s (start - 1)%Z lim
  end.

(** [utf8.DecodeLastRuneInString]: the last rune of [s] and its width. *)
Definition utf8_DecodeLastRuneInString (s : list byte) : Z * nat :=
  let end_ := Z.of_nat (length s) in
  if (end_ =? 0)%Z then (utf8_RuneError, 0)
  else
    let start := (end_ - 1)%Z in
    let r := byte_at s (Z.to_nat start) in
    if (r <? utf8_RuneSelf)%Z then (r, 1)
    else
      let lim := Z.max (end_ - utf8_UTFMax) 0 in
      let start := utf8_back_to_start (Z.to_nat utf8_UTFMax) s (start - 1)%Z lim in
      let start := if (start <? 0)%Z then 0%Z else start in
      let '(r, size) := utf8_DecodeRuneInString (drop (Z.to_nat start) s) in
      if negb (start + Z.of_nat size =? end_)%Z then (utf8_RuneError, 1)
      else (r, size).

(** ** Package [unicode] *)

Definition unicode_MaxLatin1 : Z := 0xFF.

(** The 16-bit ranges of the table [White_Space], all of stride 1, and its
    [LatinOffset]. *)
Definition unicode_White_Space : list (Z * Z) :=
  [(0x0009, 0x000d); (0x0020, 0x0020); (0x0085, 0x0085); (0x00a0, 0x00a0);
   (0x1680, 0x1680); (0x2000, 0x200a); (0x2028, 0x2029); (0x202f, 0x202f);
   (0x205f, 0x205f); (0x3000, 0x3000)]%Z.

Definition unicode_White_Space_LatinOffset : nat := 4.

(** [is16] on a short table of ranges of stride 1: the linear scan. *)
Fixpoint unicode_is16 (ranges : list (Z * Z)) (r : Z) : bool :=
  match ranges with
  | [] => false
  | range :: ranges' =>
      if (r <? fst range)%Z then false
      else if (r <=? snd range)%Z then true
      else unicode_is16 ranges' r
  end.

(** [isExcludingLatin] for a table without 32-bit ranges. *)
Definition unicode_isExcludingLatin (r16 : list (Z * Z)) (off : nat) (r : Z) : bool :=
  match last r16 with
  | Some hi =>
      if (off <? length r16) && (r <=? snd hi)%Z then unicode_is16 (drop off r16) r
      else false
  | None => false
  end.

(** [unicode.IsSpace]. *)
Definition unicode_IsSpace (r : Z) : bool :=
  if (r <=? unicode_MaxLatin1)%Z then
    (r =? 0x09)%Z || (r =? 0x0a)%Z || (r =? 0x0b)%Z || (r =? 0x0c)%Z
    || (r =? 0x0d)%Z || (r =? 0x20)%Z || (r =? 0x85)%Z || (r =? 0xA0)%Z
  else unicode_isExcludingLatin unicode_White_Space unicode_White_Space_LatinOffset r.

(** ** Package [strings] *)

Fixpoint strings_HasPrefix (s prefix : list byte) : bool :=
  match prefix, s with
  | [], _ => true
  | p :: prefix', c :: s' => Byte.eqb c p && strings_HasPrefix s' prefix'
  | _ :: _, [] => false
  end.

(** The table [asciiSpace] of [strings.TrimSpace]: tab, line feed, vertical
    tab, form feed, carriage return and space. *)
Definition asciiSpace (c : byte) : bool :=
  match c with
  | x09 | x0a | x0b | x0c | x0d | x20 => true
  | _ => false
  end.

(** [indexFunc]: [for i, r := range s { if f(r) == truth { return i } }].
    The range loop over a string decodes one rune at [i] and goes on behind
    it; an encoding that is not valid gives [RuneError] and a step of one
    byte, as [DecodeRuneInString] does.  [None] is the result -1. *)
Fixpoint strings_indexFunc_loop (fuel : nat) (s : list byte) (i : nat)
    (f : Z -> bool) (truth : bool) : option nat :=
  match fuel with
  | 0 => None
  | S fuel' =>
      if length s <=? i then None
      else
        let '(r, size) := utf8_DecodeRuneInString (drop i s) in
        if Bool.eqb (f r) truth then Some i
        else strings_indexFunc_loop fuel' s (i + size) f truth
  end.

Definition strings_indexFunc (s : list byte) (f : Z -> bool) (truth : bool)
    : option nat :=
  strings_indexFunc_loop (length s) s 0 f truth.

(** [lastIndexFunc]: [for i := len(s); i > 0; { r, size :=
    utf8.DecodeLastRuneInString(s[0:i]); i -= size; if f(r) == truth {
    return i } }]. *)
Fixpoint strings_lastIndexFunc_loop (fuel : nat) (s : list byte) (i : nat)
    (f : Z -> bool) (truth : bool) : option nat :=
  match fuel with
  | 0 => None
  | S fuel' =>
      if i =? 0 then None
      else
        let '(r, size) := utf8_DecodeLastRuneInString (take i s) in
        let i := i - size in
        if Bool.eqb (f r) truth then Some i
        else strings_lastIndexFunc_loop fuel' s i f truth
  end.

Definition strings_lastIndexFunc (s : list byte) (f : Z -> bool) (truth : bool)
    : option nat :=
  strings_lastIndexFunc_loop (length s) s (length s) f truth.

(** [strings.TrimLeftFunc]. *)
Definition strings_TrimLeftFunc (s : list byte) (f : Z -> bool) : list byte :=
  match strings_indexFunc s f false with
  | None => []
  | Some i => drop i s
  end.

(** [strings.TrimRightFunc]. *)
Definition strings_TrimRightFunc (s : list byte) (f : Z -> bool) : list byte :=
  match strings_lastIndexFunc s f false with
  | Some i =>
      if (utf8_RuneSelf <=? byte_at s i)%Z then
        let '(_, wid) := utf8_DecodeRuneInString (drop i s) in
        take (i + wid) s
      else take (i + 1) s
  | None => take 0 s
  end.

(** [strings.TrimFunc]. *)
Definition strings_TrimFunc (s : list byte) (f : Z -> bool) : list byte :=
  strings_TrimRightFunc (strings_TrimLeftFunc s f) f.

(** Where a loop of [strings.TrimSpace] ends: at an ASCII byte that is no
    space (or at the end of its range), or at a byte that is not ASCII. *)
Inductive trim_stop : Type :=
| AtByte (i : nat)
| NonASCII (i : nat).

(** The first loop of [strings.TrimSpace], with [rest] the string from
    [start] on. *)
Fixpoint TrimSpace_start (rest : list byte) (start : nat) : trim_stop :=
  match rest with
  | [] => AtByte start
  | c :: rest' =>
      if (utf8_RuneSelf <=? byte_to_Z c)%Z then NonASCII start
      else if asciiSpace c then TrimSpace_start rest' (S start)
      else AtByte start
  end.

(** The second loop: [for ; stop > start; stop--], looking at
    [s[stop-1]]. *)
Fixpoint TrimSpace_stop (s : list byte) (start stop : nat) : trim_stop :=
  match stop with
  | 0 => AtByte 0
  | S stop' =>
      if stop <=? start then AtByte stop
      else
        match s !! stop' with
        | Some c =>
            if (utf8_RuneSelf <=? byte_to_Z c)%Z then NonASCII stop
            else if asciiSpace c then TrimSpace_stop s start stop'
            else AtByte stop
        | None => AtByte stop
        end
  end.

(** [strings.TrimSpace]: the fast path for ASCII and, from the first byte
    that is not ASCII on, the trimming of the white space of Unicode. *)
Definition strings_TrimSpace (s : list byte) : list byte :=
  match TrimSpace_start s 0 with
  | NonASCII start => strings_TrimFunc (drop start s) unicode_IsSpace
  | AtByte start =>
      match TrimSpace_stop s start (length s) with
      | NonASCII stop =>
          strings_TrimRightFunc (take (stop - start) (drop start s)) unicode_IsSpace
      | AtByte stop => take (stop - start) (drop start s)
      end
  end.

(** [bytes.IndexByte]: the index of the first [c] in [s]. *)
Fixpoint bytes_IndexByte (s : list byte) (c : byte) : option nat :=
  match s with
  | [] => None
  | x :: s' => if Byte.eqb x c then Some 0 else S <$> bytes_IndexByte s' c
  end.

(** ** Package [regexp]

    The fragment of RE2 syntax that the five patterns of the package use:
    the anchor [^] (beginning of text, no multi-line flag), a backslash
    before a punctuation character, and literal characters. *)

Inductive inst : Type :=
| BeginText
| Lit (c : byte).

Definition Regexp : Type := list inst.

(** The characters with a meaning of their own in a pattern: dollar,
    parentheses, star, plus, dot, question mark, brackets, braces, bar. *)
Definition is_meta (c : byte) : bool :=
  match c with
  | x24 | x28 | x29 | x2a | x2b | x2e | x3f | x5b | x5d | x7b | x7d
  | x7c => true
  | _ => false
  end.

(** [x5e] is the caret, [x5c] the backslash. *)
Fixpoint regexp_parse (p : list byte) : option Regexp :=
  match p with
  | [] => Some []
  | x5e :: p' => cons BeginText <$> regexp_parse p'
  | x5c :: c :: p' =>
      if is_meta c || Byte.eqb c x5c || Byte.eqb c x5e
      then cons (Lit c) <$> regexp_parse p' else None
  | c :: p' =>
      if is_meta c || Byte.eqb c x5c then None
      else cons (Lit c) <$> regexp_parse p'
  end.

(** [regexp.MustCompile] panics on a pattern it cannot parse; the patterns
    of the package are constants inside the fragment (see
    [patterns_compile]), the default is never used. *)
Definition regexp_MustCompile (p : list byte) : Regexp :=
  default [] (regexp_parse p).

(** Does [re] match at the current position?  [at_start] says whether the
    position is the beginning of the text. *)
Fixpoint match_here (re : Regexp) (at_start : bool) (s : list byte) : bool :=
  match re with
  | [] => true
  | BeginText :: re' => at_start && match_here re' at_start s
  | Lit c :: re' =>
      match s with
      | x :: s' => Byte.eqb x c && match_here re' false s'
      | [] => false
      end
  end.

Fixpoint match_from (re : Regexp) (at_start : bool) (s : list byte) : bool :=
  match_here re at_start s ||
  match s with
  | _ :: s' => match_from re false s'
  | [] => false
  end.

(** The method [MatchString] of a compiled pattern: a match anywhere in
    [s]. *)
Definition regexp_MatchString (re : Regexp) (s : list byte) : bool :=
  match_from re true s.

(** ** MySQL protocol constants *)

Definition clientSSL : Z := 0x800.
Definition clientProtocol41 : Z := 0x00000200.
Definition clientSecureConn : Z := 0x00008000.
Definition mysqlProtocolVersion : Z := 10.
Definition maxMySQLPacketSize : Z := 16777215.
Definition utf8GeneralCI : Z := 33.

(** ** [parseHandshakePacket]

    [parseHandshakePacket] and [createSSLRequestPacket] are methods of
    [mysqlProtocol] that do not use their receiver; it is left out. *)

(** [for pos < len(body) && body[pos] != 0 { pos++ }].  The loop runs at
    most [len(body)] times, which is the fuel [parseHandshakePacket] gives
    it. *)
Fixpoint skip_to_null (fuel : nat) (body : list byte) (pos : nat) : nat :=
  match fuel with
  | 0 => pos
  | S fuel' =>
      match body !! pos with
      | Some b => if Z.eqb (byte_to_Z b) 0 then pos
                  else skip_to_null fuel' body (S pos)
      | None => pos
      end
  end.

Definition parseHandshakePacket (body : list byte) : result Z :=
  (bad <-- (if Nat.eqb (length body) 0 then Ret true
            else b0 <-- index body 0 ;;
                 Ret (negb (Z.eqb (byte_to_Z b0) mysqlProtocolVersion))) ;;
   if bad : bool then
     b0 <-- index body 0 ;;
     Fail (fmt_Errorf (str "mysql: unsupported protocol version: " ++ fmt_d b0))
   else
     let pos := 1 in
     let pos := skip_to_null (length body) body pos in
     let pos := pos + 1 in
     let pos := pos + 4 in
     let pos := pos + 8 in
     let pos := skip_to_null (length body) body pos in
     let pos := pos + 1 in
     let pos := pos + 1 in
     if length body <? pos + 2 then
       Fail (fmt_Errorf (str "mysql: packet too short for capability flags"))
     else
       lo <-- index body pos ;;
       hi <-- index body (pos + 1) ;;
       Ret (Z.lor (uint32 (byte_to_Z lo))
                  (uint32 (Z.shiftl (uint32 (byte_to_Z hi)) 8))))%result.

(** ** [createSSLRequestPacket] *)

Definition createSSLRequestPacket : list byte :=
  let clientFlags :=
    uint32 (Z.lor (Z.lor clientSSL clientProtocol41) clientSecureConn) in
  let packet := replicate (4 + 32) x00 in
  let packet := <[0 := Z_to_byte 32]> packet in
  let packet := <[3 := Z_to_byte 1]> packet in
  let packet := <[4 := Z_to_byte clientFlags]> packet in
  let packet := <[5 := Z_to_byte (Z.shiftr clientFlags 8)]> packet in
  let packet := <[6 := Z_to_byte (Z.shiftr clientFlags 16)]> packet in
  let packet := <[7 := Z_to_byte (Z.shiftr clientFlags 24)]> packet in
  let maxSize := uint32 maxMySQLPacketSize in
  let packet := <[8 := Z_to_byte maxSize]> packet in
  let packet := <[9 := Z_to_byte (Z.shiftr maxSize 8)]> packet in
  let packet := <[10 := Z_to_byte (Z.shiftr maxSize 16)]> packet in
  let packet := <[11 := Z_to_byte (Z.shiftr maxSize 24)]> packet in
  let packet := <[12 := Z_to_byte utf8GeneralCI]> packet in
  packet.

(** ** The connection and the context

    What the peer and the cancellation token do is a script, in the order in
    which the client observes it.  [Recv b bs]: the bytes [b :: bs] become
    readable (a read of a [net.Conn] never returns zero bytes without an
    error).  [Done why]: the channel [ctx.Done()] is closed, and [ctx.Err()]
    is [ctx_Err why] from then on.  When the script is used up the
    connection is at its [closing]: the peer has closed it, it is broken, or
    it stays silent for ever.  [context.Background()] is a script without
    [Done]. *)

Inductive cause : Type := Canceled | DeadlineExceeded.

Definition ctx_Err (why : cause) : error :=
  match why with
  | Canceled => context_Canceled
  | DeadlineExceeded => context_DeadlineExceeded
  end.

Inductive event : Type :=
| Recv (b : byte) (bs : list byte)
| Done (why : cause).

Inductive ending : Type :=
| AtEOF
| Broken (msg : list byte)
| Silent.

(** [sent]: every byte the connection has accepted, in order.  [wfail]:
    [Some (k, msg)] when the connection accepts [k] more bytes and then fails
    every write with the network error [msg]; [None] when it never fails. *)
Record Conn : Type := mkConn {
  incoming : list event;
  closing : ending;
  sent : list byte;
  wfail : option (nat * list byte)
}.

(** The arrival of [bs] as one segment (nothing arrives when [bs] is
    empty). *)
Definition recv (bs : list byte) : list event :=
  match bs with
  | [] => []
  | b :: bs' => [Recv b bs']
  end.

(** What a blocked read finds: bytes, an error, no end of the wait
    ([Pending None]), or the closing of [ctx.Done()] before anything else
    ([Pending (Some why)]).  The last one is not a return of [Read]: the read
    is still blocked, and only a caller that selects on [ctx.Done()] gets
    out of it. *)
Inductive wait (A : Type) : Type :=
| Got (a : A)
| Err (e : error)
| Pending (done : option cause).
Arguments Got {A} a.
Arguments Err {A} e.
Arguments Pending {A} done.

(** [conn.Read(p)] with [len(p) = n]. *)
Definition conn_Read (n : nat) (c : Conn) : wait (list byte) * Conn :=
  match incoming c with
  | [] =>
      (match closing c with
       | AtEOF => Err io_EOF
       | Broken msg => Err (net_Error msg)
       | Silent => Pending None
       end, c)
  | Done why :: _ => (Pending (Some why), c)
  | Recv b bs :: rest =>
      (Got (take n (b :: bs)),
       mkConn (recv (drop n (b :: bs)) ++ rest) (closing c) (sent c) (wfail c))
  end.

(** [conn.Write(p)]: the number of bytes accepted and the error. *)
Definition conn_Write (p : list byte) (c : Conn) : nat * option error * Conn :=
  match wfail c with
  | None => (length p, None, mkConn (incoming c) (closing c) (sent c ++ p) None)
  | Some (k, msg) =>
      if length p <=? k then
        (length p, None,
         mkConn (incoming c) (closing c) (sent c ++ p) (Some (k - length p, msg)))
      else
        (k, Some (net_Error msg),
         mkConn (incoming c) (closing c) (sent c ++ take k p) (Some (0, msg)))
  end.

(** ** Package [bufio]

    [rbuf] is the part of the reader's buffer that is read from the
    connection and not yet consumed ([b.buf[b.r:b.w]]), [wbuf] the writer's
    buffer ([b.buf[0:b.n]]) and [werr] its sticky error.  Both buffers have
    the default size. *)

Definition defaultBufSize : nat := 4096.

Record ReadWriter : Type := mkRW {
  rbuf : list byte;
  wbuf : list byte;
  werr : option error;
  conn : Conn
}.

(** [bufio.NewReadWriter(bufio.NewReader(conn), bufio.NewWriter(conn))]. *)
Definition bufio_NewReadWriter (c : Conn) : ReadWriter := mkRW [] [] None c.

Definition set_rbuf (buf : list byte) (rw : ReadWriter) : ReadWriter :=
  mkRW buf (wbuf rw) (werr rw) (conn rw).

Definition set_conn (c : Conn) (rw : ReadWriter) : ReadWriter :=
  mkRW (rbuf rw) (wbuf rw) (werr rw) c.

(** [rw.Reader.Buffered()]. *)
Definition bufio_Buffered (rw : ReadWriter) : nat := length (rbuf rw).

(** The reader's [fill]: one read of the connection into the free part of
    the buffer (the buffer is not full when [fill] is called). *)
Definition bufio_fill (rw : ReadWriter) : wait unit * ReadWriter :=
  match conn_Read (defaultBufSize - length (rbuf rw)) (conn rw) with
  | (Got bs, c) => (Got tt, mkRW (rbuf rw ++ bs) (wbuf rw) (werr rw) c)
  | (Err e, c) => (Err e, set_conn c rw)
  | (Pending d, c) => (Pending d, set_conn c rw)
  end.

(** The number of bytes of the script. *)
Fixpoint script_bytes (evs : list event) : nat :=
  match evs with
  | [] => 0
  | Recv _ bs :: evs' => S (length bs) + script_bytes evs'
  | Done _ :: evs' => script_bytes evs'
  end.

(** [ReadString]: the loop of [ReadSlice] inside [collectFragments].  [acc]
    holds the full buffers collected so far. *)
Fixpoint ReadString_loop (fuel : nat) (delim : byte) (acc : list byte)
    (rw : ReadWriter) : wait (list byte) * ReadWriter :=
  match fuel with
  | 0 => (Pending None, rw)
  | S fuel' =>
      match bytes_IndexByte (rbuf rw) delim with
      | Some i =>
          (Got (acc ++ take (S i) (rbuf rw)), set_rbuf (drop (S i) (rbuf rw)) rw)
      | None =>
          if defaultBufSize <=? length (rbuf rw) then
            ReadString_loop fuel' delim (acc ++ rbuf rw) (set_rbuf [] rw)
          else
            match bufio_fill rw with
            | (Got _, rw') => ReadString_loop fuel' delim acc rw'
            | (Err e, rw') => (Err e, set_rbuf [] rw')
            | (Pending d, rw') => (Pending d, rw')
            end
      end
  end.

(** Between two reads of the connection the loop takes at most one more
    turn (a full buffer is set aside), and every read takes at least one
    byte of the script: the fuel below is never used up
    ([bufio_ReadString_spec]). *)
Definition bufio_ReadString (delim : byte) (rw : ReadWriter)
    : wait (list byte) * ReadWriter :=
  ReadString_loop (2 * script_bytes (incoming (conn rw)) + 2) delim [] rw.

(** The reader's [Read(p)] with [len(p) = n]: at most one read of the
    connection, straight into [p] when [p] is at least as large as the
    buffer. *)
Definition bufio_Read (n : nat) (rw : ReadWriter) : wait (list byte) * ReadWriter :=
  if n =? 0 then (Got [], rw)
  else
    match rbuf rw with
    | [] =>
        if defaultBufSize <=? n then
          match conn_Read n (conn rw) with
          | (Got bs, c) => (Got bs, set_conn c rw)
          | (other, c) => (other, set_conn c rw)
          end
        else
          match conn_Read defaultBufSize (conn rw) with
          | (Got bs, c) => (Got (take n bs), mkRW (drop n bs) (wbuf rw) (werr rw) c)
          | (other, c) => (other, set_conn c rw)
          end
    | _ :: _ => (Got (take n (rbuf rw)), set_rbuf (drop n (rbuf rw)) rw)
    end.

(** [b.Available()] of the writer. *)
Definition bufio_Available (rw : ReadWriter) : nat :=
  defaultBufSize - length (wbuf rw).

(** The writer's [Flush]. *)
Definition bufio_Flush (rw : ReadWriter) : result unit * ReadWriter :=
  match werr rw with
  | Some e => (Fail e, rw)
  | None =>
      match wbuf rw with
      | [] => (Ret tt, rw)
      | _ :: _ =>
          match conn_Write (wbuf rw) (conn rw) with
          | (n, Some e, c) => (Fail e, mkRW (rbuf rw) (drop n (wbuf rw)) (Some e) c)
          | (n, None, c) => (Ret tt, mkRW (rbuf rw) [] None c)
          end
      end
  end.

(** The writer's [WriteString] (the connection has no [WriteString] of its
    own).  The loop is entered only by a string larger than the free part
    of the buffer; after its first turn the buffer is empty, so that every
    further turn takes a whole buffer of [s]: the fuel is never used up
    ([bufio_WriteString_returns]). *)
Fixpoint WriteString_loop (fuel : nat) (s : list byte) (nn : nat)
    (rw : ReadWriter) : result nat * ReadWriter :=
  if (bufio_Available rw <? length s) && bool_decide (werr rw = None) then
    match fuel with
    | 0 => (Blocked, rw)
    | S fuel' =>
        let n := bufio_Available rw in
        let rw1 := mkRW (rbuf rw) (wbuf rw ++ take n s) (werr rw) (conn rw) in
        WriteString_loop fuel' (drop n s) (nn + n) (snd (bufio_Flush rw1))
    end
  else
    match werr rw with
    | Some e => (Fail e, rw)
    | None =>
        (Ret (nn + length s), mkRW (rbuf rw) (wbuf rw ++ s) None (conn rw))
    end.

Definition bufio_WriteString (s : list byte) (rw : ReadWriter)
    : result nat * ReadWriter :=
  WriteString_loop (S (length s)) s 0 rw.

(** The writer's [Write]: as [WriteString], but a slice larger than the
    free part goes straight to the connection when the buffer is empty. *)
Fixpoint Write_loop (fuel : nat) (p : list byte) (nn : nat)
    (rw : ReadWriter) : result nat * ReadWriter :=
  if (bufio_Available rw <? length p) && bool_decide (werr rw = None) then
    match fuel with
    | 0 => (Blocked, rw)
    | S fuel' =>
        match wbuf rw with
        | [] =>
            match conn_Write p (conn rw) with
            | (n, e, c) =>
                Write_loop fuel' (drop n p) (nn + n) (mkRW (rbuf rw) [] e c)
            end
        | _ :: _ =>
            let n := bufio_Available rw in
            let rw1 := mkRW (rbuf rw) (wbuf rw ++ take n p) (werr rw) (conn rw) in
            Write_loop fuel' (drop n p) (nn + n) (snd (bufio_Flush rw1))
        end
    end
  else
    match werr rw with
    | Some e => (Fail e, rw)
    | None =>
        (Ret (nn + length p), mkRW (rbuf rw) (wbuf rw ++ p) None (conn rw))
    end.

Definition bufio_Write (p : list byte) (rw : ReadWriter)
    : result nat * ReadWriter :=
  Write_loop (S (length p)) p 0 rw.

(** ** The monad of the drivers: state passing with early return *)

Definition M (A : Type) : Type := ReadWriter -> result A * ReadWriter.

Definition ret {A} (a : A) : M A := fun rw => (Ret a, rw).

Definition fail {A} (e : error) : M A := fun rw => (Fail e, rw).

Definition bind {A B} (m : M A) (k : A -> M B) : M B :=
  fun rw =>
    match m rw with
    | (Ret a, rw') => k a rw'
    | (Fail e, rw') => (Fail e, rw')
    | (Panic, rw') => (Panic, rw')
    | (Blocked, rw') => (Blocked, rw')
    end.

(** [lift r]: a computation that does no input or output. *)
Definition lift {A} (r : result A) : M A := fun rw => (r, rw).

(** [err := m; if err != nil { return fmt.Errorf(pre + "%w", err) }]. *)
Definition wrapping {A} (pre : list byte) (m : M A) : M A :=
  fun rw =>
    match m rw with
    | (Fail e, rw') => (Fail (fmt_Errorf_w pre e []), rw')
    | other => other
    end.

Declare Scope M_scope.
Delimit Scope M_scope with M.
Notation "x <- m ;; k" := (bind m (fun x => k))
  (at level 100, m at next level, right associativity) : M_scope.
Notation "m ;;; k" := (bind m (fun _ => k))
  (at level 100, right associativity) : M_scope.

(** ** Package [io]: [ReadFull]

    [io.ReadFull(rw.Reader, buf)] with [len(buf) = n], returning the filled
    buffer.  Nothing here selects on [ctx.Done()]: when the channel closes
    during the read, the read goes on waiting for the connection. *)

Definition skip_done (rw : ReadWriter) : ReadWriter :=
  match incoming (conn rw) with
  | Done _ :: rest =>
      set_conn (mkConn rest (closing (conn rw)) (sent (conn rw)) (wfail (conn rw))) rw
  | _ => rw
  end.

Fixpoint ReadFull_loop (fuel need : nat) (buf : list byte) (rw : ReadWriter)
    : result (list byte) * ReadWriter :=
  if need =? 0 then (Ret buf, rw)
  else
    match fuel with
    | 0 => (Blocked, rw)
    | S fuel' =>
        match bufio_Read need rw with
        | (Got bs, rw') => ReadFull_loop fuel' (need - length bs) (buf ++ bs) rw'
        | (Err e, rw') =>
            (Fail (if (0 <? length buf) && error_same e io_EOF
                   then io_ErrUnexpectedEOF else e), rw')
        | (Pending None, rw') => (Blocked, rw')
        | (Pending (Some _), rw') => ReadFull_loop fuel' need buf (skip_done rw')
        end
    end.

(** Every turn of the loop takes at least one of the [n] bytes or one
    [Done] of the script: the fuel is never used up ([io_ReadFull_spec]). *)
Definition io_ReadFull (n : nat) : M (list byte) :=
  fun rw => ReadFull_loop (n + length (incoming (conn rw))) n [] rw.

(** ** [readLine]

    The worker runs [r.ReadString('\n')]; the [select] takes whichever of
    [ctx.Done()], [errCh] and [lineCh] is ready first.  In the order of the
    script: [ctx.Done()] is first when it is closed on entry or closes while
    the worker is blocked in a read of the connection. *)
Definition readLine : M (list byte) :=
  fun rw =>
    match incoming (conn rw) with
    | Done why :: _ => (Fail (ctx_Err why), rw)
    | _ =>
        match bufio_ReadString LF rw with
        | (Got line, rw') => (Ret line, rw')
        | (Err e, rw') => (Fail e, rw')
        | (Pending (Some why), rw') => (Fail (ctx_Err why), rw')
        | (Pending None, rw') => (Blocked, rw')
        end
    end.

(** ** Helper functions *)

(** What is left to read: a line takes at least one byte of it, which
    bounds the loops below ([expectGreeting_unfold], [ehlo_replies_unfold]:
    the loops of the model are the loops of the source). *)
Definition unread (rw : ReadWriter) : nat :=
  length (rbuf rw) + script_bytes (incoming (conn rw)).

Fixpoint expectGreeting_loop (fuel : nat) (pattern : Regexp) : M unit :=
  match fuel with
  | 0 => fun rw => (Blocked, rw)
  | S fuel' =>
      (line <- readLine ;;
       if regexp_MatchString pattern line then ret tt
       else expectGreeting_loop fuel' pattern)%M
  end.

Definition expectGreeting (pattern : Regexp) : M unit :=
  fun rw => expectGreeting_loop (S (unread rw)) pattern rw.

Definition sendStartTLS (authMsg : list byte) (respPattern : Regexp) : M unit :=
  (bufio_WriteString authMsg ;;;
   bufio_Flush ;;;
   line <- readLine ;;
   if negb (regexp_MatchString respPattern line) then
     fail (fmt_Errorf_w [] ErrStartTLSNotSupported
             (str ": " ++ strings_TrimSpace line))
   else ret tt)%M.

(** ** Protocols *)

Class StartTLSProtocol (T : Type) : Type := {
  Handshake : T -> M unit;
  Name : T -> string
}.

Record baseProtocol : Type := mkBase {
  name : string;
  greetMsg : Regexp;
  authMsg : list byte;
  respMsg : Regexp
}.

Definition newBaseProtocol (name : string) (greetPattern auth respPattern : list byte)
    : baseProtocol :=
  mkBase name (regexp_MustCompile greetPattern) auth (regexp_MustCompile respPattern).

(** *** SMTP *)

Record smtpProtocol : Type := mkSMTP { smtp_base : baseProtocol }.

Definition newSMTPProtocol : smtpProtocol :=
  mkSMTP (newBaseProtocol "smtp" (str "^220 ") (str "STARTTLS" ++ CRLF) (str "^220 ")).

Fixpoint sendEHLO_loop (fuel : nat) : M unit :=
  match fuel with
  | 0 => fun rw => (Blocked, rw)
  | S fuel' =>
      (line <- readLine ;;
       if negb (strings_HasPrefix line (str "250")) then
         fail (fmt_Errorf_w [] ErrInvalidResponse
                 (str ": unexpected EHLO response: " ++ line))
       else
         fun rw => if bufio_Buffered rw =? 0 then ret tt rw
                   else sendEHLO_loop fuel' rw)%M
  end.

Definition sendEHLO (p : smtpProtocol) : M unit :=
  (bufio_WriteString (str "EHLO tlstools.com" ++ CRLF) ;;;
   bufio_Flush ;;;
   fun rw => sendEHLO_loop (S (unread rw)) rw)%M.

Definition smtpProtocol_Handshake (p : smtpProtocol) : M unit :=
  (wrapping (str "smtp: greeting failed: ")
     (expectGreeting (greetMsg (smtp_base p))) ;;;
   wrapping (str "smtp: EHLO failed: ") (sendEHLO p) ;;;
   wrapping (str "smtp: STARTTLS failed: ")
     (sendStartTLS (authMsg (smtp_base p)) (respMsg (smtp_base p))) ;;;
   ret tt)%M.

#[global] Instance smtp_StartTLSProtocol : StartTLSProtocol smtpProtocol := {
  Handshake := smtpProtocol_Handshake;
  Name p := name (smtp_base p)
}.

(** *** IMAP *)

Record imapProtocol : Type := mkIMAP { imap_base : baseProtocol }.

Definition newIMAPProtocol : imapProtocol :=
  mkIMAP (newBaseProtocol "imap" (str "^\* ") (str "a001 STARTTLS" ++ CRLF)
            (str "^a001 OK ")).

Definition imapProtocol_Handshake (p : imapProtocol) : M unit :=
  (wrapping (str "imap: greeting failed: ")
     (expectGreeting (greetMsg (imap_base p))) ;;;
   wrapping (str "imap: STARTTLS failed: ")
     (sendStartTLS (authMsg (imap_base p)) (respMsg (imap_base p))) ;;;
   ret tt)%M.

#[global] Instance imap_StartTLSProtocol : StartTLSProtocol imapProtocol := {
  Handshake := imapProtocol_Handshake;
  Name p := name (imap_base p)
}.

(** *** POP3 *)

Record pop3Protocol : Type := mkPOP3 { pop3_base : baseProtocol }.

Definition newPOP3Protocol : pop3Protocol :=
  mkPOP3 (newBaseProtocol "pop3" (str "^\+OK ") (str "STLS" ++ CRLF) (str "^\+OK ")).

Definition pop3Protocol_Handshake (p : pop3Protocol) : M unit :=
  (wrapping (str "pop3: greeting failed: ")
     (expectGreeting (greetMsg (pop3_base p))) ;;;
   wrapping (str "pop3: STARTTLS failed: ")
     (sendStartTLS (authMsg (pop3_base p)) (respMsg (pop3_base p))) ;;;
   ret tt)%M.

#[global] Instance pop3_StartTLSProtocol : StartTLSProtocol pop3Protocol := {
  Handshake := pop3Protocol_Handshake;
  Name p := name (pop3_base p)
}.

(** *** FTP *)

Record ftpProtocol : Type := mkFTP { ftp_base : baseProtocol }.

Definition newFTPProtocol : ftpProtocol :=
  mkFTP (newBaseProtocol "ftp" (str "^220 ") (str "AUTH TLS" ++ CRLF) (str "^234 ")).

Definition ftpProtocol_Handshake (p : ftpProtocol) : M unit :=
  (wrapping (str "ftp: greeting failed: ")
     (expectGreeting (greetMsg (ftp_base p))) ;;;
   wrapping (str "ftp: AUTH TLS failed: ")
     (sendStartTLS (authMsg (ftp_base p)) (respMsg (ftp_base p))) ;;;
   ret tt)%M.

#[global] Instance ftp_StartTLSProtocol : StartTLSProtocol ftpProtocol := {
  Handshake := ftpProtocol_Handshake;
  Name p := name (ftp_base p)
}.

(** *** MySQL *)

Record mysqlProtocol : Type := mkMySQL { mysql_name : string }.

Definition newMySQLProtocol : mysqlProtocol := mkMySQL "mysql".

(** [readMySQLPacket] reads a MySQL packet and returns its body. *)
Definition readMySQLPacket (p : mysqlProtocol) : M (list byte) :=
  (header <- wrapping (str "mysql: failed to read packet header: ") (io_ReadFull 4) ;;
   h0 <- lift (index header 0) ;;
   h1 <- lift (index header 1) ;;
   h2 <- lift (index header 2) ;;
   let length :=
     Z.to_nat (Z.lor (Z.lor (uint32 (byte_to_Z h0))
                            (uint32 (Z.shiftl (uint32 (byte_to_Z h1)) 8)))
                     (uint32 (Z.shiftl (uint32 (byte_to_Z h2)) 16))) in
   body <- wrapping (str "mysql: failed to read packet body: ") (io_ReadFull length) ;;
   ret body)%M.

Definition mysqlProtocol_Handshake (p : mysqlProtocol) : M unit :=
  (body <- readMySQLPacket p ;;
   capabilities <- lift (parseHandshakePacket body) ;;
   if Z.eqb (Z.land capabilities clientSSL) 0 then
     fail (fmt_Errorf_w [] ErrStartTLSNotSupported
             (str ": MySQL server does not support SSL"))
   else
     let sslRequest := createSSLRequestPacket in
     wrapping (str "mysql: failed to write SSL request: ") (bufio_Write sslRequest) ;;;
     wrapping (str "mysql: failed to flush SSL request: ") bufio_Flush ;;;
     ret tt)%M.

#[global] Instance mysql_StartTLSProtocol : StartTLSProtocol mysqlProtocol := {
  Handshake := mysqlProtocol_Handshake;
  Name := mysql_name
}.

(** ** The protocol registry and [StartTLS] *)

(** A value of the interface type [StartTLSProtocol]: a value of some type
    that implements it. *)
Record Protocol : Type := asProtocol {
  dynamic_type : Type;
  dynamic_impl : StartTLSProtocol dynamic_type;
  dynamic_value : dynamic_type
}.
Arguments asProtocol {dynamic_type dynamic_impl} dynamic_value.

Definition Protocol_Handshake (p : Protocol) : M unit :=
  @Handshake _ (dynamic_impl p) (dynamic_value p).

Definition Protocol_Name (p : Protocol) : string :=
  @Name _ (dynamic_impl p) (dynamic_value p).

Definition protocols : gmap string (unit -> Protocol) :=
  <["21" := fun _ => asProtocol newFTPProtocol]>
  (<["25" := fun _ => asProtocol newSMTPProtocol]>
  (<["587" := fun _ => asProtocol newSMTPProtocol]>
  (<["110" := fun _ => asProtocol newPOP3Protocol]>
  (<["143" := fun _ => asProtocol newIMAPProtocol]>
  (<["3306" := fun _ => asProtocol newMySQLProtocol]> ∅))))).

(** The ports that use TLS from the first byte. *)
Definition directTLSPorts : list string := ["443"; "465"; "993"; "995"; "3389"].

(** [StartTLS] initiates a STARTTLS handshake for supported protocols.  The
    state of the connection comes back with the result; the context is part
    of the script of the connection. *)
Definition StartTLS (c : Conn) (port : string) : result unit * Conn :=
  match protocols !! port with
  | None =>
      if bool_decide (port ∈ directTLSPorts) then (Ret tt, c)
      else (Fail (fmt_Errorf_w [] ErrUnsupportedProtocol
                    (str ": port " ++ str port)), c)
  | Some protocolFactory =>
      let protocol := protocolFactory tt in
      let rw := bufio_NewReadWriter c in
      let '(r, rw') := Protocol_Handshake protocol rw in
      (r, conn rw')
  end.

(** ** The scenarios of [starttls_test.go] *)

Definition server (messages : list (list byte)) (close : ending) : Conn :=
  mkConn (concat (recv <$> messages)) close [] None.

Definition mysql_greeting (caps_hi : byte) : list byte :=
  [x31; x00; x00; x00; x0a] ++ str "5.7.0" ++ [x00; x01; x02; x03; x04]
    ++ str "12345678" ++ [x00; x00; x00; caps_hi; x21; x02; x00; x00; x00; x08]
    ++ replicate 10 x00 ++ str "mysql_native_password" ++ [x00].


(** * The statements of the specification, in its own words *)

(** ** The layout of the MySQL handshake packet

    After the version tag: a null-terminated server version, a 4-byte
    thread id, 8 bytes of auth-plugin data, a second null-terminated field,
    its terminator and a filler byte, and then the lower capability flags,
    two bytes, little-endian. *)

(** The number of bytes before the first null byte of [s] (all of [s] when
    it has none). *)
Fixpoint cstring_len (s : list byte) : nat :=
  match s with
  | [] => 0
  | b :: s' => if Byte.eqb b x00 then 0 else S (cstring_len s')
  end.

Definition capability_offset (body : list byte) : nat :=
  let after_version := 1 + cstring_len (drop 1 body) + 1 in
  let after_auth_data := after_version + 4 + 8 in
  let second_field := cstring_len (drop after_auth_data body) in
  after_auth_data + second_field + 2.

Definition capability_flags (body : list byte) : result Z :=
  match drop (capability_offset body) body with
  | lo :: hi :: _ => Ret (byte_to_Z lo + 256 * byte_to_Z hi)%Z
  | _ => Fail (fmt_Errorf (str "mysql: packet too short for capability flags"))
  end.

(** ** The dispatcher *)

(** The ports with a STARTTLS driver. *)
Definition startTLSPorts : list string := ["21"; "25"; "587"; "110"; "143"; "3306"].

(** A driver run on the connection wrapped in buffered access; what comes
    back is the driver's result and the connection as the driver left it. *)
Definition negotiate_with `{StartTLSProtocol T} (driver : T) (c : Conn)
    : result unit * Conn :=
  let '(r, rw) := Handshake driver (bufio_NewReadWriter c) in (r, conn rw).

(** ** The input stream

    The bytes a reader can still get, whatever the segments they arrive
    in: the bytes already buffered, then the bytes of the script. *)

(** All the bytes of the script. *)
Fixpoint script_data (evs : list event) : list byte :=
  match evs with
  | [] => []
  | Recv b bs :: evs' => b :: bs ++ script_data evs'
  | Done _ :: evs' => script_data evs'
  end.

(** The bytes that arrive before [ctx.Done()] is closed. *)
Fixpoint before_done (evs : list event) : list byte :=
  match evs with
  | Recv b bs :: evs' => b :: bs ++ before_done evs'
  | _ => []
  end.

(** The script from the closing of [ctx.Done()] on. *)
Fixpoint from_done (evs : list event) : list event :=
  match evs with
  | Recv _ _ :: evs' => from_done evs'
  | _ => evs
  end.

(** The stream of a reader that does not watch the context. *)
Definition inbound (rw : ReadWriter) : list byte :=
  rbuf rw ++ script_data (incoming (conn rw)).

(** The stream of a reader that does, up to the closing of [ctx.Done()]. *)
Definition readable (rw : ReadWriter) : list byte :=
  rbuf rw ++ before_done (incoming (conn rw)).

(** What a read finds when the stream holds too little: the end of the
    script. *)
Definition at_end (close : ending) : wait (list byte) :=
  match close with
  | AtEOF => Err io_EOF
  | Broken msg => Err (net_Error msg)
  | Silent => Pending None
  end.

(** A step that only reads: the writer and the outgoing side of the
    connection are as before, and so is the end of the script. *)
Definition reads_only (rw rw' : ReadWriter) : Prop :=
  wbuf rw' = wbuf rw /\ werr rw' = werr rw
  /\ closing (conn rw') = closing (conn rw)
  /\ sent (conn rw') = sent (conn rw)
  /\ wfail (conn rw') = wfail (conn rw).

(** ** The MySQL packet, as the specification words it *)

(** Reading exactly [n] bytes from a stream that holds [data] and then
    ends in [close]: the first [n] bytes, or the I/O error of a short
    read. *)
Definition read_exactly (n : nat) (data : list byte) (close : ending)
    : result (list byte) :=
  if n <=? length data then Ret (take n data)
  else
    match close with
    | AtEOF => Fail (if length data =? 0 then io_EOF else io_ErrUnexpectedEOF)
    | Broken msg => Fail (net_Error msg)
    | Silent => Blocked
    end.

(** The 24-bit little-endian integer of three bytes. *)
Definition little_endian_24 (h0 h1 h2 : byte) : nat :=
  Z.to_nat (byte_to_Z h0 + 256 * byte_to_Z h1 + 65536 * byte_to_Z h2).

(** Four header bytes, the length from the first three, then that many
    bytes of body; a short read is the I/O error, wrapped. *)
Definition read_packet (data : list byte) (close : ending) : result (list byte) :=
  match read_exactly 4 data close with
  | Ret (h0 :: h1 :: h2 :: _) =>
      match read_exactly (little_endian_24 h0 h1 h2) (drop 4 data) close with
      | Ret body => Ret body
      | Fail e => Fail (fmt_Errorf_w (str "mysql: failed to read packet body: ") e [])
      | other => other
      end
  | Ret _ => Panic
  | Fail e => Fail (fmt_Errorf_w (str "mysql: failed to read packet header: ") e [])
  | other => other
  end.

(** ** The SSL request packet, as the specification words it *)

Definition little_endian_32 (x : Z) : list byte :=
  [Z_to_byte x; Z_to_byte (x / 2 ^ 8); Z_to_byte (x / 2 ^ 16); Z_to_byte (x / 2 ^ 24)].

(** A 4-byte header (payload length 32, sequence number 1) and a 32-byte
    body: the client flags, the maximal packet size, the character set and
    zero padding. *)
Definition ssl_request : list byte :=
  [Z_to_byte 32; x00; x00; Z_to_byte 1]
    ++ little_endian_32 (Z.lor (Z.lor clientSSL clientProtocol41) clientSecureConn)
    ++ little_endian_32 16777215
    ++ [Z_to_byte 33]
    ++ replicate 23 x00.

(** The connection takes [n] more bytes without an error. *)
Definition accepts (c : Conn) (n : nat) : Prop :=
  match wfail c with
  | None => True
  | Some (k, _) => n <= k
  end.

(** A MySQL server that offers SSL, on a connection whose outgoing side is
    broken. *)
Definition mysql_broken_pipe : Conn :=
  mkConn (recv (mysql_greeting x08)) Silent [] (Some (0, str "broken pipe")).

(** ** Lines, as the specification words them *)

(** The first line of a stream: its bytes up to and including the first
    [delim]; none when the stream holds no [delim]. *)
Fixpoint line_to (delim : byte) (data : list byte) : option (list byte) :=
  match data with
  | [] => None
  | b :: data' =>
      if Byte.eqb b delim then Some [b] else cons b <$> line_to delim data'
  end.

Definition first_line (data : list byte) : option (list byte) := line_to LF data.

(** What a reader finds after the last byte that arrives before
    [ctx.Done()] closes: the closing of [ctx.Done()], or the end of the
    script. *)
Definition stop_of (evs : list event) (close : ending) : wait (list byte) :=
  match from_done evs with
  | Done why :: _ => Pending (Some why)
  | _ => at_end close
  end.

(** The three outcomes of [readLine] (and the call that never returns):
    - the cancellation error, when the token has fired on entry, or fires
      before a full line is there;
    - the I/O error, when the source ends or fails before a line feed;
    - otherwise the line, with its line feed. *)
Definition readLine_outcome (rw : ReadWriter) : result (list byte) :=
  match incoming (conn rw) with
  | Done why :: _ => Fail (ctx_Err why)
  | _ =>
      match first_line (readable rw) with
      | Some line => Ret line
      | None =>
          match from_done (incoming (conn rw)) with
          | Done why :: _ => Fail (ctx_Err why)
          | _ =>
              match closing (conn rw) with
              | AtEOF => Fail io_EOF
              | Broken msg => Fail (net_Error msg)
              | Silent => Blocked
              end
          end
      end
  end.

(** ** The greeting loop *)

(** A line: bytes without a line feed, then a line feed. *)
Definition is_line (l : list byte) : Prop :=
  exists s, l = s ++ [LF] /\ (LF ∉ s).

(** [skips pattern rw lines rw']: from [rw], [readLine] returns the lines
    [lines] one after the other, none of them matches [pattern], and the
    reader is then in [rw']. *)
Inductive skips (pattern : Regexp) : ReadWriter -> list (list byte) -> ReadWriter -> Prop :=
| skips_nil rw : skips pattern rw [] rw
| skips_cons rw line rw1 lines rw2 :
    readLine rw = (Ret line, rw1) ->
    regexp_MatchString pattern line = false ->
    skips pattern rw1 lines rw2 ->
    skips pattern rw (line :: lines) rw2.

(** A script in which [ctx.Done()] never closes. *)
Definition never_cancelled (rw : ReadWriter) : Prop :=
  from_done (incoming (conn rw)) = [].

(** ** The line-oriented drivers, as the table of the specification *)

Inductive line_driver : Type := SMTP | IMAP | POP3 | FTP.

Definition driver_base (d : line_driver) : baseProtocol :=
  match d with
  | SMTP => smtp_base newSMTPProtocol
  | IMAP => imap_base newIMAPProtocol
  | POP3 => pop3_base newPOP3Protocol
  | FTP => ftp_base newFTPProtocol
  end.

Definition driver_Handshake (d : line_driver) : M unit :=
  match d with
  | SMTP => Handshake newSMTPProtocol
  | IMAP => Handshake newIMAPProtocol
  | POP3 => Handshake newPOP3Protocol
  | FTP => Handshake newFTPProtocol
  end.

(** The greeting: the line starts with this. *)
Definition greeting_prefix (d : line_driver) : list byte :=
  match d with
  | SMTP => str "220 "
  | IMAP => str "* "
  | POP3 => str "+OK "
  | FTP => str "220 "
  end.

(** The upgrade command. *)
Definition upgrade_command (d : line_driver) : list byte :=
  match d with
  | SMTP => str "STARTTLS" ++ CRLF
  | IMAP => str "a001 STARTTLS" ++ CRLF
  | POP3 => str "STLS" ++ CRLF
  | FTP => str "AUTH TLS" ++ CRLF
  end.

(** Success: the reply starts with this. *)
Definition success_prefix (d : line_driver) : list byte :=
  match d with
  | SMTP => str "220 "
  | IMAP => str "a001 OK "
  | POP3 => str "+OK "
  | FTP => str "234 "
  end.

(** The upgrade step of a driver, and the text its failure is wrapped
    with. *)
Definition upgrade_step (d : line_driver) : M unit :=
  sendStartTLS (authMsg (driver_base d)) (respMsg (driver_base d)).

Definition upgrade_step_name (d : line_driver) : list byte :=
  match d with
  | SMTP => str "smtp: STARTTLS failed: "
  | IMAP => str "imap: STARTTLS failed: "
  | POP3 => str "pop3: STARTTLS failed: "
  | FTP => str "ftp: AUTH TLS failed: "
  end.

(** The reader and writer once [s] is written and flushed. *)
Definition conn_after_write (p : list byte) (c : Conn) : Conn :=
  mkConn (incoming c) (closing c) (sent c ++ p)
    (match wfail c with
     | None => None
     | Some (k, msg) => Some (k - length p, msg)
     end).

Definition after_command (s : list byte) (rw : ReadWriter) : ReadWriter :=
  mkRW (rbuf rw) [] None (conn_after_write s (conn rw)).

(** A writer with nothing pending and no error, on a connection that takes
    [n] more bytes. *)
Definition can_send (rw : ReadWriter) (n : nat) : Prop :=
  wbuf rw = [] /\ werr rw = None /\ accepts (conn rw) n.

(** The not-supported error with the trimmed reply. *)
Definition rejected (line : list byte) : error :=
  fmt_Errorf_w [] ErrStartTLSNotSupported (str ": " ++ strings_TrimSpace line).

(** The white space of Unicode in UTF-8: the six ASCII characters, U+0085,
    U+00A0, U+1680, U+2000 to U+200A, U+2028, U+2029, U+202F, U+205F and
    U+3000. *)
Definition white_space : list (list byte) :=
  [[x09]; [x0a]; [x0b]; [x0c]; [x0d]; [x20];
   [xc2; x85]; [xc2; xa0]; [xe1; x9a; x80];
   [xe2; x80; x80]; [xe2; x80; x81]; [xe2; x80; x82]; [xe2; x80; x83];
   [xe2; x80; x84]; [xe2; x80; x85]; [xe2; x80; x86]; [xe2; x80; x87];
   [xe2; x80; x88]; [xe2; x80; x89]; [xe2; x80; x8a];
   [xe2; x80; xa8]; [xe2; x80; xa9]; [xe2; x80; xaf];
   [xe2; x81; x9f]; [xe3; x80; x80]].

(** Nothing but white space. *)
Definition blank (s : list byte) : Prop :=
  exists ws, Forall (fun w => w ∈ white_space) ws /\ s = concat ws.

(** No white space at either end. *)
Definition trimmed (s : list byte) : Prop :=
  forall w rest, w ∈ white_space -> s <> w ++ rest /\ s <> rest ++ w.

(** A continuation byte of UTF-8. *)
Definition continues (b : byte) : Prop := (0x80 <= byte_to_Z b <= 0xBF)%Z.

(** Nothing follows, or a byte that starts a rune. *)
Definition starts_rune (R : list byte) : Prop :=
  match R with
  | [] => True
  | c :: _ => ~ continues c
  end.

(** ** The capability loop of SMTP *)

(** [drains rw lines rw']: from [rw], [readLine] returns the lines [lines]
    one after the other, each starts with "250", and after each of them the
    reader still has bytes in its buffer; the reader is then in [rw']. *)
Inductive drains : ReadWriter -> list (list byte) -> ReadWriter -> Prop :=
| drains_nil rw : drains rw [] rw
| drains_cons rw line rw1 lines rw2 :
    readLine rw = (Ret line, rw1) ->
    strings_HasPrefix line (str "250") = true ->
    bufio_Buffered rw1 <> 0 ->
    drains rw1 lines rw2 ->
    drains rw (line :: lines) rw2.

Definition ehlo_command : list byte := str "EHLO tlstools.com" ++ CRLF.

(** The malformed-response error of the capability loop. *)
Definition unexpected_EHLO (line : list byte) : error :=
  fmt_Errorf_w [] ErrInvalidResponse (str ": unexpected EHLO response: " ++ line).

(** ** Measures and outcomes of the library loops *)

(** What [ReadFull] returns when it still needs [need] bytes and holds
    [buf]. *)
Definition ReadFull_outcome (need : nat) (buf data : list byte) (close : ending)
    : result (list byte) :=
  if need <=? length data then Ret (buf ++ take need data)
  else
    match close with
    | AtEOF => Fail (if 0 <? length buf + length data
                     then io_ErrUnexpectedEOF else io_EOF)
    | Broken msg => Fail (net_Error msg)
    | Silent => Blocked
    end.

(** The turns the loop of [ReadString] can still take. *)
Definition ReadString_turns (rw : ReadWriter) : nat :=
  2 * script_bytes (incoming (conn rw))
  + (if defaultBufSize <=? length (rbuf rw) then 1 else 0).


(** The loop of [sendEHLO], after the command is sent. *)
Definition ehlo_replies : M unit :=
  fun rw => sendEHLO_loop (S (unread rw)) rw.

(** The steps of a driver before its upgrade step. *)
Definition before_upgrade (d : line_driver) : M unit :=
  match d with
  | SMTP =>
      (wrapping (str "smtp: greeting failed: ")
         (expectGreeting (greetMsg (driver_base SMTP))) ;;;
       wrapping (str "smtp: EHLO failed: ") (sendEHLO newSMTPProtocol))%M
  | IMAP =>
      wrapping (str "imap: greeting failed: ")
        (expectGreeting (greetMsg (driver_base IMAP)))
  | POP3 =>
      wrapping (str "pop3: greeting failed: ")
        (expectGreeting (greetMsg (driver_base POP3)))
  | FTP =>
      wrapping (str "ftp: greeting failed: ")
        (expectGreeting (greetMsg (driver_base FTP)))
  end.

(** ** Scenarios *)

(** The SMTP servers of [starttls_test.go]: each message of the server is
    one segment. *)
Definition smtp_success : Conn :=
  server [str "220 test.test.test server" ++ CRLF;
          str "250-test.test.test" ++ CRLF ++ str "250 STARTTLS" ++ CRLF;
          str "220 ready for TLS" ++ CRLF] Silent.

Definition smtp_no_starttls : Conn :=
  server [str "220 test.test.test server" ++ CRLF;
          str "250-test.test.test" ++ CRLF ++ str "250 NO-STARTTLS" ++ CRLF;
          str "500 Not supported" ++ CRLF] Silent.

(** A server whose capability reply arrives in two segments. *)
Definition smtp_split_reply : Conn :=
  server [str "220 mail.example.com ESMTP" ++ CRLF;
          str "250-mail.example.com" ++ CRLF;
          str "250 STARTTLS" ++ CRLF;
          str "220 ready for TLS" ++ CRLF] Silent.

(** A server that talks before it greets. *)
Definition chatty_ftp : Conn :=
  server [str "hello" ++ CRLF ++ str "220 ftp ready" ++ CRLF ++ str "x"] AtEOF.

(** ** Further notions for the properties of the drivers *)

(** The text a driver wraps a failure of its greeting step with. *)
Definition greeting_step_name (d : line_driver) : list byte :=
  match d with
  | SMTP => str "smtp: greeting failed: "
  | IMAP => str "imap: greeting failed: "
  | POP3 => str "pop3: greeting failed: "
  | FTP => str "ftp: greeting failed: "
  end.

(** Two readers with the same stream ahead of them, whatever the segments
    it arrives in, on scripts that are never cancelled. *)
Definition same_stream (rw1 rw2 : ReadWriter) : Prop :=
  never_cancelled rw1 /\ never_cancelled rw2
  /\ inbound rw1 = inbound rw2
  /\ closing (conn rw1) = closing (conn rw2).

(** Two writers in the same state on connections whose outgoing sides are
    in the same state. *)
Definition same_writer (rw1 rw2 : ReadWriter) : Prop :=
  wbuf rw1 = wbuf rw2 /\ werr rw1 = werr rw2
  /\ sent (conn rw1) = sent (conn rw2)
  /\ wfail (conn rw1) = wfail (conn rw2).

(** The same for two connections before they are wrapped. *)
Definition same_traffic (c1 c2 : Conn) : Prop :=
  from_done (incoming c1) = [] /\ from_done (incoming c2) = []
  /\ script_data (incoming c1) = script_data (incoming c2)
  /\ closing c1 = closing c2
  /\ sent c1 = sent c2 /\ wfail c1 = wfail c2.

(** The reader and writer once the connection has taken only [n] bytes of
    the flushed [s] and has failed with [msg]. *)
Definition after_refusal (s : list byte) (n : nat) (msg : list byte)
    (rw : ReadWriter) : ReadWriter :=
  mkRW (rbuf rw) (drop n s) (Some (net_Error msg))
    (mkConn (incoming (conn rw)) (closing (conn rw))
       (sent (conn rw) ++ take n s) (Some (0, msg))).

(** A writer with nothing pending and no error. *)
Definition fresh_writer (rw : ReadWriter) : Prop :=
  wbuf rw = [] /\ werr rw = None.

(** The bytes of [smtp_split_reply], with the capability reply in one
    segment. *)
Definition smtp_joined_reply : Conn :=
  server [str "220 mail.example.com ESMTP" ++ CRLF;
          str "250-mail.example.com" ++ CRLF ++ str "250 STARTTLS" ++ CRLF;
          str "220 ready for TLS" ++ CRLF] Silent.

(** The ports of the drivers that read line by line and nothing else. *)
Definition plainLinePorts : list string := ["21"; "110"; "143"].

(** Is [ctx.Done()] closed before anything more arrives? *)
Definition token_fired (evs : list event) : bool :=
  match evs with
  | Done _ :: _ => true
  | _ => false
  end.

(** The failures of the transport and of the context: what a read or a
    write of the connection, or the cancellation token, reports. *)
Definition transport_failure (e : error) : Prop :=
  (exists why, e = ctx_Err why) \/ e = io_EOF \/ (exists msg, e = net_Error msg).

Definition ehlo_step_name : list byte := str "smtp: EHLO failed: ".

(** The capability step of a driver: SMTP alone has one. *)
Definition capability_step (d : line_driver) : M unit :=
  match d with
  | SMTP => wrapping ehlo_step_name (sendEHLO newSMTPProtocol)
  | _ => ret tt
  end.

(** What a driver sends in a run that succeeds. *)
Definition commands_of (d : line_driver) : list byte :=
  match d with
  | SMTP => ehlo_command ++ upgrade_command SMTP
  | _ => upgrade_command d
  end.

(** What the capability step sends. *)
Definition capability_command (d : line_driver) : list byte :=
  match d with
  | SMTP => ehlo_command
  | _ => []
  end.

(** The capability lines a run of the driver reads: at least one line for
    SMTP, each starting with "250"; none for the other drivers. *)
Definition capability_lines (d : line_driver) (replies : list (list byte)) : Prop :=
  match d with
  | SMTP =>
      replies <> []
      /\ Forall (fun l => strings_HasPrefix l (str "250") = true) replies
  | _ => replies = []
  end.

(** A run of a driver that has succeeded: what it has read and sent. *)
Definition negotiated (d : line_driver) (rw0 rw' : ReadWriter) : Prop :=
  exists skipped greeting replies reply,
    Forall (fun l => strings_HasPrefix l (greeting_prefix d) = false) skipped
    /\ strings_HasPrefix greeting (greeting_prefix d) = true
    /\ capability_lines d replies
    /\ strings_HasPrefix reply (success_prefix d) = true
    /\ inbound rw0
       = concat skipped ++ greeting ++ concat replies ++ reply ++ inbound rw'
    /\ sent (conn rw') = sent (conn rw0) ++ commands_of d.

(** A failure of a driver: one cause under the name of one step. *)
Definition step_failure (d : line_driver) (rw0 rw' : ReadWriter) (e : error) : Prop :=
  exists step cause,
    e = fmt_Errorf_w step cause []
    /\ ((step = greeting_step_name d /\ transport_failure cause
         /\ sent (conn rw') = sent (conn rw0))
        \/ (d = SMTP /\ step = ehlo_step_name
            /\ (transport_failure cause
                \/ exists line, strings_HasPrefix line (str "250") = false
                                /\ cause = unexpected_EHLO line))
        \/ (step = upgrade_step_name d
            /\ (transport_failure cause
                \/ exists reply,
                     strings_HasPrefix reply (success_prefix d) = false
                     /\ cause = rejected reply))).

(** A run of the MySQL driver that has succeeded: the packet it has read
    and what it has sent. *)
Definition mysql_negotiated (c c' : Conn) : Prop :=
  exists body capabilities,
    read_packet (script_data (incoming c)) (closing c) = Ret body
    /\ parseHandshakePacket body = Ret capabilities
    /\ Z.land capabilities 0x800 <> 0%Z
    /\ accepts c 36
    /\ sent c' = sent c ++ createSSLRequestPacket.

(** The failures of the MySQL driver, step by step. *)
Definition mysql_failure (c c' : Conn) (e : error) : Prop :=
  (read_packet (script_data (incoming c)) (closing c) = Fail e
   /\ sent c' = sent c)
  \/ (exists body,
        read_packet (script_data (incoming c)) (closing c) = Ret body
        /\ parseHandshakePacket body = Fail e
        /\ is_protocol_error e = false
        /\ sent c' = sent c)
  \/ (exists body capabilities,
        read_packet (script_data (incoming c)) (closing c) = Ret body
        /\ parseHandshakePacket body = Ret capabilities
        /\ Z.land capabilities 0x800 = 0%Z
        /\ e = fmt_Errorf_w [] ErrStartTLSNotSupported
                 (str ": MySQL server does not support SSL")
        /\ sent c' = sent c)
  \/ (exists body capabilities n msg,
        read_packet (script_data (incoming c)) (closing c) = Ret body
        /\ parseHandshakePacket body = Ret capabilities
        /\ Z.land capabilities 0x800 <> 0%Z
        /\ wfail c = Some (n, msg) /\ n < 36
        /\ e = fmt_Errorf_w (str "mysql: failed to flush SSL request: ")
                 (net_Error msg) []
        /\ sent c' = sent c ++ take n createSSLRequestPacket).

(** The ports the registry gives to a line-oriented driver. *)
Definition ports_of (d : line_driver) : list string :=
  match d with
  | SMTP => ["25"; "587"]
  | IMAP => ["143"]
  | POP3 => ["110"]
  | FTP => ["21"]
  end.

(** A line-oriented driver run on the connection wrapped in buffered
    access. *)
Definition run_driver (d : line_driver) (c : Conn) : result unit * Conn :=
  let '(r, rw) := driver_Handshake d (bufio_NewReadWriter c) in (r, conn rw).

(** The sentinel errors [errors.Is] finds in an error. *)
Definition sentinels_in (e : error) : list error :=
  filter (fun s => errors_Is e s = true)
    [ErrStartTLSNotSupported; ErrInvalidResponse; ErrUnsupportedProtocol].

(** * Properties *)

(** ** Bytes *)

Lemma byte_to_Z_range b : (0 <= byte_to_Z b < 256)%Z.
Proof.
  unfold byte_to_Z. pose proof (Byte.to_N_bounded b). lia.
Qed.

Lemma byte_to_Z_inj a b : byte_to_Z a = byte_to_Z b -> a = b.
Proof.
  unfold byte_to_Z. intros H. apply N2Z.inj in H.
  pose proof (Byte.of_to_N a) as Ha. pose proof (Byte.of_to_N b) as Hb.
  rewrite H in Ha. congruence.
Qed.

Lemma byte_is_null b : Z.eqb (byte_to_Z b) 0 = Byte.eqb b x00.
Proof.
  destruct (Byte.eqb b x00) eqn:E.
  - apply Byte.byte_dec_bl in E. subst. reflexivity.
  - apply Z.eqb_neq. intros H. apply Byte.eqb_false in E. apply E.
    apply byte_to_Z_inj. exact H.
Qed.

(** A value below [2 ^ n] and a multiple of [2 ^ n] share no bit: their
    bitwise or is their sum. *)
Lemma lor_shifted (a b n : Z) :
  (0 <= n)%Z -> (0 <= a < 2 ^ n)%Z -> Z.lor a (b * 2 ^ n) = (a + b * 2 ^ n)%Z.
Proof.
  intros Hn Ha.
  assert (Hdisj : Z.land a (b * 2 ^ n) = 0%Z).
  { apply Z.bits_inj'. intros i Hi. rewrite Z.land_spec, Z.bits_0.
    destruct (Z.lt_ge_cases i n) as [Hlt | Hge].
    - rewrite Z.mul_pow2_bits_low by lia. apply andb_false_r.
    - destruct (Z.eq_dec a 0%Z) as [-> | Hnz]; [rewrite Z.bits_0; reflexivity |].
      rewrite (Z.bits_above_log2 a i); [reflexivity | lia |].
      apply Z.lt_le_trans with n; [| lia].
      apply Z.log2_lt_pow2; lia. }
  rewrite <- Z.lxor_lor by exact Hdisj.
  rewrite <- Z.add_nocarry_lxor by exact Hdisj. reflexivity.
Qed.

(** The two bytes of a little-endian 16-bit value: the bitwise expression
    of the source is their weighted sum. *)
Lemma little_endian_16 lo hi :
  Z.lor (uint32 (byte_to_Z lo)) (uint32 (Z.shiftl (uint32 (byte_to_Z hi)) 8))
  = (byte_to_Z lo + 256 * byte_to_Z hi)%Z.
Proof.
  pose proof (byte_to_Z_range lo) as Hlo. pose proof (byte_to_Z_range hi) as Hhi.
  unfold uint32. rewrite (Z.mod_small (byte_to_Z lo)) by lia.
  rewrite (Z.mod_small (byte_to_Z hi)) by lia.
  rewrite Z.shiftl_mul_pow2 by lia.
  rewrite Z.mod_small by lia.
  rewrite lor_shifted by lia. lia.
Qed.

(** The same for the three length bytes of a packet header. *)
Lemma little_endian_24_bits h0 h1 h2 :
  Z.to_nat (Z.lor (Z.lor (uint32 (byte_to_Z h0))
                         (uint32 (Z.shiftl (uint32 (byte_to_Z h1)) 8)))
                  (uint32 (Z.shiftl (uint32 (byte_to_Z h2)) 16)))
  = little_endian_24 h0 h1 h2.
Proof.
  rewrite little_endian_16. unfold little_endian_24. f_equal.
  pose proof (byte_to_Z_range h0). pose proof (byte_to_Z_range h1).
  pose proof (byte_to_Z_range h2) as Hh2.
  unfold uint32. rewrite (Z.mod_small (byte_to_Z h2)) by lia.
  rewrite Z.shiftl_mul_pow2 by lia.
  rewrite Z.mod_small by lia.
  rewrite lor_shifted by lia. lia.
Qed.

(** ** [parseHandshakePacket] *)

Lemma skip_to_null_spec fuel body pos :
  length body - pos <= fuel ->
  skip_to_null fuel body pos = pos + cstring_len (drop pos body).
Proof.
  revert pos. induction fuel as [| fuel IH]; intros pos Hfuel; simpl.
  - rewrite drop_ge by lia. simpl. lia.
  - destruct (body !! pos) as [b |] eqn:Hb.
    + rewrite (drop_S _ _ _ Hb). simpl. rewrite byte_is_null.
      destruct (Byte.eqb b x00); [lia |].
      rewrite IH by lia. lia.
    + apply lookup_ge_None in Hb. rewrite drop_ge by lia. simpl. lia.
Qed.

Lemma parseHandshakePacket_offset rest :
  let body := x0a :: rest in
  parseHandshakePacket body =
  let pos := capability_offset body in
  if length body <? pos + 2 then
    Fail (fmt_Errorf (str "mysql: packet too short for capability flags"))
  else
    (lo <-- index body pos ;;
     hi <-- index body (pos + 1) ;;
     Ret (Z.lor (uint32 (byte_to_Z lo))
                (uint32 (Z.shiftl (uint32 (byte_to_Z hi)) 8))))%result.
Proof.
  intros body. unfold parseHandshakePacket, capability_offset.
  change (length body =? 0) with false. cbn beta iota.
  change (index body 0) with (Ret x0a). cbn [result_bind].
  change (negb (Z.eqb (byte_to_Z x0a) mysqlProtocolVersion)) with false.
  cbn beta iota zeta.
  rewrite (skip_to_null_spec (length body) body 1) by lia.
  rewrite (skip_to_null_spec (length body) body) by lia.
  replace (1 + cstring_len (drop 1 body) + 1 + 4 + 8
           + cstring_len (drop (1 + cstring_len (drop 1 body) + 1 + 4 + 8) body) + 1 + 1)
    with (1 + cstring_len (drop 1 body) + 1 + 4 + 8
          + cstring_len (drop (1 + cstring_len (drop 1 body) + 1 + 4 + 8) body) + 2)
    by lia.
  reflexivity.
Qed.

(** The version check on a body that is not empty. *)
Lemma parseHandshakePacket_version b rest :
  b <> x0a ->
  parseHandshakePacket (b :: rest)
  = Fail (fmt_Errorf (str "mysql: unsupported protocol version: " ++ fmt_d b)).
Proof.
  intros Hb. unfold parseHandshakePacket.
  change (length (b :: rest) =? 0) with false. cbn beta iota.
  change (index (b :: rest) 0) with (Ret b). cbn [result_bind].
  replace (Z.eqb (byte_to_Z b) mysqlProtocolVersion) with false; [reflexivity |].
  symmetry. apply Z.eqb_neq. intros H. apply Hb.
  apply byte_to_Z_inj. exact H.
Qed.

(** C4: on a body whose first byte is the version tag 10,
    [parseHandshakePacket] is the layout of the specification: the offset of
    the capability flags is found by skipping the null-terminated version
    string, 4 + 8 bytes, a second null-terminated field and 2 more bytes;
    with two bytes left at that offset their little-endian value is
    returned, otherwise the "packet too short" error. *)
Theorem parseHandshakePacket_layout (body : list byte) :
  body !! 0 = Some x0a ->
  parseHandshakePacket body = capability_flags body.
Proof.
  intros Htag. destruct body as [| b rest]; [discriminate |].
  simpl in Htag. injection Htag as ->.
  rewrite parseHandshakePacket_offset. cbv zeta.
  unfold capability_flags.
  set (body := x0a :: rest). set (pos := capability_offset body).
  destruct (length body <? pos + 2) eqn:Hlen.
  - apply Nat.ltb_lt in Hlen.
    assert (Hshort : length (drop pos body) < 2) by (rewrite length_drop; lia).
    destruct (drop pos body) as [| lo [| hi tl]]; simpl in Hshort; try lia;
      reflexivity.
  - apply Nat.ltb_ge in Hlen.
    destruct (lookup_lt_is_Some_2 body pos) as [lo Hlo]; [lia |].
    destruct (lookup_lt_is_Some_2 body (pos + 1)) as [hi Hhi]; [lia |].
    unfold index. rewrite Hlo, Hhi. cbn [result_bind].
    rewrite (drop_S _ _ _ Hlo).
    replace (S pos) with (pos + 1) by lia.
    rewrite (drop_S _ _ _ Hhi).
    rewrite little_endian_16. reflexivity.
Qed.

Lemma parseHandshakePacket_layout_witness :
  parseHandshakePacket (drop 4 (mysql_greeting x08)) = Ret 0x800%Z.
Proof.
  rewrite (parseHandshakePacket_layout (drop 4 (mysql_greeting x08)));
    reflexivity.
Defined.

(** C3: the version check indexes the body for the error text after it
    has found the body empty.  A packet with length 0 makes the parser, and
    with it the whole negotiation on port 3306, panic instead of returning
    the "unsupported protocol version" error. *)
Theorem parseHandshakePacket_empty_body_panics :
  parseHandshakePacket [] = Panic
  /\ fst (StartTLS (server [[x00; x00; x00; x00]] Silent) "3306") = Panic.
Proof. split; vm_compute; reflexivity. Qed.

(** ** [StartTLS] *)

Lemma protocols_other port :
  port ∉ startTLSPorts -> protocols !! port = None.
Proof.
  unfold startTLSPorts, protocols. intros Hport.
  rewrite !not_elem_of_cons in Hport.
  destruct Hport as (? & ? & ? & ? & ? & ? & _).
  rewrite !lookup_insert_ne by congruence. apply lookup_empty.
Qed.

Lemma directTLSPorts_unregistered port :
  port ∈ directTLSPorts -> protocols !! port = None.
Proof.
  unfold directTLSPorts. rewrite !elem_of_cons, elem_of_nil.
  intros [-> | [-> | [-> | [-> | [-> | []]]]]]; vm_compute; reflexivity.
Qed.

(** C1: [StartTLS] runs the FTP, SMTP, SMTP, POP3, IMAP and MySQL driver
    on ports 21, 25, 587, 110, 143 and 3306 and returns its result; on the
    ports 443, 465, 993, 995 and 3389 it returns success and leaves the
    connection untouched (nothing read, nothing written); on every other
    port it returns the unsupported-protocol error with the port in its
    text, the connection untouched as well. *)
Theorem StartTLS_dispatch (c : Conn) :
  StartTLS c "21" = negotiate_with newFTPProtocol c
  /\ StartTLS c "25" = negotiate_with newSMTPProtocol c
  /\ StartTLS c "587" = negotiate_with newSMTPProtocol c
  /\ StartTLS c "110" = negotiate_with newPOP3Protocol c
  /\ StartTLS c "143" = negotiate_with newIMAPProtocol c
  /\ StartTLS c "3306" = negotiate_with newMySQLProtocol c
  /\ (forall port, port ∈ directTLSPorts -> StartTLS c port = (Ret tt, c))
  /\ (forall port, port ∉ startTLSPorts -> port ∉ directTLSPorts ->
        StartTLS c port
        = (Fail (fmt_Errorf_w [] ErrUnsupportedProtocol (str ": port " ++ str port)), c)).
Proof.
  repeat split; try reflexivity.
  - intros port Hport. unfold StartTLS.
    rewrite (directTLSPorts_unregistered port Hport).
    rewrite bool_decide_eq_true_2 by exact Hport. reflexivity.
  - intros port Hnot Hdirect. unfold StartTLS.
    rewrite (protocols_other port Hnot).
    rewrite bool_decide_eq_false_2 by exact Hdirect. reflexivity.
Qed.

(** ** The script of the connection *)

Lemma script_data_app evs1 evs2 :
  script_data (evs1 ++ evs2) = script_data evs1 ++ script_data evs2.
Proof.
  induction evs1 as [| [b bs | why] evs1 IH]; simpl; [reflexivity | | exact IH].
  rewrite IH, <- app_assoc. reflexivity.
Qed.

Lemma script_data_recv bs : script_data (recv bs) = bs.
Proof. destruct bs; simpl; [reflexivity |]. rewrite app_nil_r. reflexivity. Qed.

Lemma script_bytes_recv bs evs :
  script_bytes (recv bs ++ evs) = length bs + script_bytes evs.
Proof. destruct bs; reflexivity. Qed.

Lemma before_done_recv bs evs :
  before_done (recv bs ++ evs) = bs ++ before_done evs.
Proof. destruct bs; reflexivity. Qed.

Lemma from_done_recv bs evs : from_done (recv bs ++ evs) = from_done evs.
Proof. destruct bs; reflexivity. Qed.

Lemma length_recv bs : length (recv bs) <= 1.
Proof. destruct bs; simpl; lia. Qed.

Lemma script_data_split evs :
  script_data evs = before_done evs ++ script_data (from_done evs).
Proof.
  induction evs as [| [b bs | why] evs IH]; simpl; [reflexivity | | reflexivity].
  rewrite IH, <- app_assoc. reflexivity.
Qed.

Lemma script_bytes_split evs :
  script_bytes evs = length (before_done evs) + script_bytes (from_done evs).
Proof.
  induction evs as [| [b bs | why] evs IH]; simpl; [reflexivity | | reflexivity].
  rewrite IH, length_app. lia.
Qed.

Lemma reads_only_refl rw : reads_only rw rw.
Proof. repeat split. Qed.

Lemma reads_only_trans rw1 rw2 rw3 :
  reads_only rw1 rw2 -> reads_only rw2 rw3 -> reads_only rw1 rw3.
Proof.
  unfold reads_only. intros (? & ? & ? & ? & ?) (? & ? & ? & ? & ?).
  repeat split; congruence.
Qed.

#[local] Hint Resolve reads_only_refl : core.

(** ** [bufio_Read] and [io_ReadFull] *)

Lemma defaultBufSize_pos : 0 < defaultBufSize.
Proof. unfold defaultBufSize. lia. Qed.

Lemma defaultBufSize_large : 36 <= defaultBufSize.
Proof. unfold defaultBufSize. lia. Qed.

#[local] Opaque defaultBufSize.

Lemma take_nonempty (n : nat) (b : byte) (bs : list byte) :
  0 < n -> 0 < length (take n (b :: bs)) <= n.
Proof. intros Hn. rewrite length_take. simpl. lia. Qed.

(** A read that returns bytes returns at least one and at most [n] of
    them, the head of the stream. *)
Lemma bufio_Read_Got n rw bs rw' :
  0 < n ->
  bufio_Read n rw = (Got bs, rw') ->
  0 < length bs <= n
  /\ inbound rw = bs ++ inbound rw'
  /\ length (incoming (conn rw')) <= length (incoming (conn rw))
  /\ reads_only rw rw'.
Proof.
  intros Hn. unfold bufio_Read, inbound.
  destruct (n =? 0) eqn:Hz; [apply Nat.eqb_eq in Hz; lia |].
  destruct rw as [rb wb we [evs cl snt wf]]; cbn [rbuf conn incoming].
  destruct rb as [| x rb].
  - unfold conn_Read; cbn [incoming closing sent wfail].
    destruct evs as [| [b cs | why] evs].
    + destruct (defaultBufSize <=? n); destruct cl; intros [=].
    + pose proof defaultBufSize_pos as Hpos.
      destruct (defaultBufSize <=? n) eqn:Hbig; intros [= <- <-];
        unfold set_conn; cbn [rbuf wbuf werr conn incoming closing sent wfail app].
      * split; [apply take_nonempty; lia |].
        split; [| split; [rewrite length_app; pose proof (length_recv (drop n (b :: cs))); simpl; lia | repeat split]].
        rewrite script_data_app, script_data_recv.
        rewrite (app_assoc (take n (b :: cs))), take_drop. simpl.
        rewrite <- ?app_assoc. reflexivity.
      * apply Nat.leb_gt in Hbig.
        split.
        { rewrite length_take.
          pose proof (take_nonempty defaultBufSize b cs Hpos). lia. }
        split; [| split; [rewrite length_app; pose proof (length_recv (drop defaultBufSize (b :: cs))); simpl; lia | repeat split]].
        rewrite script_data_app, script_data_recv.
        rewrite (app_assoc (take n _)), take_drop.
        rewrite (app_assoc (take defaultBufSize _)), take_drop. simpl.
        rewrite <- ?app_assoc. reflexivity.
    + destruct (defaultBufSize <=? n); intros [=].
  - intros [= <- <-].
    unfold set_rbuf; cbn [rbuf wbuf werr conn incoming closing sent wfail].
    split; [apply take_nonempty; lia |].
    split; [| split; [lia | repeat split]].
    rewrite (app_assoc (take n (x :: rb))), take_drop. reflexivity.
Qed.

(** A read that returns no bytes has found the buffer empty and has left
    everything as it was. *)
Lemma bufio_Read_stop n rw (w : wait (list byte)) rw' :
  0 < n ->
  bufio_Read n rw = (w, rw') ->
  (forall bs, w <> Got bs) ->
  rw' = rw /\ rbuf rw = []
  /\ match incoming (conn rw) with
     | [] => w = at_end (closing (conn rw))
     | Done why :: _ => w = Pending (Some why)
     | Recv _ _ :: _ => False
     end.
Proof.
  intros Hn. unfold bufio_Read.
  destruct (n =? 0) eqn:Hz; [apply Nat.eqb_eq in Hz; lia |].
  destruct rw as [rb wb we [evs cl snt wf]]; cbn [rbuf conn incoming closing].
  destruct rb as [| x rb].
  - unfold conn_Read; cbn [incoming closing sent wfail].
    destruct evs as [| [b cs | why] evs].
    + destruct (defaultBufSize <=? n); destruct cl; intros [= <- <-] _;
        repeat split.
    + destruct (defaultBufSize <=? n); intros [= <- <-] Hw;
        exfalso; eapply Hw; reflexivity.
    + destruct (defaultBufSize <=? n); intros [= <- <-] _; repeat split.
  - intros [= <- <-] Hw. exfalso. eapply Hw. reflexivity.
Qed.

Lemma inbound_skip_done rw : inbound (skip_done rw) = inbound rw.
Proof.
  unfold skip_done, inbound.
  destruct rw as [rb wb we [[| [b cs | why] evs] cl snt wf]]; reflexivity.
Qed.

Lemma reads_only_skip_done rw : reads_only rw (skip_done rw).
Proof.
  unfold skip_done.
  destruct rw as [rb wb we [[| [b cs | why] evs] cl snt wf]]; repeat split.
Qed.

Lemma ReadFull_loop_spec fuel : forall need buf rw,
  need + length (incoming (conn rw)) <= fuel ->
  exists rw',
    ReadFull_loop fuel need buf rw
    = (ReadFull_outcome need buf (inbound rw) (closing (conn rw)), rw')
    /\ reads_only rw rw'
    /\ (need <= length (inbound rw) -> inbound rw' = drop need (inbound rw)).
Proof.
  induction fuel as [| fuel IH]; intros need buf rw Hfuel.
  - assert (need = 0) as -> by lia. simpl. exists rw.
    unfold ReadFull_outcome. simpl. rewrite app_nil_r. auto.
  - destruct need as [| need'].
    { simpl. exists rw. unfold ReadFull_outcome. simpl.
      rewrite app_nil_r. auto. }
    set (need := S need') in *.
    cbn [ReadFull_loop]. change (need =? 0) with false. cbn iota.
    destruct (bufio_Read need rw) as [w rw1] eqn:Hread.
    destruct w as [bs | e | d].
    + apply bufio_Read_Got in Hread; [| lia].
      destruct Hread as (Hlen & Hin & Hevs & Hro).
      destruct (IH (need - length bs) (buf ++ bs) rw1) as (rw' & Hloop & Hro' & Hrest);
        [lia |].
      exists rw'. rewrite Hloop.
      destruct Hro as (? & ? & Hcl & ? & ?).
      split; [| split].
      * f_equal. unfold ReadFull_outcome. rewrite Hin, Hcl, !length_app.
        destruct (need <=? length bs + length (inbound rw1)) eqn:Hle.
        -- apply Nat.leb_le in Hle.
           rewrite (proj2 (Nat.leb_le _ _)) by lia.
           rewrite take_app, (take_ge bs) by lia.
           rewrite <- app_assoc. reflexivity.
        -- apply Nat.leb_gt in Hle.
           rewrite (proj2 (Nat.leb_gt _ _)) by lia.
           destruct (closing (conn rw)); try reflexivity.
           replace (0 <? length buf + length bs + length (inbound rw1)) with true
             by (symmetry; apply Nat.ltb_lt; lia).
           replace (0 <? length buf + (length bs + length (inbound rw1))) with true
             by (symmetry; apply Nat.ltb_lt; lia).
           reflexivity.
      * eapply reads_only_trans; [| exact Hro']. repeat split; assumption.
      * intros Hle. rewrite Hin in Hle |- *. rewrite length_app in Hle.
        rewrite Hrest by lia.
        rewrite drop_app, (drop_ge bs) by lia. reflexivity.
    + apply bufio_Read_stop in Hread; [| lia | discriminate].
      destruct Hread as (-> & Hrb & Hevs).
      exists rw. split; [| split; [auto |]].
      * unfold ReadFull_outcome, inbound. rewrite Hrb.
        destruct (incoming (conn rw)) as [| [b cs | why] evs];
          [| destruct Hevs | discriminate].
        simpl. unfold at_end in Hevs.
        destruct (closing (conn rw)); inversion Hevs; subst; simpl.
        -- rewrite Nat.add_0_r, andb_true_r. reflexivity.
        -- rewrite andb_false_r. reflexivity.
      * unfold inbound. rewrite Hrb.
        destruct (incoming (conn rw)) as [| [b cs | why] evs];
          [| destruct Hevs | discriminate].
        simpl. lia.
    + apply bufio_Read_stop in Hread; [| lia | discriminate].
      destruct Hread as (-> & Hrb & Hevs).
      destruct (incoming (conn rw)) as [| [b cs | why] evs] eqn:Hscript;
        [| destruct Hevs |].
      * unfold at_end in Hevs.
        destruct (closing (conn rw)) eqn:Hcl; inversion Hevs; subst.
        exists rw. split; [| split; [auto |]].
        -- unfold ReadFull_outcome, inbound. rewrite Hrb, Hscript.
           reflexivity.
        -- unfold inbound. rewrite Hrb, Hscript. simpl. lia.
      * inversion Hevs; subst.
        destruct (IH need buf (skip_done rw)) as (rw' & Hloop & Hro' & Hrest).
        { unfold skip_done. rewrite Hscript. simpl. simpl in Hfuel. lia. }
        exists rw'. rewrite Hloop, inbound_skip_done.
        split; [| split].
        -- f_equal. f_equal.
           destruct (reads_only_skip_done rw) as (_ & _ & Hcl & _). exact Hcl.
        -- eapply reads_only_trans; [apply reads_only_skip_done | exact Hro'].
        -- rewrite inbound_skip_done in Hrest. exact Hrest.
Qed.

Lemma ReadFull_outcome_nil need data close :
  ReadFull_outcome need [] data close = read_exactly need data close.
Proof.
  unfold ReadFull_outcome, read_exactly. simpl.
  destruct (need <=? length data); [reflexivity |].
  destruct close; try reflexivity.
  destruct (length data); reflexivity.
Qed.

(** [io.ReadFull] returns the first [n] bytes of the stream and leaves the
    rest, or the I/O error of a stream that ends too early. *)
Lemma io_ReadFull_spec n rw :
  exists rw',
    io_ReadFull n rw = (read_exactly n (inbound rw) (closing (conn rw)), rw')
    /\ reads_only rw rw'
    /\ (n <= length (inbound rw) -> inbound rw' = drop n (inbound rw)).
Proof.
  unfold io_ReadFull.
  destruct (ReadFull_loop_spec (n + length (incoming (conn rw))) n [] rw)
    as (rw' & Hloop & Hro & Hrest); [lia |].
  exists rw'. rewrite Hloop, ReadFull_outcome_nil. auto.
Qed.

(** ** [readMySQLPacket] *)

Lemma read_exactly_Ret n data close bs :
  read_exactly n data close = Ret bs -> n <= length data /\ bs = take n data.
Proof.
  unfold read_exactly. destruct (n <=? length data) eqn:Hle.
  - apply Nat.leb_le in Hle. intros [= <-]. auto.
  - destruct close; discriminate.
Qed.

Lemma read_exactly_Fail n data close e :
  read_exactly n data close = Fail e ->
  length data < n /\ is_io_error e = true /\ is_protocol_error e = false.
Proof.
  unfold read_exactly. destruct (n <=? length data) eqn:Hle; [discriminate |].
  apply Nat.leb_gt in Hle.
  destruct close; [| | discriminate]; intros [= <-]; split; try exact Hle.
  - destruct (length data =? 0); split; reflexivity.
  - split; reflexivity.
Qed.

Lemma wrapped_io_error pre e :
  is_io_error e = true -> is_protocol_error e = false ->
  is_io_error (fmt_Errorf_w pre e []) = true
  /\ is_protocol_error (fmt_Errorf_w pre e []) = false.
Proof.
  intros Hio Hproto. split; [exact Hio |].
  unfold is_protocol_error in *. simpl. exact Hproto.
Qed.

(** The packet reader against the packet of the specification. *)
Lemma readMySQLPacket_spec (p : mysqlProtocol) (rw : ReadWriter) :
  exists rw',
    readMySQLPacket p rw = (read_packet (inbound rw) (closing (conn rw)), rw')
    /\ reads_only rw rw'
    /\ (forall body,
          read_packet (inbound rw) (closing (conn rw)) = Ret body ->
          exists h0 h1 h2 h3,
            inbound rw = [h0; h1; h2; h3] ++ body ++ inbound rw'
            /\ length body = little_endian_24 h0 h1 h2)
    /\ (forall e,
          read_packet (inbound rw) (closing (conn rw)) = Fail e ->
          is_io_error e = true /\ is_protocol_error e = false).
Proof.
  unfold readMySQLPacket, bind, wrapping, lift, ret, read_packet.
  destruct (io_ReadFull_spec 4 rw) as (rw1 & Hhead & Hro1 & Hrest1).
  rewrite Hhead.
  destruct (read_exactly 4 (inbound rw) (closing (conn rw))) as [header | e | |] eqn:Hh.
  - apply read_exactly_Ret in Hh. destruct Hh as (Hlen & ->).
    specialize (Hrest1 Hlen).
    destruct (inbound rw) as [| h0 [| h1 [| h2 [| h3 data]]]] eqn:Hdata;
      simpl in Hlen; try lia.
    cbn [take index lookup list_lookup]. simpl in Hrest1.
    rewrite drop_0 in Hrest1.
    rewrite little_endian_24_bits.
    destruct (io_ReadFull_spec (little_endian_24 h0 h1 h2) rw1)
      as (rw2 & Hbody & Hro2 & Hrest2).
    rewrite Hbody, Hrest1.
    assert (Hcl : closing (conn rw1) = closing (conn rw)) by apply Hro1.
    rewrite Hcl. cbn [drop]. rewrite ?drop_0.
    destruct (read_exactly (little_endian_24 h0 h1 h2) data (closing (conn rw)))
      as [body | e | |] eqn:Hb.
    + exists rw2. split; [reflexivity |].
      split; [eapply reads_only_trans; eassumption |].
      split; [| discriminate].
      intros body' [= <-]. exists h0, h1, h2, h3.
      apply read_exactly_Ret in Hb. destruct Hb as (Hlen2 & ->).
      rewrite Hrest1 in Hrest2. rewrite (Hrest2 Hlen2).
      simpl. rewrite take_drop. split; [reflexivity |].
      rewrite length_take. lia.
    + exists rw2. split; [reflexivity |].
      split; [eapply reads_only_trans; eassumption |].
      split; [discriminate |].
      intros e' [= <-]. apply read_exactly_Fail in Hb.
      apply wrapped_io_error; apply Hb.
    + exists rw2. split; [reflexivity |].
      split; [eapply reads_only_trans; eassumption |].
      split; discriminate.
    + exists rw2. split; [reflexivity |].
      split; [eapply reads_only_trans; eassumption |].
      split; discriminate.
  - exists rw1. split; [reflexivity |]. split; [exact Hro1 |].
    split; [discriminate |].
    intros e' [= <-]. apply read_exactly_Fail in Hh.
    apply wrapped_io_error; apply Hh.
  - exists rw1. split; [reflexivity |]. split; [exact Hro1 |].
    split; discriminate.
  - exists rw1. split; [reflexivity |]. split; [exact Hro1 |].
    split; discriminate.
Qed.

(** C5: [readMySQLPacket] reads exactly four header bytes, takes the
    packet length from the first three (24 bits, little-endian), reads
    exactly that many bytes more and returns them; when the stream ends or
    fails before one of the two reads is complete, the result is the I/O
    error, wrapped as a failure to read the header or the body, and never
    one of the protocol errors of the package. *)
Theorem readMySQLPacket_reads_one_packet (p : mysqlProtocol) (rw : ReadWriter) :
  exists rw',
    readMySQLPacket p rw = (read_packet (inbound rw) (closing (conn rw)), rw')
    /\ reads_only rw rw'
    /\ (forall body,
          read_packet (inbound rw) (closing (conn rw)) = Ret body ->
          exists h0 h1 h2 h3,
            inbound rw = [h0; h1; h2; h3] ++ body ++ inbound rw'
            /\ length body = little_endian_24 h0 h1 h2)
    /\ (forall e,
          read_packet (inbound rw) (closing (conn rw)) = Fail e ->
          is_io_error e = true /\ is_protocol_error e = false).
Proof. apply readMySQLPacket_spec. Qed.

Lemma readMySQLPacket_reads_one_packet_witness :
  exists rw',
    readMySQLPacket newMySQLProtocol
      (bufio_NewReadWriter (server [[x03; x00; x00; x00; x0a; x0b]; [x0c; x0d]] AtEOF))
    = (Ret [x0a; x0b; x0c], rw')
    /\ inbound rw' = [x0d].
Proof.
  destruct (readMySQLPacket_reads_one_packet newMySQLProtocol
              (bufio_NewReadWriter
                 (server [[x03; x00; x00; x00; x0a; x0b]; [x0c; x0d]] AtEOF)))
    as (rw' & Hrun & _ & Hbody & _).
  exists rw'. split; [exact Hrun |].
  destruct (Hbody [x0a; x0b; x0c]) as (h0 & h1 & h2 & h3 & Hin & _);
    [vm_compute; reflexivity |].
  vm_compute in Hin. injection Hin as _ _ _ _ Hin. symmetry. exact Hin.
Defined.

(** ** The writer *)

Lemma createSSLRequestPacket_layout : createSSLRequestPacket = ssl_request.
Proof. vm_compute. reflexivity. Qed.

Lemma createSSLRequestPacket_length : length createSSLRequestPacket = 36.
Proof. vm_compute. reflexivity. Qed.

(** A write that fits into the free part of the buffer only fills the
    buffer. *)
Lemma bufio_WriteString_fits s rw :
  werr rw = None -> length s <= bufio_Available rw ->
  bufio_WriteString s rw
  = (Ret (length s), mkRW (rbuf rw) (wbuf rw ++ s) None (conn rw)).
Proof.
  intros Herr Hfits. unfold bufio_WriteString. cbn [WriteString_loop].
  rewrite (proj2 (Nat.ltb_ge _ _)) by exact Hfits.
  cbn [andb]. rewrite Herr. reflexivity.
Qed.

Lemma bufio_Write_fits p rw :
  werr rw = None -> length p <= bufio_Available rw ->
  bufio_Write p rw
  = (Ret (length p), mkRW (rbuf rw) (wbuf rw ++ p) None (conn rw)).
Proof.
  intros Herr Hfits. unfold bufio_Write. cbn [Write_loop].
  rewrite (proj2 (Nat.ltb_ge _ _)) by exact Hfits.
  cbn [andb]. rewrite Herr. reflexivity.
Qed.

Lemma conn_Write_accepted p c :
  accepts c (length p) -> conn_Write p c = (length p, None, conn_after_write p c).
Proof.
  unfold accepts, conn_Write, conn_after_write.
  destruct (wfail c) as [[k msg] |]; [| reflexivity].
  intros Hk. rewrite (proj2 (Nat.leb_le _ _)) by exact Hk. reflexivity.
Qed.

(** Flushing a buffer that the connection accepts puts it on the wire. *)
Lemma bufio_Flush_accepted rw :
  werr rw = None -> accepts (conn rw) (length (wbuf rw)) ->
  bufio_Flush rw
  = (Ret tt, mkRW (rbuf rw) [] None
               (match wbuf rw with
                | [] => conn rw
                | _ => conn_after_write (wbuf rw) (conn rw)
                end)).
Proof.
  intros Herr Hacc. unfold bufio_Flush. rewrite Herr.
  destruct (wbuf rw) as [| x xs] eqn:Hbuf.
  - destruct rw; simpl in *; subst; reflexivity.
  - rewrite conn_Write_accepted by exact Hacc. reflexivity.
Qed.

(** After a flush the buffer is empty or the writer has an error. *)
Lemma bufio_Flush_state rw :
  werr (snd (bufio_Flush rw)) <> None \/ wbuf (snd (bufio_Flush rw)) = [].
Proof.
  unfold bufio_Flush. destruct (werr rw) as [e |] eqn:Herr.
  - left. simpl. rewrite Herr. discriminate.
  - destruct (wbuf rw) as [| x xs] eqn:Hbuf; [right; exact Hbuf |].
    destruct (conn_Write (x :: xs) (conn rw)) as [[n [e |]] c]; simpl.
    + left. discriminate.
    + right. reflexivity.
Qed.

(** The two write loops never run out of fuel. *)
Lemma WriteString_loop_returns fuel : forall s nn rw,
  werr rw <> None \/ (wbuf rw = [] /\ length s <= fuel) \/ length s < fuel ->
  fst (WriteString_loop fuel s nn rw) <> Blocked.
Proof.
  induction fuel as [| fuel IH]; intros s nn rw Hinv; cbn [WriteString_loop].
  - destruct ((bufio_Available rw <? length s) && bool_decide (werr rw = None)) eqn:Hc.
    + apply andb_prop in Hc. destruct Hc as (Hlt & Hnone).
      apply Nat.ltb_lt in Hlt. apply bool_decide_eq_true_1 in Hnone.
      destruct Hinv as [Herr | [(_ & Hlen) | Hlen]]; [contradiction | lia | lia].
    + destruct (werr rw); discriminate.
  - destruct ((bufio_Available rw <? length s) && bool_decide (werr rw = None)) eqn:Hc.
    + apply andb_prop in Hc. destruct Hc as (Hlt & Hnone).
      apply Nat.ltb_lt in Hlt. apply bool_decide_eq_true_1 in Hnone.
      apply IH.
      destruct (bufio_Flush_state
                  (mkRW (rbuf rw) (wbuf rw ++ take (bufio_Available rw) s)
                     (werr rw) (conn rw))) as [Herr | Hbuf]; [left; exact Herr |].
      right. left. split; [exact Hbuf |].
      rewrite length_drop.
      destruct Hinv as [Herr | [(Hempty & Hlen) | Hlen]]; [contradiction | | lia].
      unfold bufio_Available in *. rewrite Hempty in *. simpl in *.
      pose proof defaultBufSize_pos. lia.
    + destruct (werr rw); discriminate.
Qed.

Lemma bufio_WriteString_returns s rw : fst (bufio_WriteString s rw) <> Blocked.
Proof.
  unfold bufio_WriteString. apply WriteString_loop_returns. right. right. lia.
Qed.

Lemma Write_loop_returns fuel : forall p nn rw,
  werr rw <> None \/ (wbuf rw = [] /\ length p <= fuel) \/ length p < fuel ->
  fst (Write_loop fuel p nn rw) <> Blocked.
Proof.
  induction fuel as [| fuel IH]; intros p nn rw Hinv; cbn [Write_loop].
  - destruct ((bufio_Available rw <? length p) && bool_decide (werr rw = None)) eqn:Hc.
    + apply andb_prop in Hc. destruct Hc as (Hlt & Hnone).
      apply Nat.ltb_lt in Hlt. apply bool_decide_eq_true_1 in Hnone.
      destruct Hinv as [Herr | [(_ & Hlen) | Hlen]]; [contradiction | lia | lia].
    + destruct (werr rw); discriminate.
  - destruct ((bufio_Available rw <? length p) && bool_decide (werr rw = None)) eqn:Hc.
    + apply andb_prop in Hc. destruct Hc as (Hlt & Hnone).
      apply Nat.ltb_lt in Hlt. apply bool_decide_eq_true_1 in Hnone.
      destruct (wbuf rw) as [| x xs] eqn:Hbuf.
      * destruct (conn_Write p (conn rw)) as [[n e] c] eqn:Hw.
        apply IH. destruct e as [e |]; [left; discriminate |].
        right. left. split; [reflexivity |].
        unfold conn_Write in Hw.
        destruct (wfail (conn rw)) as [[k msg] |];
          [destruct (length p <=? k) |]; inversion Hw; subst;
          rewrite length_drop; lia.
      * apply IH.
        destruct (bufio_Flush_state
                    (mkRW (rbuf rw) ((x :: xs) ++ take (bufio_Available rw) p)
                       (werr rw) (conn rw))) as [Herr | Hempty];
          [left; exact Herr |].
        right. left. split; [exact Hempty |].
        rewrite length_drop.
        destruct Hinv as [Herr | [(Hnil & _) | Hlen]];
          [contradiction | discriminate | lia].
    + destruct (werr rw); discriminate.
Qed.

Lemma bufio_Write_returns p rw : fst (bufio_Write p rw) <> Blocked.
Proof.
  unfold bufio_Write. apply Write_loop_returns. right. right. lia.
Qed.

(** A command written and flushed through a writer without pending bytes:
    the command is on the wire and the next step runs. *)
Lemma command_then {A} (s : list byte) (k : M A) rw :
  can_send rw (length s) -> s <> [] -> length s <= defaultBufSize ->
  bind (bufio_WriteString s) (fun _ => bind bufio_Flush (fun _ => k)) rw
  = k (after_command s rw).
Proof.
  intros (Hbuf & Herr & Hacc) Hs Hlen. unfold bind.
  rewrite bufio_WriteString_fits;
    [| exact Herr | unfold bufio_Available; rewrite Hbuf; simpl; lia].
  rewrite bufio_Flush_accepted; [| reflexivity | simpl; rewrite Hbuf; exact Hacc].
  cbn [rbuf wbuf conn]. rewrite Hbuf. simpl.
  destruct s; [contradiction | reflexivity].
Qed.

Lemma can_send_reads_only rw rw' n :
  reads_only rw rw' -> can_send rw n -> can_send rw' n.
Proof.
  unfold reads_only, can_send, accepts.
  intros (Hb & He & _ & _ & Hf) (? & ? & ?). rewrite Hb, He, Hf. auto.
Qed.

Lemma commands_fit d :
  upgrade_command d <> [] /\ length (upgrade_command d) <= defaultBufSize.
Proof.
  split; [destruct d; discriminate |].
  apply Nat.leb_le. destruct d; vm_compute; reflexivity.
Qed.

Lemma ehlo_command_fits :
  ehlo_command <> [] /\ length ehlo_command <= defaultBufSize.
Proof. split; [discriminate | apply Nat.leb_le; vm_compute; reflexivity]. Qed.

(** ** The MySQL driver *)

Lemma mysql_Handshake_after_parse rw body rw1 capabilities :
  readMySQLPacket newMySQLProtocol rw = (Ret body, rw1) ->
  parseHandshakePacket body = Ret capabilities ->
  Handshake newMySQLProtocol rw
  = (if Z.eqb (Z.land capabilities 0x800) 0 then
       fail (fmt_Errorf_w [] ErrStartTLSNotSupported
               (str ": MySQL server does not support SSL"))
     else
       (wrapping (str "mysql: failed to write SSL request: ")
          (bufio_Write createSSLRequestPacket) ;;;
        wrapping (str "mysql: failed to flush SSL request: ") bufio_Flush ;;;
        ret tt)%M) rw1.
Proof.
  intros Hread Hparse. cbn [Handshake mysql_StartTLSProtocol].
  unfold mysqlProtocol_Handshake, bind at 1. rewrite Hread.
  unfold bind at 1, lift. rewrite Hparse. reflexivity.
Qed.

(** C2: the body of the handshake packet has been read and parsed.  With
    the bit [0x800] in the capability flags, and a connection that takes the
    36 bytes, [Handshake] puts exactly one packet on the wire, the SSL
    request of the specification (header with payload length 32 and
    sequence number 1, client flags, maximal packet size 16777215, character
    set 33, zero padding), and returns success without reading anything
    more.  Without the bit it returns the not-supported error and nothing
    is written. *)
Theorem mysql_Handshake_ssl_request (c : Conn) (body : list byte)
    (rw1 : ReadWriter) (capabilities : Z) :
  readMySQLPacket newMySQLProtocol (bufio_NewReadWriter c) = (Ret body, rw1) ->
  parseHandshakePacket body = Ret capabilities ->
  (Z.land capabilities 0x800 <> 0%Z ->
   accepts c 36 ->
   exists rw2,
     Handshake newMySQLProtocol (bufio_NewReadWriter c) = (Ret tt, rw2)
     /\ sent (conn rw2) = sent c ++ ssl_request
     /\ length ssl_request = 36
     /\ wbuf rw2 = []
     /\ rbuf rw2 = rbuf rw1
     /\ incoming (conn rw2) = incoming (conn rw1))
  /\ (Z.land capabilities 0x800 = 0%Z ->
      Handshake newMySQLProtocol (bufio_NewReadWriter c)
      = (Fail (fmt_Errorf_w [] ErrStartTLSNotSupported
                 (str ": MySQL server does not support SSL")), rw1)
      /\ sent (conn rw1) = sent c /\ wbuf rw1 = []).
Proof.
  intros Hread Hparse.
  destruct (readMySQLPacket_spec newMySQLProtocol (bufio_NewReadWriter c))
    as (rw' & Hspec & Hro & _).
  rewrite Hread in Hspec. injection Hspec as _ <-.
  destruct Hro as (Hwbuf & Hwerr & _ & Hsent & Hwfail).
  simpl in Hwbuf, Hwerr, Hsent, Hwfail.
  rewrite (mysql_Handshake_after_parse _ _ _ _ Hread Hparse).
  split.
  - intros Hbit Hacc.
    rewrite (proj2 (Z.eqb_neq _ _) Hbit).
    unfold bind, wrapping, ret.
    rewrite bufio_Write_fits;
      [| exact Hwerr
       | unfold bufio_Available; rewrite Hwbuf, createSSLRequestPacket_length;
         pose proof defaultBufSize_large; simpl; lia ].
    rewrite bufio_Flush_accepted;
      [| reflexivity
       | cbn [wbuf conn]; rewrite Hwbuf; cbn [app];
         rewrite createSSLRequestPacket_length;
         unfold accepts in *; rewrite Hwfail; exact Hacc ].
    cbn [rbuf wbuf conn]. rewrite Hwbuf. cbn [app].
    eexists. split; [reflexivity |].
    rewrite createSSLRequestPacket_layout.
    cbn [conn]. unfold conn_after_write. cbn [sent incoming rbuf wbuf].
    rewrite Hsent. repeat split.
  - intros Hbit. rewrite (proj2 (Z.eqb_eq _ _) Hbit).
    unfold fail. repeat split; assumption.
Qed.

Lemma mysql_Handshake_ssl_request_witness :
  exists rw2,
    Handshake newMySQLProtocol
      (bufio_NewReadWriter (server [mysql_greeting x08] Silent)) = (Ret tt, rw2)
    /\ sent (conn rw2) = ssl_request.
Proof.
  destruct (mysql_Handshake_ssl_request
              (server [mysql_greeting x08] Silent)
              (take 49 (drop 4 (mysql_greeting x08)))
              (mkRW (drop 53 (mysql_greeting x08)) [] None (mkConn [] Silent [] None))
              0x800%Z) as [Hset _].
  - vm_compute. reflexivity.
  - vm_compute. reflexivity.
  - destruct Hset as (rw2 & Hrun & Hsent & _).
    + vm_compute. discriminate.
    + vm_compute. exact I.
    + exists rw2. split; [exact Hrun | exact Hsent].
Defined.

(** The claim without the condition on the connection: the server offers
    SSL, the packet is read and parsed, the bit is set, and [Handshake]
    fails with the error of the flush, nothing on the wire. *)
Lemma mysql_Handshake_write_failure :
  exists body rw1 capabilities,
    readMySQLPacket newMySQLProtocol (bufio_NewReadWriter mysql_broken_pipe)
    = (Ret body, rw1)
    /\ parseHandshakePacket body = Ret capabilities
    /\ Z.land capabilities 0x800 <> 0%Z
    /\ ~ (exists rw2,
            Handshake newMySQLProtocol (bufio_NewReadWriter mysql_broken_pipe)
            = (Ret tt, rw2))
    /\ fst (Handshake newMySQLProtocol (bufio_NewReadWriter mysql_broken_pipe))
       = Fail (fmt_Errorf_w (str "mysql: failed to flush SSL request: ")
                 (net_Error (str "broken pipe")) [])
    /\ sent (conn (snd (Handshake newMySQLProtocol
                          (bufio_NewReadWriter mysql_broken_pipe)))) = [].
Proof.
  exists (take 49 (drop 4 (mysql_greeting x08))),
         (mkRW (drop 53 (mysql_greeting x08)) [] None
            (mkConn [] Silent [] (Some (0, str "broken pipe")))),
         0x800%Z.
  split; [vm_compute; reflexivity |].
  split; [vm_compute; reflexivity |].
  split; [vm_compute; discriminate |].
  split; [| split; vm_compute; reflexivity].
  intros [rw2 Hrun]. vm_compute in Hrun. discriminate.
Qed.

(** ** Lines *)

Lemma line_to_Some delim data line :
  line_to delim data = Some line ->
  exists s, line = s ++ [delim] /\ (delim ∉ s) /\ data = line ++ drop (length line) data.
Proof.
  revert line. induction data as [| b data IH]; intros line; simpl; [discriminate |].
  destruct (Byte.eqb b delim) eqn:Hb.
  - apply Byte.byte_dec_bl in Hb. subst b. intros [= <-].
    exists []. simpl. rewrite drop_0. split; [reflexivity |].
    split; [apply not_elem_of_nil | reflexivity].
  - apply Byte.eqb_false in Hb.
    destruct (line_to delim data) as [l |]; [| discriminate].
    intros [= <-]. destruct (IH l eq_refl) as (s & -> & Hs & Hdata).
    exists (b :: s). split; [reflexivity |].
    split; [rewrite not_elem_of_cons; split; [congruence | exact Hs] |].
    simpl. f_equal. exact Hdata.
Qed.

Lemma line_to_None delim data : line_to delim data = None -> delim ∉ data.
Proof.
  induction data as [| b data IH]; simpl; [intros _; apply not_elem_of_nil |].
  destruct (Byte.eqb b delim) eqn:Hb; [discriminate |].
  apply Byte.eqb_false in Hb.
  destruct (line_to delim data); [discriminate |].
  intros _. rewrite not_elem_of_cons. split; [congruence | apply IH; reflexivity].
Qed.

Lemma line_to_nonempty delim data line :
  line_to delim data = Some line -> 0 < length line.
Proof.
  intros H. apply line_to_Some in H. destruct H as (s & -> & _).
  rewrite length_app. simpl. lia.
Qed.

Lemma IndexByte_None_line s delim rest :
  bytes_IndexByte s delim = None ->
  line_to delim (s ++ rest) = fmap (app s) (line_to delim rest).
Proof.
  induction s as [| b s IH]; simpl.
  - intros _. destruct (line_to delim rest); reflexivity.
  - destruct (Byte.eqb b delim); [discriminate |].
    destruct (bytes_IndexByte s delim); [discriminate |].
    intros _. rewrite IH by reflexivity.
    destruct (line_to delim rest); reflexivity.
Qed.

Lemma IndexByte_Some_line s delim i rest :
  bytes_IndexByte s delim = Some i ->
  line_to delim (s ++ rest) = Some (take (S i) s) /\ S i <= length s.
Proof.
  revert i. induction s as [| b s IH]; intros i; simpl; [discriminate |].
  destruct (Byte.eqb b delim).
  - intros [= <-]. simpl. destruct s; (split; [reflexivity | simpl; lia]).
  - destruct (bytes_IndexByte s delim) as [j |]; [| discriminate].
    intros [= <-]. destruct (IH j eq_refl) as (-> & Hlen).
    split; [reflexivity | lia].
Qed.

(** ** [bufio_ReadString] *)

Lemma ReadString_loop_spec delim fuel : forall acc rw,
  ReadString_turns rw < fuel ->
  exists w rw',
    ReadString_loop fuel delim acc rw = (w, rw')
    /\ reads_only rw rw'
    /\ from_done (incoming (conn rw')) = from_done (incoming (conn rw))
    /\ match line_to delim (readable rw) with
       | Some line => w = Got (acc ++ line) /\ readable rw = line ++ readable rw'
       | None => w = stop_of (incoming (conn rw)) (closing (conn rw))
       end.
Proof.
  induction fuel as [| fuel IH]; intros acc rw Hfuel; [lia |].
  cbn [ReadString_loop].
  destruct (bytes_IndexByte (rbuf rw) delim) as [i |] eqn:Hidx.
  - (* the delimiter is in the buffer *)
    destruct (IndexByte_Some_line _ _ _ (before_done (incoming (conn rw))) Hidx)
      as (Hline & Hlen).
    do 2 eexists. split; [reflexivity |].
    split; [repeat split |]. split; [reflexivity |].
    unfold readable at 1. rewrite Hline. split; [reflexivity |].
    unfold readable, set_rbuf. cbn [rbuf conn].
    rewrite app_assoc, take_drop. reflexivity.
  - pose proof (IndexByte_None_line _ _ (before_done (incoming (conn rw))) Hidx)
      as Hline.
    destruct (defaultBufSize <=? length (rbuf rw)) eqn:Hfull.
    + (* a full buffer without the delimiter is set aside *)
      destruct (IH (acc ++ rbuf rw) (set_rbuf [] rw)) as (w & rw' & Hloop & Hro & Hfrom & Hres).
      { unfold ReadString_turns in *. rewrite Hfull in Hfuel.
        unfold set_rbuf. cbn [rbuf conn length].
        rewrite (proj2 (Nat.leb_gt _ _)) by apply defaultBufSize_pos. lia. }
      exists w, rw'. split; [exact Hloop |].
      split; [exact Hro |]. split; [exact Hfrom |].
      unfold readable at 1. rewrite Hline.
      unfold readable at 1 in Hres. unfold set_rbuf in Hres. cbn [rbuf conn app] in Hres.
      destruct (line_to delim (before_done (incoming (conn rw)))) as [line |];
        cbn [fmap option_fmap option_map].
      * destruct Hres as (-> & Hrest). rewrite <- app_assoc.
        split; [reflexivity |]. unfold readable in Hrest |- *.
        cbn [rbuf conn app] in Hrest. rewrite Hrest, app_assoc.
        reflexivity.
      * exact Hres.
    + (* one more read of the connection *)
      apply Nat.leb_gt in Hfull.
      unfold bufio_fill, conn_Read.
      destruct rw as [rb wb we [evs cl snt wf]].
      cbn [rbuf wbuf werr conn incoming closing sent wfail] in *.
      destruct evs as [| [b cs | why] evs].
      * (* the end of the script *)
        unfold readable in Hline. cbn [rbuf conn incoming before_done] in Hline.
        exists (at_end cl).
        destruct cl; cbn [at_end]; eexists; (split; [reflexivity |]);
          (split; [repeat split |]); (split; [reflexivity |]);
          unfold readable; cbn [rbuf conn incoming before_done];
          cbn [line_to fmap option_fmap option_map] in Hline; rewrite Hline;
          reflexivity.
      * (* a segment arrives *)
        set (n := defaultBufSize - length rb).
        set (rw1 := mkRW (rb ++ take n (b :: cs)) wb we
                      (mkConn (recv (drop n (b :: cs)) ++ evs) cl snt wf)).
        destruct (IH acc rw1) as (w & rw' & Hloop & Hro & Hfrom & Hres).
        { unfold ReadString_turns in *. subst rw1.
          cbn [rbuf conn incoming] in *.
          rewrite script_bytes_recv, length_drop.
          cbn [script_bytes] in Hfuel. simpl length.
          destruct (defaultBufSize <=? length (rb ++ take n (b :: cs)));
            destruct (defaultBufSize <=? length rb); lia. }
        assert (Hsame : readable rw1 = rb ++ before_done (Recv b cs :: evs)).
        { unfold readable. subst rw1. cbn [rbuf conn incoming].
          rewrite before_done_recv. cbn [before_done].
          rewrite <- app_assoc, (app_assoc (take n _)), take_drop. reflexivity. }
        exists w, rw'. split; [exact Hloop |].
        split; [exact Hro |].
        split; [rewrite Hfrom; subst rw1; cbn [conn incoming];
                rewrite from_done_recv; reflexivity |].
        unfold readable at 1. cbn [rbuf conn incoming].
        rewrite Hsame in Hres.
        destruct (line_to delim (rb ++ before_done (Recv b cs :: evs))) as [line |].
        -- destruct Hres as (-> & Hrest). split; [reflexivity |].
           unfold readable at 1. cbn [rbuf conn incoming]. exact Hrest.
        -- rewrite Hres. unfold stop_of. subst rw1. cbn [conn incoming closing].
           rewrite from_done_recv. reflexivity.
      * (* [ctx.Done()] closes first *)
        unfold readable in Hline. cbn [rbuf conn incoming before_done] in Hline.
        do 2 eexists. split; [reflexivity |].
        split; [repeat split |]. split; [reflexivity |].
        unfold readable; cbn [rbuf conn incoming before_done].
        cbn [line_to fmap option_fmap option_map] in Hline. rewrite Hline.
        reflexivity.
Qed.

(** [ReadString] never runs out of fuel: it returns the first line of the
    stream, or what stops the stream before a line is complete. *)
Lemma bufio_ReadString_spec delim rw :
  exists w rw',
    bufio_ReadString delim rw = (w, rw')
    /\ reads_only rw rw'
    /\ from_done (incoming (conn rw')) = from_done (incoming (conn rw))
    /\ match line_to delim (readable rw) with
       | Some line => w = Got line /\ readable rw = line ++ readable rw'
       | None => w = stop_of (incoming (conn rw)) (closing (conn rw))
       end.
Proof.
  unfold bufio_ReadString.
  apply (ReadString_loop_spec delim _ [] rw).
  unfold ReadString_turns.
  destruct (defaultBufSize <=? length (rbuf rw)); lia.
Qed.

(** ** [readLine] *)

Lemma readLine_spec rw :
  exists rw',
    readLine rw = (readLine_outcome rw, rw')
    /\ reads_only rw rw'
    /\ from_done (incoming (conn rw')) = from_done (incoming (conn rw))
    /\ (forall line,
          readLine_outcome rw = Ret line ->
          first_line (readable rw) = Some line
          /\ readable rw = line ++ readable rw').
Proof.
  unfold readLine, readLine_outcome, first_line.
  destruct (bufio_ReadString_spec LF rw) as (w & rw' & Hrun & Hro & Hfrom & Hres).
  destruct (incoming (conn rw)) as [| [b cs | why] evs] eqn:Hscript.
  - rewrite Hrun. exists rw'.
    destruct (line_to LF (readable rw)) as [line |].
    + destruct Hres as (-> & Hrest). repeat split; try apply Hro; try assumption.
      all: match goal with H : Ret _ = Ret _ |- _ => injection H as <- end; auto.
    + subst w. unfold stop_of. cbn [from_done].
      destruct (closing (conn rw)); cbn [at_end];
        (repeat split; try apply Hro; try assumption; try discriminate).
  - rewrite Hrun. exists rw'.
    destruct (line_to LF (readable rw)) as [line |].
    + destruct Hres as (-> & Hrest). repeat split; try apply Hro; try assumption.
      all: match goal with H : Ret _ = Ret _ |- _ => injection H as <- end; auto.
    + subst w. unfold stop_of.
      destruct (from_done (Recv b cs :: evs)) as [| [b' cs' | why] evs'];
        try (destruct (closing (conn rw)); cbn [at_end]);
        (repeat split; try apply Hro; try assumption; try discriminate).
  - exists rw. repeat split; first [discriminate | rewrite Hscript; reflexivity].
Qed.

(** What a caller knows about a line it has got. *)
Lemma readLine_Ret rw line rw' :
  readLine rw = (Ret line, rw') ->
  first_line (readable rw) = Some line
  /\ readable rw = line ++ readable rw'
  /\ inbound rw = line ++ inbound rw'
  /\ reads_only rw rw'
  /\ unread rw' < unread rw.
Proof.
  intros Hrun. destruct (readLine_spec rw) as (rw1 & Hspec & Hro & Hfrom & Hline).
  rewrite Hrun in Hspec. injection Hspec as Hout <-.
  destruct (Hline line (eq_sym Hout)) as (Hfirst & Hrest).
  split; [exact Hfirst |]. split; [exact Hrest |].
  assert (Hin : inbound rw = line ++ inbound rw').
  { unfold inbound, readable in *.
    rewrite (script_data_split (incoming (conn rw))), app_assoc, Hrest.
    rewrite (script_data_split (incoming (conn rw'))), Hfrom, <- !app_assoc.
    reflexivity. }
  split; [exact Hin |]. split; [exact Hro |].
  unfold unread, readable in *.
  rewrite (script_bytes_split (incoming (conn rw))).
  rewrite (script_bytes_split (incoming (conn rw'))), Hfrom.
  apply (f_equal length) in Hrest. rewrite !length_app in Hrest.
  pose proof (line_to_nonempty _ _ _ Hfirst). lia.
Qed.

(** C9: [readLine] has three outcomes, and which one it is follows from
    the script alone ([readLine_outcome]): the cancellation error when the
    token has fired on entry or fires before a full line has arrived; the
    I/O error when the source ends or fails before a line feed is seen;
    otherwise the raw line, from the head of the stream up to and including
    its line feed, nothing trimmed.  (On a silent source that nobody cancels
    the call does not return.) *)
Theorem readLine_three_outcomes (rw : ReadWriter) :
  exists rw',
    readLine rw = (readLine_outcome rw, rw')
    /\ reads_only rw rw'
    /\ (forall line,
          readLine_outcome rw = Ret line ->
          exists s, line = s ++ [LF] /\ (LF ∉ s)
                    /\ readable rw = line ++ readable rw')
    /\ (forall e,
          readLine_outcome rw = Fail e ->
          (exists why, e = ctx_Err why) \/ is_io_error e = true)
    /\ readLine_outcome rw <> Panic.
Proof.
  destruct (readLine_spec rw) as (rw' & Hrun & Hro & _ & Hline).
  exists rw'. split; [exact Hrun |]. split; [exact Hro |].
  split; [| split].
  - intros line Hout. destruct (Hline line Hout) as (Hfirst & Hrest).
    destruct (line_to_Some _ _ _ Hfirst) as (s & -> & Hs & _).
    exists s. auto.
  - unfold readLine_outcome. intros e.
    destruct (incoming (conn rw)) as [| [b cs | why] evs].
    + destruct (first_line (readable rw)); [discriminate |].
      cbn [from_done].
      destruct (closing (conn rw)); intros [= <-]; right; reflexivity.
    + destruct (first_line (readable rw)); [discriminate |].
      destruct (from_done (Recv b cs :: evs)) as [| [b' cs' | why] evs'];
        try (destruct (closing (conn rw))); intros [= <-];
        try (right; reflexivity); left; eexists; reflexivity.
    + intros [= <-]. left. eexists. reflexivity.
  - unfold readLine_outcome.
    destruct (incoming (conn rw)) as [| [b cs | why] evs]; try discriminate;
      destruct (first_line (readable rw)); try discriminate;
      destruct (from_done _) as [| [b' cs' | why'] evs'];
      try discriminate; destruct (closing (conn rw)); discriminate.
Qed.

(** ** [expectGreeting] *)

(** The fuel of the loop does not matter once it exceeds what is left to
    read. *)
Lemma expectGreeting_loop_fuel pattern fuel1 : forall fuel2 rw,
  unread rw < fuel1 -> unread rw < fuel2 ->
  expectGreeting_loop fuel1 pattern rw = expectGreeting_loop fuel2 pattern rw.
Proof.
  induction fuel1 as [| fuel1 IH]; intros fuel2 rw H1 H2; [lia |].
  destruct fuel2 as [| fuel2]; [lia |].
  cbn [expectGreeting_loop]. unfold bind.
  destruct (readLine rw) as [[line | e | |] rw'] eqn:Hread; try reflexivity.
  destruct (regexp_MatchString pattern line); [reflexivity |].
  apply readLine_Ret in Hread. destruct Hread as (_ & _ & _ & _ & Hless).
  apply IH; lia.
Qed.

(** The loop of the source: [for { line, err := readLine(...); ... }]. *)
Lemma expectGreeting_unfold pattern rw :
  expectGreeting pattern rw
  = match readLine rw with
    | (Ret line, rw') =>
        if regexp_MatchString pattern line then (Ret tt, rw')
        else expectGreeting pattern rw'
    | (Fail e, rw') => (Fail e, rw')
    | (Panic, rw') => (Panic, rw')
    | (Blocked, rw') => (Blocked, rw')
    end.
Proof.
  unfold expectGreeting at 1. cbn [expectGreeting_loop]. unfold bind.
  destruct (readLine rw) as [[line | e | |] rw'] eqn:Hread; try reflexivity.
  destruct (regexp_MatchString pattern line); [reflexivity |].
  apply readLine_Ret in Hread. destruct Hread as (_ & _ & _ & _ & Hless).
  unfold expectGreeting. apply expectGreeting_loop_fuel; lia.
Qed.

Lemma skips_stream pattern rw lines rw' :
  skips pattern rw lines rw' ->
  inbound rw = concat lines ++ inbound rw' /\ reads_only rw rw'.
Proof.
  induction 1 as [rw | rw line rw1 lines rw2 Hread Hno Hskips [IHin IHro]].
  - split; [reflexivity | apply reads_only_refl].
  - apply readLine_Ret in Hread. destruct Hread as (_ & _ & Hin & Hro & _).
    split.
    + rewrite Hin, IHin. simpl. rewrite <- app_assoc. reflexivity.
    + eapply reads_only_trans; eassumption.
Qed.

Lemma expectGreeting_skips pattern rw lines rw' :
  skips pattern rw lines rw' ->
  expectGreeting pattern rw = expectGreeting pattern rw'.
Proof.
  induction 1 as [rw | rw line rw1 lines rw2 Hread Hno Hskips IH]; [reflexivity |].
  rewrite expectGreeting_unfold, Hread, Hno. exact IH.
Qed.

(** Every run of the loop ends in the read that stops it. *)
Lemma expectGreeting_ends pattern n : forall rw r rw2,
  unread rw < n ->
  expectGreeting pattern rw = (r, rw2) ->
  exists lines rw1,
    skips pattern rw lines rw1
    /\ match r with
       | Ret _ => exists line, readLine rw1 = (Ret line, rw2)
                               /\ regexp_MatchString pattern line = true
       | Fail e => readLine rw1 = (Fail e, rw2)
       | Blocked => readLine rw1 = (Blocked, rw2)
       | Panic => readLine rw1 = (Panic, rw2)
       end.
Proof.
  induction n as [| n IH]; intros rw r rw2 Hn; [lia |].
  rewrite expectGreeting_unfold.
  destruct (readLine rw) as [[line | e | |] rw'] eqn:Hread.
  - destruct (regexp_MatchString pattern line) eqn:Hmatch.
    + intros [= <- <-]. exists [], rw. split; [constructor |]. eauto.
    + intros Hrun.
      pose proof (readLine_Ret _ _ _ Hread) as (_ & _ & _ & _ & Hless).
      destruct (IH rw' r rw2 ltac:(lia) Hrun) as (lines & rw1 & Hskips & Hend).
      exists (line :: lines), rw1. split; [| exact Hend].
      econstructor; eassumption.
  - intros [= <- <-]. exists [], rw. split; [constructor | exact Hread].
  - intros [= <- <-]. exists [], rw. split; [constructor | exact Hread].
  - intros [= <- <-]. exists [], rw. split; [constructor | exact Hread].
Qed.

(** On a stream that is never cancelled, [readLine] returns the lines of
    the stream one by one. *)
Lemma line_to_line delim (s rest : list byte) :
  delim ∉ s -> line_to delim ((s ++ [delim]) ++ rest) = Some (s ++ [delim]).
Proof.
  induction s as [| b s IH]; simpl; intros Hs.
  - assert (E : Byte.eqb delim delim = true)
      by (apply Byte.byte_dec_lb; reflexivity).
    rewrite E. reflexivity.
  - rewrite not_elem_of_cons in Hs. destruct Hs as (Hb & Hs).
    destruct (Byte.eqb b delim) eqn:E;
      [apply Byte.byte_dec_bl in E; congruence |].
    rewrite IH by exact Hs. reflexivity.
Qed.

Lemma readLine_never_cancelled rw line rest :
  never_cancelled rw -> is_line line -> inbound rw = line ++ rest ->
  exists rw', readLine rw = (Ret line, rw')
              /\ never_cancelled rw' /\ inbound rw' = rest.
Proof.
  unfold never_cancelled. intros Hnever (s & -> & Hs) Hin.
  destruct (readLine_spec rw) as (rw' & Hrun & _ & Hfrom & Hline).
  assert (Hreadable : readable rw = inbound rw).
  { unfold readable, inbound.
    rewrite (script_data_split (incoming (conn rw))), Hnever. simpl.
    rewrite app_nil_r. reflexivity. }
  assert (Hout : readLine_outcome rw = Ret (s ++ [LF])).
  { unfold readLine_outcome, first_line. rewrite Hreadable, Hin.
    rewrite line_to_line by exact Hs.
    destruct (incoming (conn rw)) as [| [b cs | why] evs];
      [reflexivity | reflexivity | discriminate]. }
  rewrite Hout in Hrun. exists rw'. split; [exact Hrun |].
  rewrite Hnever in Hfrom. split; [exact Hfrom |].
  apply readLine_Ret in Hrun. destruct Hrun as (_ & _ & Hin' & _).
  rewrite Hin in Hin'. apply app_inv_head in Hin'. symmetry. exact Hin'.
Qed.

Lemma skips_never_cancelled pattern lines : forall rw rest,
  never_cancelled rw ->
  Forall is_line lines ->
  Forall (fun l => regexp_MatchString pattern l = false) lines ->
  inbound rw = concat lines ++ rest ->
  exists rw', skips pattern rw lines rw'
              /\ never_cancelled rw' /\ inbound rw' = rest.
Proof.
  induction lines as [| line lines IH]; intros rw rest Hnever Hlines Hno Hin.
  - exists rw. split; [constructor | auto].
  - inversion Hlines as [| ? ? Hline Hlines']; subst.
    inversion Hno as [| ? ? Hno1 Hno']; subst.
    simpl in Hin. rewrite <- app_assoc in Hin.
    destruct (readLine_never_cancelled rw line _ Hnever Hline Hin)
      as (rw1 & Hread & Hnever1 & Hin1).
    destruct (IH rw1 rest Hnever1 Hlines' Hno' Hin1) as (rw' & Hskips & Hnever' & Hin').
    exists rw'. split; [econstructor; eassumption | auto].
Qed.

(** C8: [expectGreeting] returns success at the first line that matches
    the pattern, having read the lines up to and including that line and
    thrown away the lines before it; when a read fails first (the
    cancellation error is one of the failures of [readLine]) it returns
    that error; and nothing else ends the loop: every run ends in the read
    of a matching line or in a read that does not return a line.  On a
    stream that is never cancelled and holds non-matching lines followed by
    a matching one, it returns success and leaves exactly the rest of the
    stream. *)
Theorem expectGreeting_first_match (pattern : Regexp) (rw : ReadWriter) :
  (forall lines rw1 line rw2,
     skips pattern rw lines rw1 ->
     readLine rw1 = (Ret line, rw2) ->
     regexp_MatchString pattern line = true ->
     expectGreeting pattern rw = (Ret tt, rw2)
     /\ inbound rw = concat lines ++ line ++ inbound rw2)
  /\ (forall lines rw1 e rw2,
        skips pattern rw lines rw1 ->
        readLine rw1 = (Fail e, rw2) ->
        expectGreeting pattern rw = (Fail e, rw2))
  /\ (forall r rw2,
        expectGreeting pattern rw = (r, rw2) ->
        exists lines rw1,
          skips pattern rw lines rw1
          /\ match r with
             | Ret _ => exists line, readLine rw1 = (Ret line, rw2)
                                     /\ regexp_MatchString pattern line = true
             | Fail e => readLine rw1 = (Fail e, rw2)
             | Blocked => readLine rw1 = (Blocked, rw2)
             | Panic => False
             end)
  /\ (forall lines line rest,
        never_cancelled rw ->
        Forall is_line lines ->
        Forall (fun l => regexp_MatchString pattern l = false) lines ->
        is_line line ->
        regexp_MatchString pattern line = true ->
        inbound rw = concat lines ++ line ++ rest ->
        exists rw2, expectGreeting pattern rw = (Ret tt, rw2)
                    /\ inbound rw2 = rest).
Proof.
  split; [| split; [| split]].
  - intros lines rw1 line rw2 Hskips Hread Hmatch.
    rewrite (expectGreeting_skips _ _ _ _ Hskips).
    rewrite expectGreeting_unfold, Hread, Hmatch. split; [reflexivity |].
    destruct (skips_stream _ _ _ _ Hskips) as (Hin & _). rewrite Hin.
    apply readLine_Ret in Hread. destruct Hread as (_ & _ & Hin1 & _).
    rewrite Hin1. reflexivity.
  - intros lines rw1 e rw2 Hskips Hread.
    rewrite (expectGreeting_skips _ _ _ _ Hskips).
    rewrite expectGreeting_unfold, Hread. reflexivity.
  - intros r rw2 Hrun.
    destruct (expectGreeting_ends pattern (S (unread rw)) rw r rw2 ltac:(lia) Hrun)
      as (lines & rw1 & Hskips & Hend).
    exists lines, rw1. split; [exact Hskips |].
    destruct r; try exact Hend.
    destruct (readLine_spec rw1) as (rw' & Hspec & _).
    rewrite Hend in Hspec. injection Hspec as Hout _.
    revert Hout. unfold readLine_outcome.
    destruct (incoming (conn rw1)) as [| [b cs | why] evs]; try discriminate;
      destruct (first_line (readable rw1)); try discriminate;
      destruct (from_done _) as [| [b' cs' | why'] evs'];
      try discriminate; destruct (closing (conn rw1)); discriminate.
  - intros lines line rest Hnever Hlines Hno Hline Hmatch Hin.
    destruct (skips_never_cancelled pattern lines rw (line ++ rest)
                Hnever Hlines Hno Hin) as (rw1 & Hskips & Hnever1 & Hin1).
    destruct (readLine_never_cancelled rw1 line rest Hnever1 Hline Hin1)
      as (rw2 & Hread & _ & Hin2).
    exists rw2. split; [| exact Hin2].
    rewrite (expectGreeting_skips _ _ _ _ Hskips).
    rewrite expectGreeting_unfold, Hread, Hmatch. reflexivity.
Qed.

(** ** Patterns *)

Lemma match_here_literal lits at_start s :
  match_here (Lit <$> lits) at_start s = strings_HasPrefix s lits.
Proof.
  revert at_start s. induction lits as [| c lits IH]; intros at_start s.
  - destruct s; reflexivity.
  - destruct s as [| x s]; [reflexivity |].
    cbn [fmap list_fmap match_here strings_HasPrefix]. rewrite IH. reflexivity.
Qed.

Lemma match_from_anchored re s : match_from (BeginText :: re) false s = false.
Proof. induction s as [| x s IH]; [reflexivity | exact IH]. Qed.

(** A pattern that is a caret and literal characters is a test for a
    prefix. *)
Lemma regexp_MatchString_anchored lits s :
  regexp_MatchString (BeginText :: (Lit <$> lits)) s = strings_HasPrefix s lits.
Proof.
  unfold regexp_MatchString.
  destruct s as [| x s]; cbn [match_from match_here andb].
  - rewrite match_here_literal, orb_false_r. reflexivity.
  - rewrite match_here_literal, match_from_anchored, orb_false_r. reflexivity.
Qed.

(** The patterns of the package are inside the fragment of the model, and
    each of them is the prefix of the table. *)
Lemma patterns_compile d :
  greetMsg (driver_base d) = BeginText :: (Lit <$> greeting_prefix d)
  /\ respMsg (driver_base d) = BeginText :: (Lit <$> success_prefix d)
  /\ authMsg (driver_base d) = upgrade_command d.
Proof. destruct d; repeat split; vm_compute; reflexivity. Qed.

Lemma respMsg_prefix d line :
  regexp_MatchString (respMsg (driver_base d)) line
  = strings_HasPrefix line (success_prefix d).
Proof.
  destruct (patterns_compile d) as (_ & -> & _).
  apply regexp_MatchString_anchored.
Qed.

Lemma greetMsg_prefix d line :
  regexp_MatchString (greetMsg (driver_base d)) line
  = strings_HasPrefix line (greeting_prefix d).
Proof.
  destruct (patterns_compile d) as (-> & _).
  apply regexp_MatchString_anchored.
Qed.

(** ** [strings_TrimSpace] *)

(** *** The runes of [utf8_DecodeRuneInString] as sums *)

Lemma rune_low (b : Z) : Z.land b utf8_maskx = (b mod 64)%Z.
Proof. change utf8_maskx with (Z.ones 6). rewrite Z.land_ones by lia. reflexivity. Qed.

Lemma lor_high (a b k n : Z) :
  (0 <= n)%Z -> (0 <= a < 2 ^ n)%Z -> k = (2 ^ n)%Z ->
  Z.lor (b * k) a = (b * k + a)%Z.
Proof.
  intros Hn Ha ->. rewrite Z.lor_comm, lor_shifted by assumption. lia.
Qed.

Lemma rune_2 (s0 s1 : Z) :
  Z.lor (Z.shiftl (Z.land s0 utf8_mask2) 6) (Z.land s1 utf8_maskx)
  = (s0 mod 32 * 64 + s1 mod 64)%Z.
Proof.
  rewrite rune_low. change utf8_mask2 with (Z.ones 5).
  rewrite Z.land_ones, Z.shiftl_mul_pow2 by lia.
  change (2 ^ 5)%Z with 32%Z. change (2 ^ 6)%Z with 64%Z.
  pose proof (Z.mod_pos_bound s1 64).
  apply (lor_high _ _ _ 6); [lia | | reflexivity].
  change (2 ^ 6)%Z with 64%Z. lia.
Qed.

Lemma rune_3 (s0 s1 s2 : Z) :
  Z.lor (Z.lor (Z.shiftl (Z.land s0 utf8_mask3) 12)
               (Z.shiftl (Z.land s1 utf8_maskx) 6))
        (Z.land s2 utf8_maskx)
  = (s0 mod 16 * 4096 + s1 mod 64 * 64 + s2 mod 64)%Z.
Proof.
  rewrite !rune_low. change utf8_mask3 with (Z.ones 4).
  rewrite Z.land_ones, !Z.shiftl_mul_pow2 by lia.
  change (2 ^ 4)%Z with 16%Z. change (2 ^ 6)%Z with 64%Z.
  change (2 ^ 12)%Z with 4096%Z.
  pose proof (Z.mod_pos_bound s1 64). pose proof (Z.mod_pos_bound s2 64).
  rewrite (lor_high (s1 mod 64 * 64) _ _ 12);
    [| lia | change (2 ^ 12)%Z with 4096%Z; lia | reflexivity].
  replace (s0 mod 16 * 4096 + s1 mod 64 * 64)%Z
    with ((s0 mod 16 * 64 + s1 mod 64) * 64)%Z by lia.
  rewrite (lor_high (s2 mod 64) _ _ 6);
    [lia | lia | change (2 ^ 6)%Z with 64%Z; lia | reflexivity].
Qed.

Lemma rune_4 (s0 s1 s2 s3 : Z) :
  Z.lor (Z.lor (Z.lor (Z.shiftl (Z.land s0 utf8_mask4) 18)
                      (Z.shiftl (Z.land s1 utf8_maskx) 12))
               (Z.shiftl (Z.land s2 utf8_maskx) 6))
        (Z.land s3 utf8_maskx)
  = (s0 mod 8 * 262144 + s1 mod 64 * 4096 + s2 mod 64 * 64 + s3 mod 64)%Z.
Proof.
  rewrite !rune_low. change utf8_mask4 with (Z.ones 3).
  rewrite Z.land_ones, !Z.shiftl_mul_pow2 by lia.
  change (2 ^ 3)%Z with 8%Z. change (2 ^ 6)%Z with 64%Z.
  change (2 ^ 12)%Z with 4096%Z. change (2 ^ 18)%Z with 262144%Z.
  pose proof (Z.mod_pos_bound s1 64). pose proof (Z.mod_pos_bound s2 64).
  pose proof (Z.mod_pos_bound s3 64).
  rewrite (lor_high (s1 mod 64 * 4096) _ _ 18);
    [| lia | change (2 ^ 18)%Z with 262144%Z; lia | reflexivity].
  replace (s0 mod 8 * 262144 + s1 mod 64 * 4096)%Z
    with ((s0 mod 8 * 64 + s1 mod 64) * 4096)%Z by lia.
  rewrite (lor_high (s2 mod 64 * 64) _ _ 12);
    [| lia | change (2 ^ 12)%Z with 4096%Z; lia | reflexivity].
  replace ((s0 mod 8 * 64 + s1 mod 64) * 4096 + s2 mod 64 * 64)%Z
    with (((s0 mod 8 * 64 + s1 mod 64) * 64 + s2 mod 64) * 64)%Z by lia.
  rewrite (lor_high (s3 mod 64) _ _ 6);
    [lia | lia | change (2 ^ 6)%Z with 64%Z; lia | reflexivity].
Qed.

(** *** [utf8_DecodeRuneInString], case by case *)

Lemma utf8_first_cases (s0 : Z) :
  ((s0 < 0x80)%Z /\ utf8_first s0 = utf8_as)
  \/ (((0x80 <= s0 < 0xC2)%Z \/ (0xF5 <= s0)%Z) /\ utf8_first s0 = utf8_xx)
  \/ ((0xC2 <= s0 < 0xE0)%Z /\ utf8_first s0 = utf8_s1)
  \/ (s0 = 0xE0%Z /\ utf8_first s0 = utf8_s2)
  \/ (((0xE1 <= s0 < 0xED)%Z \/ (0xEE <= s0 < 0xF0)%Z) /\ utf8_first s0 = utf8_s3)
  \/ (s0 = 0xED%Z /\ utf8_first s0 = utf8_s4)
  \/ (s0 = 0xF0%Z /\ utf8_first s0 = utf8_s5)
  \/ ((0xF1 <= s0 < 0xF4)%Z /\ utf8_first s0 = utf8_s6)
  \/ (s0 = 0xF4%Z /\ utf8_first s0 = utf8_s7).
Proof.
  unfold utf8_first.
  repeat match goal with
         | |- context [(?a <? ?b)%Z] => destruct (Z.ltb_spec a b)
         | |- context [(?a =? ?b)%Z] => destruct (Z.eqb_spec a b)
         end; lia || (repeat (first [left; split; [lia | reflexivity] | right])).
Qed.

(** The tail of [utf8_DecodeRuneInString] for a first byte that announces
    three bytes: the result does not depend on what follows them. *)
Lemma decode_tail_3 (b0 b1 b2 : byte) (lo hi : Z) :
  (0xE0 <= byte_to_Z b0 < 0xF0)%Z ->
  (0x80 <= lo)%Z -> (hi <= 0xBF)%Z ->
  (byte_to_Z b0 = 0xE0%Z -> (0xA0 <= lo)%Z) ->
  let s0 := byte_to_Z b0 in
  let result (s : list byte) :=
    if length s <? 3 then (utf8_RuneError, 1)
    else
      let s1 := byte_at s 1 in
      if (s1 <? fst (lo, hi))%Z || (snd (lo, hi) <? s1)%Z then (utf8_RuneError, 1)
      else if 3 <=? 2 then
        (Z.lor (Z.shiftl (Z.land s0 utf8_mask2) 6) (Z.land s1 utf8_maskx), 2)
      else
        let s2 := byte_at s 2 in
        if (s2 <? utf8_locb)%Z || (utf8_hicb <? s2)%Z then (utf8_RuneError, 1)
        else if 3 <=? 3 then
          (Z.lor (Z.lor (Z.shiftl (Z.land s0 utf8_mask3) 12)
                        (Z.shiftl (Z.land s1 utf8_maskx) 6))
                 (Z.land s2 utf8_maskx), 3)
        else
          let s3 := byte_at s 3 in
          if (s3 <? utf8_locb)%Z || (utf8_hicb <? s3)%Z then (utf8_RuneError, 1)
          else
            (Z.lor (Z.lor (Z.lor (Z.shiftl (Z.land s0 utf8_mask4) 18)
                                 (Z.shiftl (Z.land s1 utf8_maskx) 12))
                          (Z.shiftl (Z.land s2 utf8_maskx) 6))
                   (Z.land s3 utf8_maskx), 4) in
  (forall R, result (b0 :: b1 :: b2 :: R) = (utf8_RuneError, 1))
  \/ (continues b1 /\ continues b2
      /\ (s0 = 0xE0%Z -> (0xA0 <= byte_to_Z b1)%Z)
      /\ forall R,
           result (b0 :: b1 :: b2 :: R)
           = (((s0 - 0xE0) * 4096 + (byte_to_Z b1 - 0x80) * 64
               + (byte_to_Z b2 - 0x80))%Z, 3)).
Proof.
  intros Hs Hlo Hhi HE0 s0 result.
  enough (Hg : result [b0; b1; b2] = (utf8_RuneError, 1)
               \/ (continues b1 /\ continues b2
                   /\ (s0 = 0xE0%Z -> (0xA0 <= byte_to_Z b1)%Z)
                   /\ result [b0; b1; b2]
                      = (((s0 - 0xE0) * 4096 + (byte_to_Z b1 - 0x80) * 64
                          + (byte_to_Z b2 - 0x80))%Z, 3))).
  { destruct Hg as [Hg | (? & ? & ? & Hg)];
      [left; intros R; exact Hg
      | right; repeat (split; [assumption |]); intros R; exact Hg]. }
  subst result s0. cbv beta.
  change (length [b0; b1; b2] <? 3) with false. cbv iota zeta.
  change (byte_at [b0; b1; b2] 1) with (byte_to_Z b1).
  change (byte_at [b0; b1; b2] 2) with (byte_to_Z b2).
  cbn [fst snd]. unfold utf8_locb, utf8_hicb.
  pose proof (byte_to_Z_range b1) as H1. pose proof (byte_to_Z_range b2) as H2.
  destruct (Z.ltb_spec (byte_to_Z b1) lo); [left; reflexivity |].
  destruct (Z.ltb_spec hi (byte_to_Z b1)); [left; reflexivity |].
  cbn [orb]. change (3 <=? 2) with false. cbv iota.
  destruct (Z.ltb_spec (byte_to_Z b2) 0x80); [left; reflexivity |].
  destruct (Z.ltb_spec 0xBF (byte_to_Z b2)); [left; reflexivity |].
  cbn [orb]. change (3 <=? 3) with true. cbv iota.
  right. split; [unfold continues; lia |]. split; [unfold continues; lia |].
  split; [lia |].
  rewrite rune_3. f_equal. Z.div_mod_to_equations. lia.
Qed.

(** The same for a first byte that announces four bytes. *)
Lemma decode_tail_4 (b0 b1 b2 b3 : byte) (lo hi : Z) :
  (0xF0 <= byte_to_Z b0 <= 0xF4)%Z ->
  (0x80 <= lo)%Z -> (hi <= 0xBF)%Z ->
  (byte_to_Z b0 = 0xF0%Z -> (0x90 <= lo)%Z) ->
  let s0 := byte_to_Z b0 in
  let result (s : list byte) :=
    if length s <? 4 then (utf8_RuneError, 1)
    else
      let s1 := byte_at s 1 in
      if (s1 <? fst (lo, hi))%Z || (snd (lo, hi) <? s1)%Z then (utf8_RuneError, 1)
      else if 4 <=? 2 then
        (Z.lor (Z.shiftl (Z.land s0 utf8_mask2) 6) (Z.land s1 utf8_maskx), 2)
      else
        let s2 := byte_at s 2 in
        if (s2 <? utf8_locb)%Z || (utf8_hicb <? s2)%Z then (utf8_RuneError, 1)
        else if 4 <=? 3 then
          (Z.lor (Z.lor (Z.shiftl (Z.land s0 utf8_mask3) 12)
                        (Z.shiftl (Z.land s1 utf8_maskx) 6))
                 (Z.land s2 utf8_maskx), 3)
        else
          let s3 := byte_at s 3 in
          if (s3 <? utf8_locb)%Z || (utf8_hicb <? s3)%Z then (utf8_RuneError, 1)
          else
            (Z.lor (Z.lor (Z.lor (Z.shiftl (Z.land s0 utf8_mask4) 18)
                                 (Z.shiftl (Z.land s1 utf8_maskx) 12))
                          (Z.shiftl (Z.land s2 utf8_maskx) 6))
                   (Z.land s3 utf8_maskx), 4) in
  (forall R, result (b0 :: b1 :: b2 :: b3 :: R) = (utf8_RuneError, 1))
  \/ (continues b1 /\ continues b2 /\ continues b3
      /\ (s0 = 0xF0%Z -> (0x90 <= byte_to_Z b1)%Z)
      /\ forall R,
           result (b0 :: b1 :: b2 :: b3 :: R)
           = (((s0 - 0xF0) * 262144 + (byte_to_Z b1 - 0x80) * 4096
               + (byte_to_Z b2 - 0x80) * 64 + (byte_to_Z b3 - 0x80))%Z, 4)).
Proof.
  intros Hs Hlo Hhi HF0 s0 result.
  enough (Hg : result [b0; b1; b2; b3] = (utf8_RuneError, 1)
               \/ (continues b1 /\ continues b2 /\ continues b3
                   /\ (s0 = 0xF0%Z -> (0x90 <= byte_to_Z b1)%Z)
                   /\ result [b0; b1; b2; b3]
                      = (((s0 - 0xF0) * 262144 + (byte_to_Z b1 - 0x80) * 4096
                          + (byte_to_Z b2 - 0x80) * 64
                          + (byte_to_Z b3 - 0x80))%Z, 4))).
  { destruct Hg as [Hg | (? & ? & ? & ? & Hg)];
      [left; intros R; exact Hg
      | right; repeat (split; [assumption |]); intros R; exact Hg]. }
  subst result s0. cbv beta.
  change (length [b0; b1; b2; b3] <? 4) with false. cbv iota zeta.
  change (byte_at [b0; b1; b2; b3] 1) with (byte_to_Z b1).
  change (byte_at [b0; b1; b2; b3] 2) with (byte_to_Z b2).
  change (byte_at [b0; b1; b2; b3] 3) with (byte_to_Z b3).
  cbn [fst snd]. unfold utf8_locb, utf8_hicb.
  pose proof (byte_to_Z_range b1) as H1. pose proof (byte_to_Z_range b2) as H2.
  pose proof (byte_to_Z_range b3) as H3.
  destruct (Z.ltb_spec (byte_to_Z b1) lo); [left; reflexivity |].
  destruct (Z.ltb_spec hi (byte_to_Z b1)); [left; reflexivity |].
  cbn [orb]. change (4 <=? 2) with false. cbv iota.
  destruct (Z.ltb_spec (byte_to_Z b2) 0x80); [left; reflexivity |].
  destruct (Z.ltb_spec 0xBF (byte_to_Z b2)); [left; reflexivity |].
  cbn [orb]. change (4 <=? 3) with false. cbv iota.
  destruct (Z.ltb_spec (byte_to_Z b3) 0x80); [left; reflexivity |].
  destruct (Z.ltb_spec 0xBF (byte_to_Z b3)); [left; reflexivity |].
  cbn [orb].
  right. split; [unfold continues; lia |]. split; [unfold continues; lia |].
  split; [unfold continues; lia |]. split; [lia |].
  rewrite rune_4. f_equal. Z.div_mod_to_equations. lia.
Qed.

Ltac three_bytes b0 rest Hs Hunfold x lo hi :=
  change (utf8_as <=? x)%Z with false in Hunfold; cbv iota in Hunfold;
  change (Z.to_nat (Z.land x 7)) with 3 in Hunfold;
  change (utf8_acceptRanges (Z.shiftr x 4)) with (lo, hi) in Hunfold;
  let b1 := fresh "b1" in let b2 := fresh "b2" in let rest' := fresh "rest'" in
  let Hbad := fresh "Hbad" in let Hgood := fresh "Hgood" in
  destruct rest as [| b1 [| b2 rest']];
    [right; left; split; [lia | rewrite Hunfold; reflexivity]
    | right; left; split; [lia | rewrite Hunfold; reflexivity] |];
  destruct (decode_tail_3 b0 b1 b2 lo hi)
    as [Hbad | (? & ? & ? & Hgood)];
    try (unfold utf8_locb, utf8_hicb; lia);
    cbv zeta beta in *;
    [right; left; split; [lia | rewrite Hunfold; apply Hbad]
    | right; right; right; left; exists b1, b2, rest';
      repeat (split; [first [reflexivity | assumption | lia] |]);
      intros R; rewrite Hunfold; apply Hgood].

Ltac four_bytes b0 rest Hs Hunfold x lo hi :=
  change (utf8_as <=? x)%Z with false in Hunfold; cbv iota in Hunfold;
  change (Z.to_nat (Z.land x 7)) with 4 in Hunfold;
  change (utf8_acceptRanges (Z.shiftr x 4)) with (lo, hi) in Hunfold;
  let b1 := fresh "b1" in let b2 := fresh "b2" in let b3 := fresh "b3" in
  let rest' := fresh "rest'" in
  let Hbad := fresh "Hbad" in let Hgood := fresh "Hgood" in
  destruct rest as [| b1 [| b2 [| b3 rest']]];
    [right; left; split; [lia | rewrite Hunfold; reflexivity]
    | right; left; split; [lia | rewrite Hunfold; reflexivity]
    | right; left; split; [lia | rewrite Hunfold; reflexivity] |];
  destruct (decode_tail_4 b0 b1 b2 b3 lo hi)
    as [Hbad | (? & ? & ? & ? & Hgood)];
    try (unfold utf8_locb, utf8_hicb; lia);
    cbv zeta beta in *;
    [right; left; split; [lia | rewrite Hunfold; apply Hbad]
    | right; right; right; right; exists b1, b2, b3, rest';
      repeat (split; [first [reflexivity | assumption | lia] |]);
      intros R; rewrite Hunfold; apply Hgood].

(** What [utf8_DecodeRuneInString] returns on a string that is not empty:
    an ASCII byte, [RuneError] with width 1, or the rune of a sequence of
    two, three or four bytes, whatever follows the sequence. *)
Lemma utf8_DecodeRuneInString_cases (b0 : byte) (rest : list byte) :
  let s0 := byte_to_Z b0 in
  ((s0 < 0x80)%Z /\ utf8_DecodeRuneInString (b0 :: rest) = (s0, 1))
  \/ ((0x80 <= s0)%Z
      /\ utf8_DecodeRuneInString (b0 :: rest) = (utf8_RuneError, 1))
  \/ (exists b1 rest',
        rest = b1 :: rest' /\ (0xC2 <= s0 < 0xE0)%Z /\ continues b1
        /\ forall R,
             utf8_DecodeRuneInString (b0 :: b1 :: R)
             = (((s0 - 0xC0) * 64 + (byte_to_Z b1 - 0x80))%Z, 2))
  \/ (exists b1 b2 rest',
        rest = b1 :: b2 :: rest' /\ (0xE0 <= s0 < 0xF0)%Z
        /\ continues b1 /\ continues b2
        /\ (s0 = 0xE0%Z -> (0xA0 <= byte_to_Z b1)%Z)
        /\ forall R,
             utf8_DecodeRuneInString (b0 :: b1 :: b2 :: R)
             = (((s0 - 0xE0) * 4096 + (byte_to_Z b1 - 0x80) * 64
                 + (byte_to_Z b2 - 0x80))%Z, 3))
  \/ (exists b1 b2 b3 rest',
        rest = b1 :: b2 :: b3 :: rest' /\ (0xF0 <= s0 <= 0xF4)%Z
        /\ continues b1 /\ continues b2 /\ continues b3
        /\ (s0 = 0xF0%Z -> (0x90 <= byte_to_Z b1)%Z)
        /\ forall R,
             utf8_DecodeRuneInString (b0 :: b1 :: b2 :: b3 :: R)
             = (((s0 - 0xF0) * 262144 + (byte_to_Z b1 - 0x80) * 4096
                 + (byte_to_Z b2 - 0x80) * 64 + (byte_to_Z b3 - 0x80))%Z, 4)).
Proof.
  intros s0. subst s0. pose proof (byte_to_Z_range b0) as H0.
  eassert (Hunfold : forall s,
            utf8_DecodeRuneInString (b0 :: s)
            = let x := utf8_first (byte_to_Z b0) in
              if (utf8_as <=? x)%Z then
                (if Z.testbit x 0 then utf8_RuneError else byte_to_Z b0, 1)
              else _).
  { intros s. unfold utf8_DecodeRuneInString.
    change (length (b0 :: s) <? 1) with false. cbv iota zeta.
    change (byte_at (b0 :: s) 0) with (byte_to_Z b0). reflexivity. }
  cbv zeta in Hunfold.
  destruct (utf8_first_cases (byte_to_Z b0))
    as [(Hs & Hx) | [(Hs & Hx) | [(Hs & Hx) | [(Hs & Hx) | [(Hs & Hx)
       | [(Hs & Hx) | [(Hs & Hx) | [(Hs & Hx) | (Hs & Hx)]]]]]]]];
    rewrite Hx in Hunfold.
  - left. split; [exact Hs |]. rewrite Hunfold. reflexivity.
  - right. left. split; [lia |]. rewrite Hunfold. reflexivity.
  - (* two bytes *)
    change (utf8_as <=? utf8_s1)%Z with false in Hunfold. cbv iota in Hunfold.
    change (Z.to_nat (Z.land utf8_s1 7)) with 2 in Hunfold.
    change (utf8_acceptRanges (Z.shiftr utf8_s1 4))
      with (utf8_locb, utf8_hicb) in Hunfold.
    cbn [fst snd] in Hunfold. unfold utf8_locb, utf8_hicb in Hunfold.
    change (2 <=? 2) with true in Hunfold. cbv iota in Hunfold.
    destruct rest as [| b1 rest'];
      [right; left; split; [lia | rewrite Hunfold; reflexivity] |].
    pose proof (byte_to_Z_range b1) as H1.
    pose proof (Hunfold [b1]) as Hone.
    change (length [b0; b1] <? 2) with false in Hone. cbv iota in Hone.
    change (byte_at [b0; b1] 1) with (byte_to_Z b1) in Hone.
    assert (Hsame : forall R,
              utf8_DecodeRuneInString (b0 :: b1 :: R)
              = utf8_DecodeRuneInString [b0; b1])
      by (intros R; rewrite !Hunfold; reflexivity).
    destruct (Z.ltb_spec (byte_to_Z b1) 0x80);
      [right; left; split; [lia | rewrite Hsame; exact Hone] |].
    destruct (Z.ltb_spec 0xBF (byte_to_Z b1));
      [right; left; split; [lia | rewrite Hsame; exact Hone] |].
    cbn [orb] in Hone.
    right. right. left. exists b1, rest'.
    split; [reflexivity |]. split; [exact Hs |]. split; [unfold continues; lia |].
    intros R. rewrite Hsame, Hone, rune_2. f_equal. Z.div_mod_to_equations. lia.
  - three_bytes b0 rest Hs Hunfold utf8_s2 (0xA0%Z) utf8_hicb.
  - three_bytes b0 rest Hs Hunfold utf8_s3 utf8_locb utf8_hicb.
  - three_bytes b0 rest Hs Hunfold utf8_s4 utf8_locb (0x9F%Z).
  - four_bytes b0 rest Hs Hunfold utf8_s5 (0x90%Z) utf8_hicb.
  - four_bytes b0 rest Hs Hunfold utf8_s6 utf8_locb utf8_hicb.
  - four_bytes b0 rest Hs Hunfold utf8_s7 utf8_locb (0x8F%Z).
Qed.

(** *** [unicode_IsSpace] *)

Lemma unicode_IsSpace_true (r : Z) :
  unicode_IsSpace r = true ->
  ((0x09 <= r <= 0x0d)%Z \/ r = 0x20%Z \/ r = 0x85%Z \/ r = 0xA0%Z)
  \/ (r = 0x1680%Z \/ (0x2000 <= r <= 0x200a)%Z \/ (0x2028 <= r <= 0x2029)%Z
      \/ r = 0x202f%Z \/ r = 0x205f%Z \/ r = 0x3000%Z).
Proof.
  unfold unicode_IsSpace, unicode_isExcludingLatin, unicode_MaxLatin1.
  change (last unicode_White_Space) with (Some (0x3000, 0x3000)%Z).
  change (unicode_White_Space_LatinOffset <? length unicode_White_Space) with true.
  change (drop unicode_White_Space_LatinOffset unicode_White_Space)
    with [(0x1680, 0x1680); (0x2000, 0x200a); (0x2028, 0x2029); (0x202f, 0x202f);
          (0x205f, 0x205f); (0x3000, 0x3000)]%Z.
  cbn [unicode_is16 fst snd andb].
  repeat match goal with
         | |- context [(?a <? ?b)%Z] => destruct (Z.ltb_spec a b)
         | |- context [(?a <=? ?b)%Z] => destruct (Z.leb_spec a b)
         | |- context [(?a =? ?b)%Z] => destruct (Z.eqb_spec a b)
         end; cbn [orb]; intros Hspace; try discriminate Hspace; lia.
Qed.

Lemma unicode_IsSpace_RuneError : unicode_IsSpace utf8_RuneError = false.
Proof. reflexivity. Qed.

(** *** White space under [utf8_DecodeRuneInString] *)

Ltac pin b v z :=
  assert (b = v) as -> by (apply byte_to_Z_inj; change (byte_to_Z v) with z; lia).

Ltac in_white_space :=
  repeat first [apply list_elem_of_here | apply list_elem_of_further].

(** A white-space rune has been decoded from one of the encodings of
    [white_space]. *)
Lemma decode_space (s : list byte) (r : Z) (size : nat) :
  utf8_DecodeRuneInString s = (r, size) ->
  unicode_IsSpace r = true ->
  exists w rest, s = w ++ rest /\ (w ∈ white_space) /\ size = length w.
Proof.
  intros Hdecode Hspace.
  destruct s as [| b0 rest]; [injection Hdecode as <- _; discriminate Hspace |].
  pose proof (byte_to_Z_range b0) as H0.
  apply unicode_IsSpace_true in Hspace.
  destruct (utf8_DecodeRuneInString_cases b0 rest)
    as [(Hs & H) | [(Hs & H) | [(b1 & rest' & -> & Hs & H1 & H)
       | [(b1 & b2 & rest' & -> & Hs & H1 & H2 & HE0 & H)
       | (b1 & b2 & b3 & rest' & -> & Hs & H1 & H2 & H3 & HF0 & H)]]]];
    cbv zeta in *; rewrite ?H in Hdecode; injection Hdecode as <- <-.
  - exists [b0], rest. split; [reflexivity |]. split; [| reflexivity].
    assert (Hb : (byte_to_Z b0 = 0x09 \/ byte_to_Z b0 = 0x0a \/ byte_to_Z b0 = 0x0b
                  \/ byte_to_Z b0 = 0x0c \/ byte_to_Z b0 = 0x0d
                  \/ byte_to_Z b0 = 0x20)%Z) by lia.
    destruct Hb as [Hb | [Hb | [Hb | [Hb | [Hb | Hb]]]]].
    + pin b0 x09 0x09%Z. in_white_space.
    + pin b0 x0a 0x0a%Z. in_white_space.
    + pin b0 x0b 0x0b%Z. in_white_space.
    + pin b0 x0c 0x0c%Z. in_white_space.
    + pin b0 x0d 0x0d%Z. in_white_space.
    + pin b0 x20 0x20%Z. in_white_space.
  - exfalso. unfold utf8_RuneError in Hspace. lia.
  - unfold continues in *. pose proof (byte_to_Z_range b1).
    exists [b0; b1], rest'. split; [reflexivity |]. split; [| reflexivity].
    assert (Hb : (byte_to_Z b0 = 0xC2 /\ (byte_to_Z b1 = 0x85 \/ byte_to_Z b1 = 0xA0))%Z)
      by lia.
    destruct Hb as (Hb0 & [Hb1 | Hb1]); pin b0 xc2 0xC2%Z.
    + pin b1 x85 0x85%Z. in_white_space.
    + pin b1 xa0 0xA0%Z. in_white_space.
  - unfold continues in *.
    pose proof (byte_to_Z_range b1). pose proof (byte_to_Z_range b2).
    exists [b0; b1; b2], rest'. split; [reflexivity |]. split; [| reflexivity].
    assert (Hb : ((byte_to_Z b0 = 0xE1 /\ byte_to_Z b1 = 0x9A /\ byte_to_Z b2 = 0x80)
                  \/ (byte_to_Z b0 = 0xE2 /\ byte_to_Z b1 = 0x80
                      /\ ((0x80 <= byte_to_Z b2 <= 0x8A) \/ byte_to_Z b2 = 0xA8
                          \/ byte_to_Z b2 = 0xA9 \/ byte_to_Z b2 = 0xAF))
                  \/ (byte_to_Z b0 = 0xE2 /\ byte_to_Z b1 = 0x81 /\ byte_to_Z b2 = 0x9F)
                  \/ (byte_to_Z b0 = 0xE3 /\ byte_to_Z b1 = 0x80
                      /\ byte_to_Z b2 = 0x80))%Z) by lia.
    destruct Hb as [(Hb0 & Hb1 & Hb2) | [(Hb0 & Hb1 & Hb2)
                   | [(Hb0 & Hb1 & Hb2) | (Hb0 & Hb1 & Hb2)]]].
    + pin b0 xe1 0xE1%Z. pin b1 x9a 0x9A%Z. pin b2 x80 0x80%Z. in_white_space.
    + pin b0 xe2 0xE2%Z. pin b1 x80 0x80%Z.
      assert (Hb : (byte_to_Z b2 = 0x80 \/ byte_to_Z b2 = 0x81 \/ byte_to_Z b2 = 0x82
                    \/ byte_to_Z b2 = 0x83 \/ byte_to_Z b2 = 0x84
                    \/ byte_to_Z b2 = 0x85 \/ byte_to_Z b2 = 0x86
                    \/ byte_to_Z b2 = 0x87 \/ byte_to_Z b2 = 0x88
                    \/ byte_to_Z b2 = 0x89 \/ byte_to_Z b2 = 0x8A
                    \/ byte_to_Z b2 = 0xA8 \/ byte_to_Z b2 = 0xA9
                    \/ byte_to_Z b2 = 0xAF)%Z) by lia.
      destruct Hb as [Hb | [Hb | [Hb | [Hb | [Hb | [Hb | [Hb | [Hb | [Hb | [Hb
                     | [Hb | [Hb | [Hb | Hb]]]]]]]]]]]]].
      * pin b2 x80 0x80%Z. in_white_space.
      * pin b2 x81 0x81%Z. in_white_space.
      * pin b2 x82 0x82%Z. in_white_space.
      * pin b2 x83 0x83%Z. in_white_space.
      * pin b2 x84 0x84%Z. in_white_space.
      * pin b2 x85 0x85%Z. in_white_space.
      * pin b2 x86 0x86%Z. in_white_space.
      * pin b2 x87 0x87%Z. in_white_space.
      * pin b2 x88 0x88%Z. in_white_space.
      * pin b2 x89 0x89%Z. in_white_space.
      * pin b2 x8a 0x8A%Z. in_white_space.
      * pin b2 xa8 0xA8%Z. in_white_space.
      * pin b2 xa9 0xA9%Z. in_white_space.
      * pin b2 xaf 0xAF%Z. in_white_space.
    + pin b0 xe2 0xE2%Z. pin b1 x81 0x81%Z. pin b2 x9f 0x9F%Z. in_white_space.
    + pin b0 xe3 0xE3%Z. pin b1 x80 0x80%Z. pin b2 x80 0x80%Z. in_white_space.
  - exfalso. unfold continues in *. lia.
Qed.

(** And each encoding of [white_space] is decoded to a white-space rune,
    whatever follows it. *)
Lemma decode_white (w rest : list byte) :
  w ∈ white_space ->
  exists r, utf8_DecodeRuneInString (w ++ rest) = (r, length w)
            /\ unicode_IsSpace r = true.
Proof.
  unfold white_space. rewrite !elem_of_cons, elem_of_nil.
  intros Hw.
  repeat (destruct Hw as [-> | Hw]); try contradiction;
    eexists; (split; [vm_compute; reflexivity | reflexivity]).
Qed.

(** *** [utf8_DecodeLastRuneInString] *)

Lemma byte_at_app (p w : list byte) (k : nat) :
  byte_at (p ++ w) (length p + k) = byte_at w k.
Proof.
  unfold byte_at. rewrite lookup_app_r by lia.
  replace (length p + k - length p) with k by lia. reflexivity.
Qed.

Lemma utf8_back_to_start_le fuel s start lim :
  (utf8_back_to_start fuel s start lim <= start)%Z.
Proof.
  revert start. induction fuel as [| fuel IH]; intros start; simpl; [lia |].
  destruct (start <? lim)%Z; [lia |].
  destruct (utf8_RuneStart _); [lia |].
  specialize (IH (start - 1)%Z). lia.
Qed.

(** The loop stops within its fuel. *)
Lemma utf8_back_to_start_fuel fuel s end_ :
  utf8_back_to_start (Z.to_nat utf8_UTFMax + fuel) s (end_ - 1 - 1)
    (Z.max (end_ - utf8_UTFMax) 0)
  = utf8_back_to_start (Z.to_nat utf8_UTFMax) s (end_ - 1 - 1)
      (Z.max (end_ - utf8_UTFMax) 0).
Proof.
  change (Z.to_nat utf8_UTFMax) with 4. unfold utf8_UTFMax.
  cbn [Nat.add utf8_back_to_start].
  repeat match goal with
         | |- context [(?a <? ?b)%Z] =>
             destruct (Z.ltb_spec a b); try lia; try reflexivity
         | |- context [utf8_RuneStart ?b] =>
             destruct (utf8_RuneStart b); try reflexivity
         end.
Qed.

(** What [utf8_DecodeLastRuneInString] returns on a string that is not
    empty: its last byte when that is ASCII, or [RuneError] with width 1,
    or the rune that [utf8_DecodeRuneInString] finds in the bytes of some
    end of the string, all of them. *)
Lemma utf8_DecodeLastRuneInString_cases (p : list byte) (c : byte) :
  ((byte_to_Z c < 0x80)%Z
   /\ utf8_DecodeLastRuneInString (p ++ [c]) = (byte_to_Z c, 1))
  \/ ((0x80 <= byte_to_Z c)%Z
      /\ utf8_DecodeLastRuneInString (p ++ [c]) = (utf8_RuneError, 1))
  \/ ((0x80 <= byte_to_Z c)%Z
      /\ exists p' a r,
           p ++ [c] = p' ++ a /\ a <> []
           /\ utf8_DecodeRuneInString a = (r, length a)
           /\ utf8_DecodeLastRuneInString (p ++ [c]) = (r, length a)).
Proof.
  unfold utf8_DecodeLastRuneInString.
  rewrite length_app. cbn [length].
  destruct (Z.eqb_spec (Z.of_nat (length p + 1)) 0); [lia |].
  replace (Z.to_nat (Z.of_nat (length p + 1) - 1)) with (length p + 0) by lia.
  rewrite byte_at_app. change (byte_at [c] 0) with (byte_to_Z c).
  unfold utf8_RuneSelf.
  destruct (Z.ltb_spec (byte_to_Z c) 0x80) as [Hc | Hc];
    [left; split; [exact Hc | reflexivity] |].
  right.
  set (s := p ++ [c]).
  pose proof (utf8_back_to_start_le (Z.to_nat utf8_UTFMax) s
                (Z.of_nat (length p + 1) - 1 - 1)
                (Z.max (Z.of_nat (length p + 1) - utf8_UTFMax) 0)) as Hle.
  set (start := utf8_back_to_start _ _ _ _) in *.
  set (k := if (start <? 0)%Z then 0%Z else start).
  assert (Hk : (0 <= k <= Z.of_nat (length p))%Z).
  { subst k. destruct (Z.ltb_spec start 0); lia. }
  destruct (utf8_DecodeRuneInString (drop (Z.to_nat k) s)) as [r size] eqn:Hdecode.
  destruct (Z.eqb_spec (k + Z.of_nat size) (Z.of_nat (length p + 1))) as [Hend | Hend];
    cbn [negb]; [| left; split; [exact Hc | reflexivity]].
  right. split; [exact Hc |].
  assert (Hlen : length (drop (Z.to_nat k) s) = size).
  { rewrite length_drop. subst s. rewrite length_app. cbn [length]. lia. }
  exists (take (Z.to_nat k) s), (drop (Z.to_nat k) s), r.
  split; [symmetry; apply take_drop |].
  split; [intros Hnil; rewrite Hnil in Hlen; simpl in Hlen; lia |].
  rewrite Hlen. split; [exact Hdecode | reflexivity].
Qed.

(** A rune of two bytes or more is decoded from its own bytes: what
    follows them does not matter. *)
Lemma decode_app (a R : list byte) (r : Z) :
  utf8_DecodeRuneInString a = (r, length a) -> 2 <= length a ->
  utf8_DecodeRuneInString (a ++ R) = (r, length a)
  /\ (0x80 <= byte_at a 0)%Z.
Proof.
  intros Hdecode Hlen.
  destruct a as [| b0 rest]; [simpl in Hlen; lia |].
  change (byte_at (b0 :: rest) 0) with (byte_to_Z b0).
  destruct (utf8_DecodeRuneInString_cases b0 rest)
    as [(Hs & H) | [(Hs & H) | [(b1 & rest' & -> & Hs & H1 & H)
       | [(b1 & b2 & rest' & -> & Hs & H1 & H2 & HE0 & H)
       | (b1 & b2 & b3 & rest' & -> & Hs & H1 & H2 & H3 & HF0 & H)]]]];
    cbv zeta in *; rewrite ?H in Hdecode;
    injection Hdecode as Hr Hsize; cbn [length] in Hsize, Hlen; try lia;
    (split; [| lia]);
    (destruct rest' as [| ? ?]; [| simpl in Hsize; lia]);
    cbn [app length]; rewrite H, Hr; reflexivity.
Qed.

(** A byte that is followed by nothing, or by the start of a rune, is
    decoded with width 1. *)
Lemma decode_alone (b : byte) (R : list byte) :
  starts_rune R -> snd (utf8_DecodeRuneInString (b :: R)) = 1.
Proof.
  intros HR.
  destruct (utf8_DecodeRuneInString_cases b R)
    as [(Hs & H) | [(Hs & H) | [(b1 & rest' & -> & Hs & H1 & H)
       | [(b1 & b2 & rest' & -> & Hs & H1 & H2 & HE0 & H)
       | (b1 & b2 & b3 & rest' & -> & Hs & H1 & H2 & H3 & HF0 & H)]]]];
    cbv zeta in *; try (rewrite H; reflexivity);
    simpl in HR; contradiction.
Qed.

(** The bytes of [white_space] at their two ends. *)
Lemma white_space_ends (w : list byte) :
  w ∈ white_space ->
  exists c w', w = c :: w' /\ ~ continues c.
Proof.
  unfold white_space. rewrite !elem_of_cons, elem_of_nil. intros Hw.
  repeat (destruct Hw as [-> | Hw]); try contradiction;
    eexists _, _; (split; [reflexivity |]);
    unfold continues; vm_compute; intros (H1 & H2);
    first [apply H1; reflexivity | apply H2; reflexivity].
Qed.

(** A white-space rune has been decoded, backwards, from one of the
    encodings of [white_space]. *)
Lemma decodeLast_space (s : list byte) (r : Z) (size : nat) :
  utf8_DecodeLastRuneInString s = (r, size) ->
  unicode_IsSpace r = true ->
  exists p w, s = p ++ w /\ (w ∈ white_space) /\ size = length w.
Proof.
  intros Hdecode Hspace.
  destruct s as [| c0 s0] using rev_ind;
    [injection Hdecode as <- _; discriminate Hspace |].
  clear IHs0. rename s0 into p, c0 into c.
  destruct (utf8_DecodeLastRuneInString_cases p c)
    as [(Hc & H) | [(Hc & H) | (Hc & p' & a & r' & Hsplit & Ha & Hfwd & H)]];
    rewrite H in Hdecode; injection Hdecode as <- <-.
  - destruct (decode_space [c] (byte_to_Z c) 1) as (w & rest & Hw & Hin & Hlen).
    + pose proof (byte_to_Z_range c).
      destruct (utf8_DecodeRuneInString_cases c [])
        as [(_ & Hd) | [(? & _) | [(? & ? & [=] & _)
           | [(? & ? & ? & [=] & _) | (? & ? & ? & ? & [=] & _)]]]];
        [exact Hd | cbv zeta in *; lia].
    + exact Hspace.
    + destruct w as [| x [| ? ?]]; try discriminate Hlen.
      injection Hw as <- _. exists p, [c]. auto.
  - discriminate Hspace.
  - destruct (decode_space a r' (length a) Hfwd Hspace) as (w & rest & Hw & Hin & Hlen).
    assert (rest = []) as ->.
    { apply (f_equal length) in Hw. rewrite length_app in Hw.
      destruct rest; [reflexivity | simpl in Hw; lia]. }
    rewrite app_nil_r in Hw. subst a.
    exists p', w. auto.
Qed.

(** And each encoding of [white_space] at the end of a string is decoded,
    backwards, to a white-space rune. *)
Lemma decodeLast_white (p w : list byte) :
  w ∈ white_space ->
  exists r, utf8_DecodeLastRuneInString (p ++ w) = (r, length w)
            /\ unicode_IsSpace r = true.
Proof.
  intros Hw.
  destruct (decode_white w [] Hw) as (r & Hdecode & Hspace).
  rewrite app_nil_r in Hdecode.
  exists r. split; [| exact Hspace].
  assert (Hshape :
    (exists c, w = [c] /\ (byte_to_Z c < 0x80)%Z)
    \/ (exists b0 b1, w = [b0; b1] /\ (0x80 <= byte_to_Z b1)%Z
                      /\ utf8_RuneStart (byte_to_Z b0) = true)
    \/ (exists b0 b1 b2, w = [b0; b1; b2] /\ (0x80 <= byte_to_Z b2)%Z
                         /\ utf8_RuneStart (byte_to_Z b1) = false
                         /\ utf8_RuneStart (byte_to_Z b0) = true)).
  { clear - Hw. unfold white_space in Hw.
    rewrite !elem_of_cons, elem_of_nil in Hw.
    repeat (destruct Hw as [-> | Hw]); try contradiction;
      first [ left; eexists; split; [reflexivity | vm_compute; reflexivity]
            | right; left; eexists _, _; split; [reflexivity |];
              split; [vm_compute; discriminate | reflexivity]
            | right; right; eexists _, _, _; split; [reflexivity |];
              split; [vm_compute; discriminate |]; split; reflexivity ]. }
  unfold utf8_DecodeLastRuneInString.
  destruct Hshape as [(c & -> & Hc) | [(b0 & b1 & -> & H1 & Hstart)
                     | (b0 & b1 & b2 & -> & H2 & Hcont & Hstart)]].
  - rewrite length_app. cbn [length].
    destruct (Z.eqb_spec (Z.of_nat (length p + 1)) 0); [lia |].
    replace (Z.to_nat (Z.of_nat (length p + 1) - 1)) with (length p + 0) by lia.
    rewrite byte_at_app. change (byte_at [c] 0) with (byte_to_Z c).
    unfold utf8_RuneSelf. rewrite (proj2 (Z.ltb_lt _ _) Hc).
    destruct (utf8_DecodeRuneInString_cases c [])
      as [(_ & Hd) | [(? & _) | [(? & ? & [=] & _)
         | [(? & ? & ? & [=] & _) | (? & ? & ? & ? & [=] & _)]]]];
      cbv zeta in *; [| lia].
    rewrite Hd in Hdecode. injection Hdecode as <-. reflexivity.
  - rewrite length_app. cbn [length].
    destruct (Z.eqb_spec (Z.of_nat (length p + 2)) 0); [lia |].
    replace (Z.to_nat (Z.of_nat (length p + 2) - 1)) with (length p + 1) by lia.
    rewrite byte_at_app. change (byte_at [b0; b1] 1) with (byte_to_Z b1).
    unfold utf8_RuneSelf. rewrite (proj2 (Z.ltb_ge _ _) H1).
    change (Z.to_nat utf8_UTFMax) with 4. unfold utf8_UTFMax.
    cbn [utf8_back_to_start].
    destruct (Z.ltb_spec (Z.of_nat (length p + 2) - 1 - 1)
                (Z.max (Z.of_nat (length p + 2) - 4) 0)); [lia |].
    replace (Z.to_nat (Z.of_nat (length p + 2) - 1 - 1)) with (length p + 0) by lia.
    rewrite byte_at_app. change (byte_at [b0; b1] 0) with (byte_to_Z b0).
    rewrite Hstart.
    destruct (Z.ltb_spec (Z.of_nat (length p + 2) - 1 - 1) 0); [lia |].
    replace (Z.to_nat (Z.of_nat (length p + 2) - 1 - 1)) with (length p) by lia.
    rewrite drop_app_length, Hdecode. cbn [length].
    destruct (Z.eqb_spec (Z.of_nat (length p + 2) - 1 - 1 + Z.of_nat 2)
                (Z.of_nat (length p + 2))); [reflexivity | lia].
  - rewrite length_app. cbn [length].
    destruct (Z.eqb_spec (Z.of_nat (length p + 3)) 0); [lia |].
    replace (Z.to_nat (Z.of_nat (length p + 3) - 1)) with (length p + 2) by lia.
    rewrite byte_at_app. change (byte_at [b0; b1; b2] 2) with (byte_to_Z b2).
    unfold utf8_RuneSelf. rewrite (proj2 (Z.ltb_ge _ _) H2).
    change (Z.to_nat utf8_UTFMax) with 4. unfold utf8_UTFMax.
    cbn [utf8_back_to_start].
    destruct (Z.ltb_spec (Z.of_nat (length p + 3) - 1 - 1)
                (Z.max (Z.of_nat (length p + 3) - 4) 0)); [lia |].
    replace (Z.to_nat (Z.of_nat (length p + 3) - 1 - 1)) with (length p + 1) by lia.
    rewrite byte_at_app. change (byte_at [b0; b1; b2] 1) with (byte_to_Z b1).
    rewrite Hcont.
    destruct (Z.ltb_spec (Z.of_nat (length p + 3) - 1 - 1 - 1)
                (Z.max (Z.of_nat (length p + 3) - 4) 0)); [lia |].
    replace (Z.to_nat (Z.of_nat (length p + 3) - 1 - 1 - 1)) with (length p + 0) by lia.
    rewrite byte_at_app. change (byte_at [b0; b1; b2] 0) with (byte_to_Z b0).
    rewrite Hstart.
    destruct (Z.ltb_spec (Z.of_nat (length p + 3) - 1 - 1 - 1) 0); [lia |].
    replace (Z.to_nat (Z.of_nat (length p + 3) - 1 - 1 - 1)) with (length p) by lia.
    rewrite drop_app_length, Hdecode. cbn [length].
    destruct (Z.eqb_spec (Z.of_nat (length p + 3) - 1 - 1 - 1 + Z.of_nat 3)
                (Z.of_nat (length p + 3))); [reflexivity | lia].
Qed.

(** The bytes of the rune that [utf8_DecodeLastRuneInString] returns, and
    the width [utf8_DecodeRuneInString] sees at their first byte, whatever
    rune follows. *)
Lemma decodeLast_width (p : list byte) (c : byte) (r : Z) (size : nat) :
  utf8_DecodeLastRuneInString (p ++ [c]) = (r, size) ->
  exists p' a,
    p ++ [c] = p' ++ a /\ length a = size /\ a <> []
    /\ (((byte_at a 0 < 0x80)%Z /\ size = 1)
        \/ ((0x80 <= byte_at a 0)%Z
            /\ forall R, starts_rune R ->
                 snd (utf8_DecodeRuneInString (a ++ R)) = size)).
Proof.
  intros Hdecode.
  destruct (utf8_DecodeLastRuneInString_cases p c)
    as [(Hc & H) | [(Hc & H) | (Hc & p' & a & r' & Hsplit & Ha & Hfwd & H)]];
    rewrite H in Hdecode; injection Hdecode as <- <-.
  - exists p, [c]. repeat split; [discriminate |]. left. auto.
  - exists p, [c]. repeat split; [discriminate |]. right.
    split; [exact Hc |]. intros R HR. apply (decode_alone c R HR).
  - exists p', a. repeat split; [exact Hsplit | exact Ha |]. right.
    destruct (Nat.le_gt_cases 2 (length a)) as [Hlong | Hshort].
    + split; [apply (decode_app a [] r' Hfwd Hlong) |].
      intros R _. destruct (decode_app a R r' Hfwd Hlong) as (-> & _). reflexivity.
    + destruct a as [| x [| ? ?]]; [contradiction | | simpl in Hshort; lia].
      apply app_inj_tail in Hsplit. destruct Hsplit as (_ & <-).
      split; [exact Hc |]. intros R HR. apply (decode_alone c R HR).
Qed.

Lemma decodeLast_size (p : list byte) (c : byte) (r : Z) (size : nat) :
  utf8_DecodeLastRuneInString (p ++ [c]) = (r, size) ->
  1 <= size <= length (p ++ [c]).
Proof.
  intros Hdecode.
  destruct (decodeLast_width p c r size Hdecode) as (p' & a & -> & <- & Ha & _).
  rewrite length_app. destruct a; [contradiction | simpl; lia].
Qed.

Lemma decode_size (b : byte) (rest : list byte) (r : Z) (size : nat) :
  utf8_DecodeRuneInString (b :: rest) = (r, size) ->
  1 <= size <= length (b :: rest).
Proof.
  intros Hdecode.
  destruct (utf8_DecodeRuneInString_cases b rest)
    as [(Hs & H) | [(Hs & H) | [(b1 & rest' & -> & Hs & H1 & H)
       | [(b1 & b2 & rest' & -> & Hs & H1 & H2 & HE0 & H)
       | (b1 & b2 & b3 & rest' & -> & Hs & H1 & H2 & H3 & HF0 & H)]]]];
    cbv zeta in *; rewrite ?H in Hdecode; injection Hdecode as _ <-;
    simpl; lia.
Qed.

(** *** White space *)

Lemma blank_nil : blank [].
Proof. exists []. split; [constructor | reflexivity]. Qed.

Lemma blank_app (s t : list byte) : blank s -> blank t -> blank (s ++ t).
Proof.
  intros (ws1 & H1 & ->) (ws2 & H2 & ->). exists (ws1 ++ ws2).
  split; [apply Forall_app; auto | rewrite concat_app; reflexivity].
Qed.

Lemma blank_one (w : list byte) : w ∈ white_space -> blank w.
Proof.
  intros Hw. exists [w]. split; [constructor; [exact Hw | constructor] |].
  simpl. rewrite app_nil_r. reflexivity.
Qed.

Lemma blank_ascii (l : list byte) :
  Forall (fun c => asciiSpace c = true) l -> blank l.
Proof.
  induction 1 as [| c l Hc _ IH]; [apply blank_nil |].
  change (c :: l) with ([c] ++ l). apply blank_app; [| exact IH].
  apply blank_one. destruct c; try discriminate Hc; in_white_space.
Qed.

Lemma blank_starts_rune (s : list byte) : blank s -> starts_rune s.
Proof.
  intros (ws & Hws & ->). induction Hws as [| w ws Hw _ IH]; [exact I |].
  destruct (white_space_ends w Hw) as (c & w' & -> & Hc). exact Hc.
Qed.

(** The bytes of the encodings: ASCII white space, or not ASCII. *)
Lemma white_space_bytes (w : list byte) :
  w ∈ white_space ->
  w <> []
  /\ Forall (fun c => asciiSpace c = true \/ (0x80 <= byte_to_Z c)%Z) w.
Proof.
  unfold white_space. rewrite !elem_of_cons, elem_of_nil. intros Hw.
  repeat (destruct Hw as [-> | Hw]); try contradiction;
    (split; [discriminate |]);
    repeat (apply List.Forall_cons;
            [first [left; reflexivity | right; vm_compute; discriminate] |]);
    apply List.Forall_nil.
Qed.

(** *** The loops of [strings_TrimLeftFunc] and [strings_TrimRightFunc] *)

(** The range loop: it returns the index of the first rune that is no
    white space, behind nothing but white space; its fuel is enough. *)
Lemma strings_indexFunc_loop_spec (fuel : nat) (s : list byte) : forall i,
  length s - i <= fuel -> i <= length s -> blank (take i s) ->
  match strings_indexFunc_loop fuel s i unicode_IsSpace false with
  | None => blank s
  | Some k =>
      k <= length s /\ blank (take k s)
      /\ unicode_IsSpace (fst (utf8_DecodeRuneInString (drop k s))) = false
  end.
Proof.
  induction fuel as [| fuel IH]; intros i Hfuel Hi Hblank; cbn [strings_indexFunc_loop].
  - rewrite take_ge in Hblank by lia. exact Hblank.
  - destruct (Nat.leb_spec (length s) i) as [Hend | Hin].
    + rewrite take_ge in Hblank by lia. exact Hblank.
    + destruct (utf8_DecodeRuneInString (drop i s)) as [r size] eqn:Hdecode.
      destruct (unicode_IsSpace r) eqn:Hspace; cbn [Bool.eqb].
      * destruct (decode_space _ _ _ Hdecode Hspace) as (w & rest & Hw & Hin' & ->).
        assert (Hlen : length w + length rest = length s - i).
        { apply (f_equal length) in Hw. rewrite length_drop, length_app in Hw. lia. }
        destruct (white_space_bytes w Hin') as (Hne & _).
        assert (0 < length w) by (destruct w; [contradiction | simpl; lia]).
        apply IH; [lia | lia |].
        rewrite <- take_take_drop, Hw, take_app_length.
        apply blank_app; [exact Hblank | apply blank_one; exact Hin'].
      * split; [lia |]. split; [exact Hblank |]. rewrite Hdecode. exact Hspace.
Qed.

Lemma strings_TrimLeftFunc_spec (s : list byte) :
  exists l,
    s = l ++ strings_TrimLeftFunc s unicode_IsSpace /\ blank l
    /\ unicode_IsSpace
         (fst (utf8_DecodeRuneInString (strings_TrimLeftFunc s unicode_IsSpace)))
       = false.
Proof.
  unfold strings_TrimLeftFunc, strings_indexFunc.
  pose proof (strings_indexFunc_loop_spec (length s) s 0) as Hloop.
  destruct (strings_indexFunc_loop (length s) s 0 unicode_IsSpace false) as [k |].
  - destruct Hloop as (Hk & Hblank & Hstop); [lia | lia | apply blank_nil |].
    exists (take k s). split; [symmetry; apply take_drop |]. auto.
  - exists s. rewrite app_nil_r. split; [reflexivity |].
    split; [apply Hloop; [lia | lia | apply blank_nil] | reflexivity].
Qed.

(** The loop of [strings_lastIndexFunc]: it returns the index of the last
    rune that is no white space, before nothing but white space. *)
Lemma strings_lastIndexFunc_loop_spec (fuel : nat) (s : list byte) : forall i,
  i <= fuel -> i <= length s -> blank (drop i s) ->
  match strings_lastIndexFunc_loop fuel s i unicode_IsSpace false with
  | None => blank s
  | Some k =>
      exists j r size,
        k + size = j /\ 0 < j <= length s /\ blank (drop j s)
        /\ utf8_DecodeLastRuneInString (take j s) = (r, size)
        /\ unicode_IsSpace r = false
  end.
Proof.
  induction fuel as [| fuel IH]; intros i Hfuel Hi Hblank;
    cbn [strings_lastIndexFunc_loop].
  - replace i with 0 in Hblank by lia. exact Hblank.
  - destruct (Nat.eqb_spec i 0) as [-> | Hpos]; [exact Hblank |].
    destruct (utf8_DecodeLastRuneInString (take i s)) as [r size] eqn:Hdecode.
    assert (Hsize : 1 <= size <= i).
    { destruct (take i s) as [| c0 t] eqn:Ht using rev_ind.
      - apply (f_equal length) in Ht. rewrite length_take in Ht. simpl in Ht. lia.
      - clear IHt. pose proof (decodeLast_size _ _ _ _ Hdecode) as Hs.
        rewrite <- Ht, length_take in Hs. lia. }
    cbv zeta. destruct (unicode_IsSpace r) eqn:Hspace; cbn [Bool.eqb].
    + destruct (decodeLast_space _ _ _ Hdecode Hspace) as (p & w & Hw & Hin & ->).
      apply IH; [lia | lia |].
      assert (Hp : length p = i - length w).
      { apply (f_equal length) in Hw. rewrite length_take, length_app in Hw. lia. }
      assert (Hs : s = p ++ w ++ drop i s).
      { rewrite app_assoc, <- Hw. symmetry. apply take_drop. }
      rewrite Hs at 1. rewrite <- Hp, drop_app_length.
      apply blank_app; [apply blank_one; exact Hin | exact Hblank].
    + exists i, r, size. split; [lia |]. split; [lia |]. auto.
Qed.

Lemma strings_TrimRightFunc_spec (s : list byte) :
  exists r,
    s = strings_TrimRightFunc s unicode_IsSpace ++ r /\ blank r
    /\ unicode_IsSpace
         (fst (utf8_DecodeLastRuneInString (strings_TrimRightFunc s unicode_IsSpace)))
       = false.
Proof.
  unfold strings_TrimRightFunc, strings_lastIndexFunc.
  pose proof (strings_lastIndexFunc_loop_spec (length s) s (length s)) as Hloop.
  destruct (strings_lastIndexFunc_loop (length s) s (length s) unicode_IsSpace false)
    as [k |].
  - destruct Hloop as (j & r & size & Hk & Hj & Hblank & Hdecode & Hspace);
      [lia | lia | rewrite drop_all; apply blank_nil |].
    enough (Hresult : (if (utf8_RuneSelf <=? byte_at s k)%Z
                       then let '(_, wid) := utf8_DecodeRuneInString (drop k s) in
                            take (k + wid) s
                       else take (k + 1) s) = take j s).
    { rewrite Hresult. exists (drop j s). split; [symmetry; apply take_drop |].
      split; [exact Hblank |]. rewrite Hdecode. exact Hspace. }
    destruct (take j s) as [| c0 t] eqn:Ht using rev_ind.
    { apply (f_equal length) in Ht. rewrite length_take in Ht. simpl in Ht. lia. }
    clear IHt.
    destruct (decodeLast_width _ _ _ _ Hdecode)
      as (p' & a & Hsplit & Hlen & Ha & Hwidth).
    assert (Hp : length p' = k).
    { apply (f_equal length) in Ht. rewrite Hsplit, length_take, length_app in Ht.
      lia. }
    assert (Hs : s = p' ++ a ++ drop j s).
    { rewrite app_assoc, <- Hsplit, <- Ht. symmetry. apply take_drop. }
    assert (Hbyte : byte_at s k = byte_at a 0).
    { rewrite Hs at 1. replace k with (length p' + 0) by lia.
      rewrite byte_at_app. destruct a; [contradiction | reflexivity]. }
    assert (Hdrop : drop k s = a ++ drop j s).
    { rewrite Hs at 1. rewrite <- Hp, drop_app_length. reflexivity. }
    rewrite Hbyte, Hdrop. unfold utf8_RuneSelf.
    destruct Hwidth as [(Hlow & ->) | (Hhigh & Hwid)].
    + rewrite (proj2 (Z.leb_gt _ _)) by lia. rewrite Hk. exact Ht.
    + rewrite (proj2 (Z.leb_le _ _)) by lia.
      specialize (Hwid (drop j s) (blank_starts_rune _ Hblank)).
      destruct (utf8_DecodeRuneInString (a ++ drop j s)) as [r' wid].
      simpl in Hwid. subst wid. rewrite Hk. exact Ht.
  - exists s. split; [rewrite take_0; reflexivity |].
    split; [apply Hloop; [lia | lia | rewrite drop_all; apply blank_nil]
           | rewrite take_0; reflexivity].
Qed.

(** *** [strings_TrimFunc] and [strings_TrimSpace] *)

Lemma no_white_space_first (t : list byte) :
  unicode_IsSpace (fst (utf8_DecodeRuneInString t)) = false ->
  forall w rest, w ∈ white_space -> t <> w ++ rest.
Proof.
  intros Hstop w rest Hw ->.
  destruct (decode_white w rest Hw) as (r & Hdecode & Hspace).
  rewrite Hdecode in Hstop. simpl in Hstop. congruence.
Qed.

Lemma no_white_space_last (t : list byte) :
  unicode_IsSpace (fst (utf8_DecodeLastRuneInString t)) = false ->
  forall w rest, w ∈ white_space -> t <> rest ++ w.
Proof.
  intros Hstop w rest Hw ->.
  destruct (decodeLast_white rest w Hw) as (r & Hdecode & Hspace).
  rewrite Hdecode in Hstop. simpl in Hstop. congruence.
Qed.

Lemma strings_TrimFunc_spec (s : list byte) :
  exists l r,
    s = l ++ strings_TrimFunc s unicode_IsSpace ++ r
    /\ blank l /\ blank r /\ trimmed (strings_TrimFunc s unicode_IsSpace).
Proof.
  unfold strings_TrimFunc.
  destruct (strings_TrimLeftFunc_spec s) as (l & Hs & Hl & Hfirst).
  destruct (strings_TrimRightFunc_spec (strings_TrimLeftFunc s unicode_IsSpace))
    as (r & Ht & Hr & Hlast).
  exists l, r. split; [rewrite <- Ht; exact Hs |].
  split; [exact Hl |]. split; [exact Hr |].
  intros w rest Hw. split.
  - intros Heq. rewrite Heq, <- app_assoc in Ht.
    exact (no_white_space_first _ Hfirst w _ Hw Ht).
  - exact (no_white_space_last _ Hlast w rest Hw).
Qed.

(** The first loop of [strings_TrimSpace]: it passes ASCII white space and
    stops before an ASCII byte that is no white space, at the end, or
    before a byte that is not ASCII. *)
Lemma TrimSpace_start_spec (rest : list byte) : forall start,
  exists l rest',
    rest = l ++ rest'
    /\ Forall (fun c => asciiSpace c = true) l
    /\ ((TrimSpace_start rest start = AtByte (start + length l)
         /\ match rest' with
            | [] => True
            | c :: _ => (byte_to_Z c < 0x80)%Z /\ asciiSpace c = false
            end)
        \/ (TrimSpace_start rest start = NonASCII (start + length l))).
Proof.
  induction rest as [| c rest IH]; intros start; cbn [TrimSpace_start].
  - exists [], []. split; [reflexivity |]. split; [constructor |].
    left. split; [simpl; f_equal; lia | exact I].
  - unfold utf8_RuneSelf.
    destruct (Z.leb_spec 0x80 (byte_to_Z c)) as [Hhigh | Hlow].
    + exists [], (c :: rest). split; [reflexivity |]. split; [constructor |].
      right. simpl. f_equal. lia.
    + destruct (asciiSpace c) eqn:Hc.
      * destruct (IH (S start)) as (l & rest' & -> & Hl & Hstop).
        exists (c :: l), rest'. split; [reflexivity |].
        split; [constructor; assumption |].
        cbn [length]. replace (start + S (length l)) with (S start + length l) by lia.
        exact Hstop.
      * exists [], (c :: rest). split; [reflexivity |]. split; [constructor |].
        left. split; [simpl; f_equal; lia | auto].
Qed.

(** The second loop: from [stop] down, it passes ASCII white space and
    stops at [start], behind an ASCII byte that is no white space, or
    behind a byte that is not ASCII. *)
Lemma TrimSpace_stop_spec (s : list byte) (start : nat) : forall stop,
  start <= stop <= length s ->
  exists j,
    start <= j <= stop
    /\ Forall (fun c => asciiSpace c = true) (take (stop - j) (drop j s))
    /\ ((TrimSpace_stop s start stop = AtByte j
         /\ (j = start
             \/ exists c, s !! (j - 1) = Some c /\ start < j
                          /\ (byte_to_Z c < 0x80)%Z /\ asciiSpace c = false))
        \/ (TrimSpace_stop s start stop = NonASCII j /\ start < j)).
Proof.
  induction stop as [| stop IH]; intros Hstop; cbn [TrimSpace_stop].
  - exists 0. split; [lia |]. split; [rewrite take_0; constructor |].
    left. split; [reflexivity | left; lia].
  - destruct (Nat.leb_spec (S stop) start) as [Hle | Hgt].
    + exists (S stop). split; [lia |].
      split; [rewrite Nat.sub_diag, take_0; constructor |].
      left. split; [reflexivity | left; lia].
    + destruct (s !! stop) as [c |] eqn:Hc;
        [| apply lookup_ge_None in Hc; lia].
      unfold utf8_RuneSelf.
      destruct (Z.leb_spec 0x80 (byte_to_Z c)) as [Hhigh | Hlow].
      * exists (S stop). split; [lia |].
        split; [rewrite Nat.sub_diag, take_0; constructor |].
        right. split; [reflexivity | lia].
      * destruct (asciiSpace c) eqn:Hspace.
        -- destruct IH as (j & Hj & Hspaces & Hresult); [lia |].
           exists j. split; [lia |]. split; [| exact Hresult].
           replace (S stop - j) with ((stop - j) + 1) by lia.
           rewrite <- take_take_drop. apply Forall_app. split; [exact Hspaces |].
           rewrite drop_drop. replace (j + (stop - j)) with stop by lia.
           rewrite (drop_S _ _ _ Hc). cbn [take]. rewrite take_0.
           constructor; [exact Hspace | constructor].
        -- exists (S stop). split; [lia |].
           split; [rewrite Nat.sub_diag, take_0; constructor |].
           left. split; [reflexivity |]. right. exists c.
           replace (S stop - 1) with stop by lia. auto with lia.
Qed.

Lemma ascii_first_not_white (c : byte) (rest : list byte) :
  (byte_to_Z c < 0x80)%Z -> asciiSpace c = false ->
  forall w rest', w ∈ white_space -> c :: rest <> w ++ rest'.
Proof.
  intros Hlow Hc w rest' Hw Heq.
  destruct (white_space_bytes w Hw) as (Hne & Hbytes).
  destruct w as [| x w']; [contradiction |].
  injection Heq as <- _. inversion Hbytes as [| ? ? [Hx | Hx] _]; [congruence | lia].
Qed.

Lemma ascii_last_not_white (p : list byte) (c : byte) :
  (byte_to_Z c < 0x80)%Z -> asciiSpace c = false ->
  forall w rest', w ∈ white_space -> p ++ [c] <> rest' ++ w.
Proof.
  intros Hlow Hc w rest' Hw Heq.
  destruct (white_space_bytes w Hw) as (Hne & Hbytes).
  destruct w as [| x w'] using rev_ind; [contradiction |]. clear IHw'.
  rewrite app_assoc in Heq. apply app_inj_tail in Heq. destruct Heq as (_ & <-).
  apply Forall_app in Hbytes. destruct Hbytes as (_ & Hlast).
  inversion Hlast as [| ? ? [Hx | Hx] _]; [congruence | lia].
Qed.

Lemma white_space_not_nil (w rest : list byte) :
  w ∈ white_space -> [] <> w ++ rest /\ [] <> rest ++ w.
Proof.
  intros Hw. destruct (white_space_bytes w Hw) as (Hne & _).
  destruct w; [contradiction |]. split; [discriminate |].
  destruct rest; discriminate.
Qed.

(** The result of [strings_TrimSpace] is the string without the white
    space of Unicode at its two ends. *)
Lemma strings_TrimSpace_spec (s : list byte) :
  exists l r, s = l ++ strings_TrimSpace s ++ r
              /\ blank l /\ blank r /\ trimmed (strings_TrimSpace s).
Proof.
  unfold strings_TrimSpace.
  destruct (TrimSpace_start_spec s 0)
    as (l & rest' & Hs & Hl & [(Hstart & Hhead) | Hstart]);
    rewrite Hstart; cbn [Nat.add].
  - (* the first loop has stopped at an ASCII byte or at the end *)
    assert (Hrest : drop (length l) s = rest')
      by (rewrite Hs; apply drop_app_length).
    assert (Hlen : length s = length l + length rest')
      by (rewrite Hs; apply length_app).
    destruct (TrimSpace_stop_spec s (length l) (length s))
      as (j & Hj & Hspaces & Hstop); [lia |].
    rewrite take_ge in Hspaces by (rewrite length_drop; lia).
    set (mid := take (j - length l) (drop (length l) s)).
    assert (Hsplit : s = l ++ mid ++ drop j s).
    { rewrite app_assoc. subst mid.
      replace l with (take (length l) s) at 1
        by (rewrite Hs; apply take_app_length).
      rewrite take_take_drop. replace (length l + (j - length l)) with j by lia.
      symmetry. apply take_drop. }
    assert (Hfirst : length l < j ->
              forall w rest, w ∈ white_space -> forall tail, mid ++ tail <> w ++ rest).
    { intros Hlt w rest Hw tail. subst mid. rewrite Hrest.
      destruct rest' as [| c0 rest'']; [simpl in Hlen; lia |].
      destruct Hhead as (Hlow & Hc0).
      replace (j - length l) with (S (j - length l - 1)) by lia. cbn [take app].
      apply ascii_first_not_white; assumption. }
    destruct Hstop as [(Hstop & Hend) | (Hstop & Hlt)]; rewrite Hstop;
      change (take (j - length l) (drop (length l) s)) with mid.
    + exists l, (drop j s). split; [exact Hsplit |].
      split; [apply blank_ascii; exact Hl |].
      split; [apply blank_ascii; exact Hspaces |].
      destruct Hend as [-> | (c & Hc & Hlt & Hlow & Hnot)].
      * subst mid. rewrite Nat.sub_diag, take_0.
        intros w rest Hw. apply white_space_not_nil. exact Hw.
      * intros w rest Hw. split.
        -- specialize (Hfirst Hlt w rest Hw []). rewrite app_nil_r in Hfirst.
           exact Hfirst.
        -- assert (Hmid : exists n, mid = take n (drop (length l) s) ++ [c]).
           { exists (j - length l - 1). subst mid.
             assert (Hn : j - length l = S (j - length l - 1)) by lia.
             rewrite Hn at 1. apply take_S_r. rewrite lookup_drop.
             replace (length l + (j - length l - 1)) with (j - 1) by lia. exact Hc. }
           destruct Hmid as (n & ->). apply ascii_last_not_white; assumption.
    + destruct (strings_TrimRightFunc_spec mid) as (r1 & Hmid & Hr1 & Hlast).
      exists l, (r1 ++ drop j s).
      split; [rewrite (app_assoc _ r1), <- Hmid; exact Hsplit |].
      split; [apply blank_ascii; exact Hl |].
      split; [apply blank_app; [exact Hr1 | apply blank_ascii; exact Hspaces] |].
      intros w rest Hw. split.
      * intros Heq. apply (Hfirst Hlt w (rest ++ r1) Hw []).
        rewrite app_nil_r, app_assoc, <- Heq. exact Hmid.
      * exact (no_white_space_last _ Hlast w rest Hw).
  - (* the first loop has met a byte that is not ASCII *)
    assert (Hrest : drop (length l) s = rest')
      by (rewrite Hs; apply drop_app_length).
    rewrite Hrest.
    destruct (strings_TrimFunc_spec rest') as (l2 & r & Ht & Hl2 & Hr & Htrimmed).
    exists (l ++ l2), r. split; [rewrite <- app_assoc, <- Ht; exact Hs |].
    split; [apply blank_app; [apply blank_ascii; exact Hl | exact Hl2] |].
    split; [exact Hr | exact Htrimmed].
Qed.

(** ** [sendStartTLS] *)

Lemma sendStartTLS_run authMsg respPattern rw :
  can_send rw (length authMsg) -> authMsg <> [] ->
  length authMsg <= defaultBufSize ->
  sendStartTLS authMsg respPattern rw
  = match readLine (after_command authMsg rw) with
    | (Ret line, rw') =>
        if regexp_MatchString respPattern line then (Ret tt, rw')
        else (Fail (rejected line), rw')
    | (Fail e, rw') => (Fail e, rw')
    | (Panic, rw') => (Panic, rw')
    | (Blocked, rw') => (Blocked, rw')
    end.
Proof.
  intros Hsend Hne Hlen. unfold sendStartTLS.
  rewrite (command_then authMsg _ rw Hsend Hne Hlen). unfold bind.
  destruct (readLine (after_command authMsg rw)) as [[line | e | |] rw'];
    try reflexivity.
  destruct (regexp_MatchString respPattern line); reflexivity.
Qed.

(** Every driver ends with its upgrade step. *)
Lemma driver_Handshake_upgrade d rw0 rw :
  before_upgrade d rw0 = (Ret tt, rw) ->
  driver_Handshake d rw0
  = bind (wrapping (upgrade_step_name d) (upgrade_step d)) (fun _ => ret tt) rw.
Proof.
  destruct d; cbn [driver_Handshake before_upgrade Handshake
                     smtp_StartTLSProtocol imap_StartTLSProtocol
                     pop3_StartTLSProtocol ftp_StartTLSProtocol];
    unfold smtpProtocol_Handshake, imapProtocol_Handshake,
      pop3Protocol_Handshake, ftpProtocol_Handshake, upgrade_step, driver_base.
  - unfold bind at 1 2 3.
    destruct (wrapping _ (expectGreeting _) rw0) as [[[] | e | |] rw1];
      try discriminate.
    unfold bind at 1.
    destruct (wrapping _ (sendEHLO _) rw1) as [[[] | e | |] rw2];
      try discriminate.
    intros [= <-]. reflexivity.
  - unfold bind at 1. intros ->. reflexivity.
  - unfold bind at 1. intros ->. reflexivity.
  - unfold bind at 1. intros ->. reflexivity.
Qed.

Lemma upgrade_step_rejected d rw line rw' :
  can_send rw (length (upgrade_command d)) ->
  readLine (after_command (upgrade_command d) rw) = (Ret line, rw') ->
  strings_HasPrefix line (success_prefix d) = false ->
  upgrade_step d rw = (Fail (rejected line), rw')
  /\ sent (conn rw') = sent (conn rw) ++ upgrade_command d.
Proof.
  intros Hsend Hread Hno. unfold upgrade_step.
  destruct (patterns_compile d) as (_ & _ & Hauth).
  destruct (commands_fit d) as (Hne & Hlen).
  rewrite sendStartTLS_run; rewrite ?Hauth; try assumption.
  rewrite Hread, respMsg_prefix, Hno. split; [reflexivity |].
  apply readLine_Ret in Hread. destruct Hread as (_ & _ & _ & Hro & _).
  destruct Hro as (_ & _ & _ & Hsent & _). rewrite Hsent. reflexivity.
Qed.

(** C7: the upgrade step of each of the four line-oriented drivers.  With
    a writer that can send, the command of the driver goes on the wire as
    it is, one line is read, and when the line does not start with the
    success prefix of the driver the step fails with the not-supported
    error, whose text ends in the reply without the white space around it
    (the white space of Unicode, as [strings.TrimSpace] removes it: the
    reply is what is left between two runs of encodings of [white_space],
    and neither begins nor ends with one); it is not the invalid-response
    error.  The driver returns this error wrapped with the name of the
    step, whatever the steps before have read (for SMTP: whatever the
    capability lines were). *)
Theorem upgrade_rejected (d : line_driver) (rw : ReadWriter)
    (line : list byte) (rw' : ReadWriter) :
  can_send rw (length (upgrade_command d)) ->
  readLine (after_command (upgrade_command d) rw) = (Ret line, rw') ->
  strings_HasPrefix line (success_prefix d) = false ->
  let err := fmt_Errorf_w (upgrade_step_name d) (rejected line) [] in
  upgrade_step d rw = (Fail (rejected line), rw')
  /\ sent (conn rw') = sent (conn rw) ++ upgrade_command d
  /\ inbound rw = line ++ inbound rw'
  /\ (forall rw0, before_upgrade d rw0 = (Ret tt, rw) ->
        driver_Handshake d rw0 = (Fail err, rw'))
  /\ errors_Is err ErrStartTLSNotSupported = true
  /\ errors_Is err ErrInvalidResponse = false
  /\ error_text (rejected line)
     = str "STARTTLS not supported by server: " ++ strings_TrimSpace line
  /\ (exists l r, line = l ++ strings_TrimSpace line ++ r
                  /\ blank l /\ blank r /\ trimmed (strings_TrimSpace line)).
Proof.
  intros Hsend Hread Hno err.
  destruct (upgrade_step_rejected d rw line rw' Hsend Hread Hno) as (Hstep & Hsent).
  split; [exact Hstep |]. split; [exact Hsent |].
  split.
  { apply readLine_Ret in Hread. destruct Hread as (_ & _ & Hin & _).
    exact Hin. }
  split.
  { intros rw0 Hbefore. rewrite (driver_Handshake_upgrade d rw0 rw Hbefore).
    unfold bind, wrapping. rewrite Hstep. reflexivity. }
  split; [reflexivity |]. split; [reflexivity |].
  split; [reflexivity |].
  apply strings_TrimSpace_spec.
Qed.

(** A reply that ends in a no-break space (U+00A0) before its line end:
    the space goes with the line end. *)
Example sendStartTLS_trims_no_break_space :
  fst (StartTLS (server [str "220 ready" ++ CRLF;
                         str "500 no" ++ [xc2; xa0] ++ CRLF] Silent) "21")
  = Fail (fmt_Errorf_w (str "ftp: AUTH TLS failed: ")
            (fmt_Errorf_w [] ErrStartTLSNotSupported (str ": 500 no")) []).
Proof. vm_compute. reflexivity. Qed.

(** ** [sendEHLO] *)

Lemma sendEHLO_loop_fuel fuel1 : forall fuel2 rw,
  unread rw < fuel1 -> unread rw < fuel2 ->
  sendEHLO_loop fuel1 rw = sendEHLO_loop fuel2 rw.
Proof.
  induction fuel1 as [| fuel1 IH]; intros fuel2 rw H1 H2; [lia |].
  destruct fuel2 as [| fuel2]; [lia |].
  cbn [sendEHLO_loop]. unfold bind.
  destruct (readLine rw) as [[line | e | |] rw'] eqn:Hread; try reflexivity.
  destruct (negb (strings_HasPrefix line (str "250"))); [reflexivity |].
  destruct (bufio_Buffered rw' =? 0); [reflexivity |].
  apply readLine_Ret in Hread. destruct Hread as (_ & _ & _ & _ & Hless).
  apply IH; lia.
Qed.

(** The loop of the source: [for { line, err := readLine(...); ... }]. *)
Lemma ehlo_replies_unfold rw :
  ehlo_replies rw
  = match readLine rw with
    | (Ret line, rw') =>
        if strings_HasPrefix line (str "250") then
          if bufio_Buffered rw' =? 0 then (Ret tt, rw') else ehlo_replies rw'
        else (Fail (unexpected_EHLO line), rw')
    | (Fail e, rw') => (Fail e, rw')
    | (Panic, rw') => (Panic, rw')
    | (Blocked, rw') => (Blocked, rw')
    end.
Proof.
  unfold ehlo_replies at 1. cbn [sendEHLO_loop]. unfold bind.
  destruct (readLine rw) as [[line | e | |] rw'] eqn:Hread; try reflexivity.
  destruct (strings_HasPrefix line (str "250")); [| reflexivity].
  cbn [negb]. destruct (bufio_Buffered rw' =? 0); [reflexivity |].
  apply readLine_Ret in Hread. destruct Hread as (_ & _ & _ & _ & Hless).
  unfold ehlo_replies. apply sendEHLO_loop_fuel; lia.
Qed.

Lemma sendEHLO_run p rw :
  can_send rw (length ehlo_command) ->
  sendEHLO p rw = ehlo_replies (after_command ehlo_command rw).
Proof.
  intros Hsend. destruct ehlo_command_fits as (Hne & Hlen).
  unfold sendEHLO. apply (command_then ehlo_command _ rw Hsend Hne Hlen).
Qed.

Lemma drains_stream rw lines rw' :
  drains rw lines rw' ->
  inbound rw = concat lines ++ inbound rw' /\ reads_only rw rw'.
Proof.
  induction 1 as [rw | rw line rw1 lines rw2 Hread Hpre Hbuf Hdrains [IHin IHro]].
  - split; [reflexivity | apply reads_only_refl].
  - apply readLine_Ret in Hread. destruct Hread as (_ & _ & Hin & Hro & _).
    split.
    + rewrite Hin, IHin. simpl. rewrite <- app_assoc. reflexivity.
    + eapply reads_only_trans; eassumption.
Qed.

Lemma ehlo_replies_drains rw lines rw' :
  drains rw lines rw' -> ehlo_replies rw = ehlo_replies rw'.
Proof.
  induction 1 as [rw | rw line rw1 lines rw2 Hread Hpre Hbuf Hdrains IH];
    [reflexivity |].
  rewrite ehlo_replies_unfold, Hread, Hpre.
  rewrite (proj2 (Nat.eqb_neq _ _) Hbuf). exact IH.
Qed.

(** The SMTP driver up to the end of the capability loop. *)
Lemma smtp_Handshake_ehlo rw0 rw1 lines rw3 line rw4 :
  expectGreeting (greetMsg (smtp_base newSMTPProtocol)) rw0 = (Ret tt, rw1) ->
  can_send rw1 (length ehlo_command) ->
  drains (after_command ehlo_command rw1) lines rw3 ->
  readLine rw3 = (Ret line, rw4) ->
  sent (conn rw4) = sent (conn rw0) ++ ehlo_command
  /\ sendEHLO newSMTPProtocol rw1
     = (if strings_HasPrefix line (str "250") then
          if bufio_Buffered rw4 =? 0 then (Ret tt, rw4) else ehlo_replies rw4
        else (Fail (unexpected_EHLO line), rw4))
  /\ Handshake newSMTPProtocol rw0
     = bind (wrapping (str "smtp: EHLO failed: ") (sendEHLO newSMTPProtocol))
         (fun _ => bind (wrapping (upgrade_step_name SMTP) (upgrade_step SMTP))
                     (fun _ => ret tt)) rw1.
Proof.
  intros Hgreet Hsend Hdrains Hread.
  split; [| split].
  - destruct (drains_stream _ _ _ Hdrains) as (_ & Hro3).
    pose proof (readLine_Ret _ _ _ Hread) as (_ & _ & _ & Hro4 & _).
    destruct Hro3 as (_ & _ & _ & Hs3 & _). destruct Hro4 as (_ & _ & _ & Hs4 & _).
    rewrite Hs4, Hs3. cbn [after_command conn conn_after_write sent].
    f_equal.
    destruct (expectGreeting_ends _ (S (unread rw0)) rw0 _ _ ltac:(lia) Hgreet)
      as (skipped & rwg & Hskips & (greeting & Hg & _)).
    destruct (skips_stream _ _ _ _ Hskips) as (_ & (_ & _ & _ & Hsg & _)).
    apply readLine_Ret in Hg. destruct Hg as (_ & _ & _ & (_ & _ & _ & Hs1 & _) & _).
    congruence.
  - rewrite (sendEHLO_run _ _ Hsend).
    rewrite (ehlo_replies_drains _ _ _ Hdrains).
    rewrite ehlo_replies_unfold, Hread. reflexivity.
  - cbn [Handshake smtp_StartTLSProtocol]. unfold smtpProtocol_Handshake.
    unfold bind at 1, wrapping at 1. rewrite Hgreet. reflexivity.
Qed.

(** C6: the SMTP driver after the greeting.  The EHLO command is put on
    the wire and reply lines are read.  A line that does not start with
    "250" makes [Handshake] fail with the invalid-response error, the line
    in its text, wrapped as "smtp: EHLO failed", and nothing but EHLO has
    been sent.  Otherwise the loop ends at the first line after which the
    reader has no bytes left in its buffer, and it is then, with only EHLO
    on the wire, that the upgrade step runs. *)
Theorem smtp_capability_loop (rw0 rw1 : ReadWriter) (lines : list (list byte))
    (rw3 : ReadWriter) (line : list byte) (rw4 : ReadWriter) :
  expectGreeting (greetMsg (smtp_base newSMTPProtocol)) rw0 = (Ret tt, rw1) ->
  can_send rw1 (length ehlo_command) ->
  drains (after_command ehlo_command rw1) lines rw3 ->
  readLine rw3 = (Ret line, rw4) ->
  sent (conn rw4) = sent (conn rw0) ++ ehlo_command
  /\ (strings_HasPrefix line (str "250") = false ->
      Handshake newSMTPProtocol rw0
      = (Fail (fmt_Errorf_w (str "smtp: EHLO failed: ") (unexpected_EHLO line) []), rw4)
      /\ errors_Is (fmt_Errorf_w (str "smtp: EHLO failed: ") (unexpected_EHLO line) [])
           ErrInvalidResponse = true
      /\ error_text (unexpected_EHLO line)
         = str "invalid server response: unexpected EHLO response: " ++ line)
  /\ (strings_HasPrefix line (str "250") = true ->
      bufio_Buffered rw4 = 0 ->
      sendEHLO newSMTPProtocol rw1 = (Ret tt, rw4)
      /\ Handshake newSMTPProtocol rw0
         = bind (wrapping (upgrade_step_name SMTP) (upgrade_step SMTP))
             (fun _ => ret tt) rw4).
Proof.
  intros Hgreet Hsend Hdrains Hread.
  destruct (smtp_Handshake_ehlo _ _ _ _ _ _ Hgreet Hsend Hdrains Hread)
    as (Hsent & Hehlo & Hrun).
  split; [exact Hsent |]. split.
  - intros Hpre. rewrite Hpre in Hehlo. rewrite Hrun.
    unfold bind at 1, wrapping at 1. rewrite Hehlo.
    repeat split; reflexivity.
  - intros Hpre Hbuf. rewrite Hpre, Hbuf in Hehlo. cbn [Nat.eqb] in Hehlo.
    split; [exact Hehlo |]. rewrite Hrun.
    unfold bind at 1, wrapping at 1. rewrite Hehlo. reflexivity.
Qed.

Lemma strings_HasPrefix_app s p q :
  strings_HasPrefix s (p ++ q) = true -> strings_HasPrefix s p = true.
Proof.
  revert s. induction p as [| c p IH]; intros s; [destruct s; reflexivity |].
  destruct s as [| x s]; [discriminate |].
  cbn [app strings_HasPrefix]. intros H.
  apply andb_prop in H. destruct H as (-> & H). apply IH. exact H.
Qed.

Lemma HasPrefix_250_continuation line :
  strings_HasPrefix line (str "250-") = true ->
  strings_HasPrefix line (str "250") = true.
Proof. apply (strings_HasPrefix_app line (str "250") (str "-")). Qed.

(** C10: the capability loop ends on an empty buffer, whatever follows
    "250" in the line.  When a continuation line (one that starts with
    "250-") is read and the reader has no bytes left in its buffer,
    [sendEHLO] returns success and the driver goes on to the upgrade step:
    with a writer that can send, the upgrade command is the next thing on
    the wire. *)
Theorem smtp_drain_stops_on_empty_buffer (rw0 rw1 : ReadWriter)
    (lines : list (list byte)) (rw3 : ReadWriter) (line : list byte)
    (rw4 : ReadWriter) :
  expectGreeting (greetMsg (smtp_base newSMTPProtocol)) rw0 = (Ret tt, rw1) ->
  can_send rw1 (length ehlo_command) ->
  drains (after_command ehlo_command rw1) lines rw3 ->
  readLine rw3 = (Ret line, rw4) ->
  strings_HasPrefix line (str "250-") = true ->
  bufio_Buffered rw4 = 0 ->
  sendEHLO newSMTPProtocol rw1 = (Ret tt, rw4)
  /\ Handshake newSMTPProtocol rw0
     = bind (wrapping (upgrade_step_name SMTP) (upgrade_step SMTP))
         (fun _ => ret tt) rw4
  /\ (accepts (conn rw4) (length (upgrade_command SMTP)) ->
      exists r rw5,
        Handshake newSMTPProtocol rw0 = (r, rw5)
        /\ sent (conn rw5)
           = sent (conn rw0) ++ ehlo_command ++ upgrade_command SMTP).
Proof.
  intros Hgreet Hsend Hdrains Hread Hcont Hbuf.
  pose proof (HasPrefix_250_continuation line Hcont) as Hpre.
  destruct (smtp_Handshake_ehlo _ _ _ _ _ _ Hgreet Hsend Hdrains Hread)
    as (Hsent & Hehlo & Hrun).
  rewrite Hpre, Hbuf in Hehlo. cbn [Nat.eqb] in Hehlo.
  assert (Hnext : Handshake newSMTPProtocol rw0
                  = bind (wrapping (upgrade_step_name SMTP) (upgrade_step SMTP))
                      (fun _ => ret tt) rw4).
  { rewrite Hrun. unfold bind at 1, wrapping at 1. rewrite Hehlo. reflexivity. }
  split; [exact Hehlo |]. split; [exact Hnext |].
  intros Hacc.
  assert (Hsend4 : can_send rw4 (length (upgrade_command SMTP))).
  { destruct (drains_stream _ _ _ Hdrains) as (_ & Hro3).
    pose proof (readLine_Ret _ _ _ Hread) as (_ & _ & _ & Hro4 & _).
    destruct Hro3 as (Hb3 & He3 & _). destruct Hro4 as (Hb4 & He4 & _).
    repeat split; [rewrite Hb4, Hb3 | rewrite He4, He3 | exact Hacc]; reflexivity. }
  rewrite Hnext. unfold bind, wrapping, upgrade_step.
  destruct (patterns_compile SMTP) as (_ & _ & Hauth).
  destruct (commands_fit SMTP) as (Hne & Hlen).
  rewrite sendStartTLS_run; rewrite ?Hauth; try assumption.
  destruct (readLine (after_command (upgrade_command SMTP) rw4))
    as [r rw5] eqn:Hreply.
  assert (Hs5 : sent (conn rw5)
                = sent (conn rw0) ++ ehlo_command ++ upgrade_command SMTP).
  { destruct (readLine_spec (after_command (upgrade_command SMTP) rw4))
      as (rw' & Hspec & Hro & _).
    rewrite Hreply in Hspec. injection Hspec as _ <-.
    destruct Hro as (_ & _ & _ & Hs & _). rewrite Hs.
    cbn [after_command conn conn_after_write sent].
    rewrite Hsent, <- app_assoc. reflexivity. }
  destruct r as [reply | e | |].
  - destruct (regexp_MatchString (respMsg (driver_base SMTP)) reply);
      do 2 eexists; (split; [reflexivity | exact Hs5]).
  - do 2 eexists; (split; [reflexivity | exact Hs5]).
  - do 2 eexists; (split; [reflexivity | exact Hs5]).
  - do 2 eexists; (split; [reflexivity | exact Hs5]).
Qed.

(** ** The theorems at work on the scenarios *)

Lemma StartTLS_dispatch_witness :
  StartTLS smtp_success "443" = (Ret tt, smtp_success)
  /\ StartTLS smtp_success "1234"
     = (Fail (fmt_Errorf_w [] ErrUnsupportedProtocol (str ": port 1234")),
        smtp_success).
Proof.
  destruct (StartTLS_dispatch smtp_success)
    as (_ & _ & _ & _ & _ & _ & Hdirect & Hother).
  split.
  - apply Hdirect. apply (bool_decide_unpack _). vm_compute. exact I.
  - apply Hother; apply (bool_decide_unpack _); vm_compute; exact I.
Defined.

Lemma expectGreeting_first_match_witness :
  exists rw2,
    expectGreeting (greetMsg (driver_base FTP)) (bufio_NewReadWriter chatty_ftp)
    = (Ret tt, rw2)
    /\ inbound rw2 = str "x".
Proof.
  destruct (expectGreeting_first_match (greetMsg (driver_base FTP))
              (bufio_NewReadWriter chatty_ftp)) as (_ & _ & _ & Hstream).
  apply (Hstream [str "hello" ++ CRLF] (str "220 ftp ready" ++ CRLF) (str "x")).
  - vm_compute. reflexivity.
  - constructor; [| constructor].
    exists (str "hello" ++ [CR]). split; [reflexivity |].
    apply (bool_decide_unpack _). vm_compute. exact I.
  - constructor; [vm_compute; reflexivity | constructor].
  - exists (str "220 ftp ready" ++ [CR]). split; [reflexivity |].
    apply (bool_decide_unpack _). vm_compute. exact I.
  - vm_compute. reflexivity.
  - vm_compute. reflexivity.
Defined.

Lemma smtp_capability_loop_witness :
  let rw0 := bufio_NewReadWriter smtp_success in
  let rw1 := snd (expectGreeting (greetMsg (smtp_base newSMTPProtocol)) rw0) in
  let rw3 := snd (readLine (after_command ehlo_command rw1)) in
  let rw4 := snd (readLine rw3) in
  sendEHLO newSMTPProtocol rw1 = (Ret tt, rw4)
  /\ sent (conn rw4) = ehlo_command.
Proof.
  intros rw0 rw1 rw3 rw4.
  destruct (smtp_capability_loop rw0 rw1 [str "250-test.test.test" ++ CRLF] rw3
              (str "250 STARTTLS" ++ CRLF) rw4) as (Hsent & _ & Hdone).
  - vm_compute. reflexivity.
  - vm_compute. repeat split.
  - apply (drains_cons _ _ rw3 [] rw3).
    + vm_compute. reflexivity.
    + vm_compute. reflexivity.
    + vm_compute. discriminate.
    + constructor.
  - vm_compute. reflexivity.
  - destruct Hdone as (Hehlo & _); [vm_compute; reflexivity .. |].
    split; [exact Hehlo | exact Hsent].
Defined.

Lemma upgrade_rejected_witness :
  exists e,
    fst (StartTLS smtp_no_starttls "25") = Fail e
    /\ errors_Is e ErrStartTLSNotSupported = true
    /\ errors_Is e ErrInvalidResponse = false.
Proof.
  set (rw0 := bufio_NewReadWriter smtp_no_starttls).
  set (rw := snd (before_upgrade SMTP rw0)).
  set (rw' := snd (readLine (after_command (upgrade_command SMTP) rw))).
  destruct (upgrade_rejected SMTP rw (str "500 Not supported" ++ CRLF) rw')
    as (_ & _ & _ & Hrun & Hyes & Hno & _).
  - vm_compute. repeat split.
  - vm_compute. reflexivity.
  - vm_compute. reflexivity.
  - eexists. split; [| split; [exact Hyes | exact Hno]].
    change (StartTLS smtp_no_starttls "25")
      with (let '(r, rw2) := driver_Handshake SMTP rw0 in (r, conn rw2)).
    rewrite (Hrun rw0); [reflexivity |].
    vm_compute. reflexivity.
Defined.

Lemma smtp_drain_stops_on_empty_buffer_witness :
  exists r rw5,
    Handshake newSMTPProtocol (bufio_NewReadWriter smtp_split_reply) = (r, rw5)
    /\ sent (conn rw5) = ehlo_command ++ upgrade_command SMTP.
Proof.
  set (rw0 := bufio_NewReadWriter smtp_split_reply).
  set (rw1 := snd (expectGreeting (greetMsg (smtp_base newSMTPProtocol)) rw0)).
  set (rw3 := after_command ehlo_command rw1).
  set (rw4 := snd (readLine rw3)).
  destruct (smtp_drain_stops_on_empty_buffer rw0 rw1 [] rw3
              (str "250-mail.example.com" ++ CRLF) rw4) as (_ & _ & Hsent).
  - vm_compute. reflexivity.
  - vm_compute. repeat split.
  - constructor.
  - vm_compute. reflexivity.
  - vm_compute. reflexivity.
  - vm_compute. reflexivity.
  - apply Hsent. vm_compute. exact I.
Defined.

(** The continuation line alone ends the capability loop of
    [smtp_split_reply]; the last capability line is then taken for the reply
    to the upgrade command. *)
Example smtp_split_reply_outcome :
  fst (StartTLS smtp_split_reply "25")
  = Fail (fmt_Errorf_w (str "smtp: STARTTLS failed: ")
            (rejected (str "250 STARTTLS" ++ CRLF)) [])
  /\ error_text (rejected (str "250 STARTTLS" ++ CRLF))
     = str "STARTTLS not supported by server: 250 STARTTLS".
Proof. split; vm_compute; reflexivity. Qed.

(** The outcomes of [readLine] on small scripts: a line that arrives in
    two segments, with the bytes after it left in the buffer; a token that
    fires before the line is complete; a peer that closes in the middle of
    a line; a token that has fired before the call. *)
Example readLine_line :
  readLine (bufio_NewReadWriter (server [str "22"; str "0 ok" ++ CRLF ++ str "250"] Silent))
  = (Ret (str "220 ok" ++ CRLF),
     mkRW (str "250") [] None (mkConn [] Silent [] None)).
Proof. vm_compute. reflexivity. Qed.

Example readLine_cancelled :
  fst (readLine (bufio_NewReadWriter
                   (mkConn (recv (str "220") ++ [Done Canceled]
                              ++ recv (str " ok" ++ CRLF)) Silent [] None)))
  = Fail context_Canceled.
Proof. vm_compute. reflexivity. Qed.

Example readLine_eof :
  fst (readLine (bufio_NewReadWriter (server [str "220 o"] AtEOF))) = Fail io_EOF.
Proof. vm_compute. reflexivity. Qed.

Example readLine_cancelled_on_entry :
  fst (readLine (mkRW (str "220 ok" ++ CRLF) [] None
                   (mkConn [Done DeadlineExceeded] Silent [] None)))
  = Fail context_DeadlineExceeded.
Proof. vm_compute. reflexivity. Qed.

(** ** The scenarios of [starttls_test.go] *)

Example createSSLRequestPacket_bytes :
  createSSLRequestPacket =
  [x20; x00; x00; x01; x00; x8a; x00; x00; xff; xff; xff; x00; x21]
    ++ replicate 23 x00.
Proof. vm_compute. reflexivity. Qed.

Example parse_test_packet :
  parseHandshakePacket
    ([x0a] ++ str "5.7.0" ++ [x00; x01; x02; x03; x04] ++ str "12345678"
       ++ [x00; x00; x00; x08; x21; x02; x00; x00; x00; x08]) = Ret 0x800%Z.
Proof. vm_compute. reflexivity. Qed.

Example parse_empty : parseHandshakePacket [] = Panic.
Proof. vm_compute. reflexivity. Qed.

Example test_ftp_success :
  let '(r, c) := StartTLS (server [str "220 test.test.test server" ++ CRLF;
                                   str "234 ready" ++ CRLF] Silent) "21" in
  r = Ret tt /\ sent c = str "AUTH TLS" ++ CRLF.
Proof. vm_compute. split; reflexivity. Qed.

Example test_smtp_success :
  let '(r, c) := StartTLS (server [str "220 test.test.test server" ++ CRLF;
                                   str "250-test.test.test" ++ CRLF ++ str "250 STARTTLS" ++ CRLF;
                                   str "220 ready for TLS" ++ CRLF] Silent) "25" in
  r = Ret tt /\ sent c = str "EHLO tlstools.com" ++ CRLF ++ str "STARTTLS" ++ CRLF.
Proof. vm_compute. split; reflexivity. Qed.

Example test_imap_success :
  fst (StartTLS (server [str "* OK IMAP server ready" ++ CRLF;
                         str "a001 OK Begin TLS negotiation now" ++ CRLF] Silent) "143")
  = Ret tt.
Proof. vm_compute. reflexivity. Qed.

Example test_pop3_success :
  fst (StartTLS (server [str "+OK POP3 server ready" ++ CRLF;
                         str "+OK Begin TLS negotiation" ++ CRLF] Silent) "110")
  = Ret tt.
Proof. vm_compute. reflexivity. Qed.

Example test_unsupported_protocol :
  exists e, fst (StartTLS (server [] Silent) "1234") = Fail e
            /\ errors_Is e ErrUnsupportedProtocol = true.
Proof. eexists. vm_compute. split; reflexivity. Qed.

Example test_smtp_starttls_not_supported :
  exists e,
    fst (StartTLS (server [str "220 test.test.test server" ++ CRLF;
                           str "250-test.test.test" ++ CRLF ++ str "250 NO-STARTTLS" ++ CRLF;
                           str "500 Not supported" ++ CRLF] Silent) "25") = Fail e
    /\ errors_Is e ErrStartTLSNotSupported = true
    /\ error_text e = str "smtp: STARTTLS failed: STARTTLS not supported by server: 500 Not supported".
Proof. eexists. vm_compute. repeat split; reflexivity. Qed.

Example test_mysql_success :
  let '(r, c) := StartTLS (server [mysql_greeting x08] Silent) "3306" in
  r = Ret tt /\ sent c = createSSLRequestPacket.
Proof. vm_compute. split; reflexivity. Qed.

Example test_mysql_ssl_not_supported :
  exists e,
    StartTLS (server [mysql_greeting x00] Silent) "3306"
    = (Fail e, mkConn [] Silent [] None)
    /\ errors_Is e ErrStartTLSNotSupported = true.
Proof. eexists. vm_compute. split; reflexivity. Qed.

Example test_timeout :
  fst (StartTLS (mkConn (recv (str "220 test.test.test server" ++ CRLF)
                           ++ [Done DeadlineExceeded]) Silent [] None) "25")
  = Fail (fmt_Errorf_w (str "smtp: EHLO failed: ") context_DeadlineExceeded []).
Proof. vm_compute. reflexivity. Qed.

(** * Further properties of the package *)

(** ** The handshake parser *)

(** On a body that is not empty the parser returns: the version error, the
    "too short" error, or flags below [2 ^ 16] read from a body of at least
    18 bytes that starts with the version tag. *)
Lemma parseHandshakePacket_nonempty b rest :
  parseHandshakePacket (b :: rest)
  = Fail (fmt_Errorf (str "mysql: unsupported protocol version: " ++ fmt_d b))
  \/ parseHandshakePacket (b :: rest)
     = Fail (fmt_Errorf (str "mysql: packet too short for capability flags"))
  \/ exists capabilities,
       parseHandshakePacket (b :: rest) = Ret capabilities
       /\ (0 <= capabilities < 2 ^ 16)%Z
       /\ b = x0a /\ 18 <= length (b :: rest).
Proof.
  destruct (Byte.byte_eq_dec b x0a) as [-> | Hb].
  - right. rewrite parseHandshakePacket_offset. cbv zeta.
    set (body := x0a :: rest). set (pos := capability_offset body).
    assert (Hpos : 16 <= pos) by (unfold pos, capability_offset; lia).
    destruct (length body <? pos + 2) eqn:Hlen; [left; reflexivity |].
    right. apply Nat.ltb_ge in Hlen.
    destruct (lookup_lt_is_Some_2 body pos) as [lo Hlo]; [lia |].
    destruct (lookup_lt_is_Some_2 body (pos + 1)) as [hi Hhi]; [lia |].
    unfold index. rewrite Hlo, Hhi. cbn [result_bind].
    rewrite little_endian_16. eexists. split; [reflexivity |].
    pose proof (byte_to_Z_range lo). pose proof (byte_to_Z_range hi).
    split; [lia |]. split; [reflexivity | lia].
  - left. apply parseHandshakePacket_version. exact Hb.
Qed.

(** X1: a body that is not empty and does not start with the version tag
    10 is refused with an error whose text ends in the decimal value of the
    first byte; the error is a plain one, none of the three error values of
    the package is found in it by [errors.Is]. *)
Theorem parseHandshakePacket_refuses_version (b : byte) (rest : list byte) :
  b <> x0a ->
  exists e,
    parseHandshakePacket (b :: rest) = Fail e
    /\ error_text e = str "mysql: unsupported protocol version: " ++ fmt_d b
    /\ is_protocol_error e = false.
Proof.
  intros Hb. eexists. split; [apply parseHandshakePacket_version; exact Hb |].
  split; reflexivity.
Qed.

Lemma parseHandshakePacket_refuses_version_witness :
  exists e,
    parseHandshakePacket [x09; x35; x00] = Fail e
    /\ error_text e = str "mysql: unsupported protocol version: 9".
Proof.
  destruct (parseHandshakePacket_refuses_version x09 [x35; x00]) as (e & He & Ht & _).
  - discriminate.
  - exists e. split; [exact He | exact Ht].
Defined.

(** X2: on a body that is not empty the parser does not panic (every
    index it uses is inside the body), and flags are returned only for a
    body of at least 18 bytes that starts with the version tag; they are
    below [2 ^ 16]: the upper half of the [uint32] is never set. *)
Theorem parseHandshakePacket_bounds (body : list byte) (capabilities : Z) :
  body <> [] ->
  parseHandshakePacket body <> Panic
  /\ (parseHandshakePacket body = Ret capabilities ->
      (0 <= capabilities < 2 ^ 16)%Z
      /\ body !! 0 = Some x0a /\ 18 <= length body).
Proof.
  intros Hbody. destruct body as [| b rest]; [contradiction |].
  destruct (parseHandshakePacket_nonempty b rest)
    as [H | [H | (caps & H & Hrange & -> & Hlen)]]; rewrite H.
  - split; discriminate.
  - split; discriminate.
  - split; [discriminate |]. intros [= <-]. auto.
Qed.

Lemma parseHandshakePacket_bounds_witness :
  (0 <= 0x800 < 2 ^ 16)%Z /\ 18 <= length (drop 4 (mysql_greeting x08)).
Proof.
  destruct (parseHandshakePacket_bounds (drop 4 (mysql_greeting x08)) 0x800%Z)
    as (_ & Hret).
  - discriminate.
  - destruct Hret as (Hrange & _ & Hlen); [vm_compute; reflexivity |].
    split; [exact Hrange | exact Hlen].
Defined.

(** ** The writer, when the connection refuses *)

Lemma bufio_Flush_refused rw n msg :
  werr rw = None -> wfail (conn rw) = Some (n, msg) -> n < length (wbuf rw) ->
  bufio_Flush rw
  = (Fail (net_Error msg),
     mkRW (rbuf rw) (drop n (wbuf rw)) (Some (net_Error msg))
       (mkConn (incoming (conn rw)) (closing (conn rw))
          (sent (conn rw) ++ take n (wbuf rw)) (Some (0, msg)))).
Proof.
  intros Herr Hfail Hn. unfold bufio_Flush, conn_Write. rewrite Herr, Hfail.
  destruct (wbuf rw) as [| x xs] eqn:Hbuf; [simpl in Hn; lia |].
  rewrite (proj2 (Nat.leb_gt _ _)) by exact Hn. reflexivity.
Qed.

(** A command through a fresh writer: it is on the wire and the next step
    runs, or the connection refuses it and the network error comes back. *)
Lemma command_refused {A} (s : list byte) (k : M A) rw n msg :
  fresh_writer rw -> length s <= defaultBufSize ->
  wfail (conn rw) = Some (n, msg) -> n < length s ->
  bind (bufio_WriteString s) (fun _ => bind bufio_Flush (fun _ => k)) rw
  = (Fail (net_Error msg), after_refusal s n msg rw).
Proof.
  intros (Hbuf & Herr) Hlen Hfail Hn. unfold bind.
  rewrite bufio_WriteString_fits;
    [| exact Herr | unfold bufio_Available; rewrite Hbuf; simpl; lia].
  rewrite (bufio_Flush_refused _ n msg);
    [| reflexivity | exact Hfail | cbn [wbuf]; rewrite Hbuf; exact Hn].
  cbn [rbuf wbuf conn]. rewrite Hbuf. reflexivity.
Qed.

(** The two cases together. *)
Lemma command_outcome {A} (s : list byte) (k : M A) rw :
  fresh_writer rw -> s <> [] -> length s <= defaultBufSize ->
  (accepts (conn rw) (length s)
   /\ bind (bufio_WriteString s) (fun _ => bind bufio_Flush (fun _ => k)) rw
      = k (after_command s rw))
  \/ (exists n msg,
        wfail (conn rw) = Some (n, msg) /\ n < length s
        /\ bind (bufio_WriteString s) (fun _ => bind bufio_Flush (fun _ => k)) rw
           = (Fail (net_Error msg), after_refusal s n msg rw)).
Proof.
  intros Hfresh Hne Hlen.
  destruct (wfail (conn rw)) as [[n msg] |] eqn:Hfail.
  - destruct (Nat.le_gt_cases (length s) n) as [Hle | Hgt].
    + left. assert (Hacc : accepts (conn rw) (length s))
        by (unfold accepts; rewrite Hfail; exact Hle).
      split; [exact Hacc |]. apply command_then; [| exact Hne | exact Hlen].
      destruct Hfresh. repeat split; assumption.
    + right. exists n, msg. split; [reflexivity |]. split; [exact Hgt |].
      apply command_refused; assumption.
  - left. assert (Hacc : accepts (conn rw) (length s))
      by (unfold accepts; rewrite Hfail; exact I).
    split; [exact Hacc |]. apply command_then; [| exact Hne | exact Hlen].
    destruct Hfresh. repeat split; assumption.
Qed.

Lemma Write_loop_no_panic fuel : forall p nn rw,
  fst (Write_loop fuel p nn rw) <> Panic.
Proof.
  induction fuel as [| fuel IH]; intros p nn rw; cbn [Write_loop].
  - destruct ((bufio_Available rw <? length p) && bool_decide (werr rw = None));
      [discriminate | destruct (werr rw); discriminate].
  - destruct ((bufio_Available rw <? length p) && bool_decide (werr rw = None)).
    + destruct (wbuf rw); [| apply IH].
      destruct (conn_Write p (conn rw)) as [[n e] c]. apply IH.
    + destruct (werr rw); discriminate.
Qed.

Lemma bufio_Write_no_panic p rw : fst (bufio_Write p rw) <> Panic.
Proof. unfold bufio_Write. apply Write_loop_no_panic. Qed.

Lemma bufio_Flush_no_panic rw : fst (bufio_Flush rw) <> Panic.
Proof.
  unfold bufio_Flush. destruct (werr rw); [discriminate |].
  destruct (wbuf rw); [discriminate |].
  destruct (conn_Write _ _) as [[n [e |]] c]; discriminate.
Qed.

(** ** The MySQL driver, whole *)

Lemma read_packet_no_panic data close : read_packet data close <> Panic.
Proof.
  unfold read_packet.
  destruct (read_exactly 4 data close) as [header | e | |] eqn:Hh;
    try discriminate.
  - apply read_exactly_Ret in Hh. destruct Hh as (Hlen & ->).
    destruct data as [| h0 [| h1 [| h2 [| h3 data]]]]; simpl in Hlen; try lia.
    cbn [take].
    destruct (read_exactly _ _ _) as [body | e | |] eqn:Hb; try discriminate.
    unfold read_exactly in Hb.
    destruct (_ <=? _); [discriminate | destruct close; discriminate].
  - unfold read_exactly in Hh.
    destruct (_ <=? _); [discriminate | destruct close; discriminate].
Qed.

(** The steps of the driver after the packet is read. *)
Lemma mysql_Handshake_steps rw :
  exists rw1,
    reads_only rw rw1
    /\ Handshake newMySQLProtocol rw
       = match read_packet (inbound rw) (closing (conn rw)) with
         | Ret body =>
             match parseHandshakePacket body with
             | Ret capabilities =>
                 if Z.eqb (Z.land capabilities 0x800) 0 then
                   (Fail (fmt_Errorf_w [] ErrStartTLSNotSupported
                            (str ": MySQL server does not support SSL")), rw1)
                 else
                   bind (wrapping (str "mysql: failed to write SSL request: ")
                           (bufio_Write createSSLRequestPacket))
                     (fun _ =>
                        bind (wrapping (str "mysql: failed to flush SSL request: ")
                                bufio_Flush)
                          (fun _ => ret tt)) rw1
             | Fail e => (Fail e, rw1)
             | Panic => (Panic, rw1)
             | Blocked => (Blocked, rw1)
             end
         | Fail e => (Fail e, rw1)
         | Panic => (Panic, rw1)
         | Blocked => (Blocked, rw1)
         end.
Proof.
  destruct (readMySQLPacket_spec newMySQLProtocol rw) as (rw1 & Hread & Hro & _).
  exists rw1. split; [exact Hro |].
  cbn [Handshake mysql_StartTLSProtocol].
  unfold mysqlProtocol_Handshake, bind at 1. rewrite Hread.
  destruct (read_packet (inbound rw) (closing (conn rw))) as [body | e | |];
    try reflexivity.
  unfold bind at 1, lift.
  destruct (parseHandshakePacket body) as [caps | e | |]; try reflexivity.
  change clientSSL with 0x800%Z.
  destruct (Z.eqb (Z.land caps 0x800) 0); reflexivity.
Qed.

(** The SSL request through a fresh writer. *)
Lemma mysql_send_outcome rw :
  fresh_writer rw ->
  (accepts (conn rw) 36
   /\ bind (wrapping (str "mysql: failed to write SSL request: ")
              (bufio_Write createSSLRequestPacket))
        (fun _ => bind (wrapping (str "mysql: failed to flush SSL request: ")
                          bufio_Flush) (fun _ => ret tt)) rw
      = (Ret tt, after_command createSSLRequestPacket rw))
  \/ (exists n msg,
        wfail (conn rw) = Some (n, msg) /\ n < 36
        /\ bind (wrapping (str "mysql: failed to write SSL request: ")
                   (bufio_Write createSSLRequestPacket))
             (fun _ => bind (wrapping (str "mysql: failed to flush SSL request: ")
                               bufio_Flush) (fun _ => ret tt)) rw
           = (Fail (fmt_Errorf_w (str "mysql: failed to flush SSL request: ")
                      (net_Error msg) []),
              after_refusal createSSLRequestPacket n msg rw)).
Proof.
  intros (Hbuf & Herr).
  assert (Hwrite : bufio_Write createSSLRequestPacket rw
                   = (Ret 36, mkRW (rbuf rw) createSSLRequestPacket None (conn rw))).
  { rewrite bufio_Write_fits; [| exact Herr |].
    - rewrite Hbuf, createSSLRequestPacket_length. reflexivity.
    - unfold bufio_Available. rewrite Hbuf, createSSLRequestPacket_length.
      pose proof defaultBufSize_large. simpl. lia. }
  unfold bind, wrapping. rewrite Hwrite.
  destruct (wfail (conn rw)) as [[n msg] |] eqn:Hfail.
  - destruct (Nat.le_gt_cases 36 n) as [Hle | Hgt].
    + left. split; [unfold accepts; rewrite Hfail; exact Hle |].
      rewrite bufio_Flush_accepted;
        [reflexivity | reflexivity
         | cbn [wbuf conn]; rewrite createSSLRequestPacket_length;
           unfold accepts; rewrite Hfail; exact Hle].
    + right. exists n, msg. split; [reflexivity |]. split; [exact Hgt |].
      rewrite (bufio_Flush_refused _ n msg);
        [reflexivity | reflexivity | exact Hfail
         | cbn [wbuf]; rewrite createSSLRequestPacket_length; exact Hgt].
  - left. split; [unfold accepts; rewrite Hfail; exact I |].
    rewrite bufio_Flush_accepted;
      [reflexivity | reflexivity
       | cbn [wbuf conn]; unfold accepts; rewrite Hfail; exact I].
Qed.

(** X3: the MySQL driver panics on exactly one kind of input: a handshake
    packet whose header announces the length 0.  Every other run returns a
    result or blocks on a silent connection. *)
Theorem mysql_Handshake_panics_iff (rw : ReadWriter) :
  fst (Handshake newMySQLProtocol rw) = Panic
  <-> read_packet (inbound rw) (closing (conn rw)) = Ret [].
Proof.
  destruct (mysql_Handshake_steps rw) as (rw1 & _ & ->).
  pose proof (read_packet_no_panic (inbound rw) (closing (conn rw))) as Hnp.
  destruct (read_packet (inbound rw) (closing (conn rw))) as [body | e | |];
    try (split; [discriminate | discriminate]); [| contradiction].
  destruct body as [| b rest].
  - split; reflexivity.
  - split; [| discriminate]. intros Hpanic. exfalso. revert Hpanic.
    destruct (parseHandshakePacket_nonempty b rest)
      as [H | [H | (caps & H & _)]]; rewrite H; try discriminate.
    destruct (Z.eqb (Z.land caps 0x800) 0); [discriminate |].
    unfold bind, wrapping.
    pose proof (bufio_Write_no_panic createSSLRequestPacket rw1) as Hw.
    destruct (bufio_Write createSSLRequestPacket rw1) as [[n | e | |] rw2];
      try discriminate; [| contradiction].
    pose proof (bufio_Flush_no_panic rw2) as Hf.
    destruct (bufio_Flush rw2) as [[[] | e | |] rw3]; try discriminate.
    contradiction.
Qed.

Lemma io_error_not_ctx e why :
  is_io_error e = true -> errors_Is e (ctx_Err why) = false.
Proof.
  induction e; simpl; try discriminate; intros H;
    try (destruct why; reflexivity).
  destruct why; simpl; auto.
Qed.

Lemma StartTLS_mysql c :
  StartTLS c "3306" = negotiate_with newMySQLProtocol c.
Proof. reflexivity. Qed.

(** X4: the MySQL driver does not watch the context.  Whatever it
    returns, the error is never the cancellation error; and while the
    server has sent fewer than the four header bytes and stays silent, the
    call stays blocked, token fired or not. *)
Theorem mysql_ignores_context (c : Conn) :
  (forall e c' why,
     StartTLS c "3306" = (Fail e, c') -> errors_Is e (ctx_Err why) = false)
  /\ (length (script_data (incoming c)) < 4 -> closing c = Silent ->
      fst (StartTLS c "3306") = Blocked).
Proof.
  rewrite StartTLS_mysql. unfold negotiate_with.
  set (rw := bufio_NewReadWriter c).
  destruct (mysql_Handshake_steps rw) as (rw1 & Hro & ->).
  destruct (readMySQLPacket_spec newMySQLProtocol rw) as (_ & _ & _ & _ & Hio).
  assert (Hfresh : fresh_writer rw1).
  { destruct Hro as (Hb & He & _). split; [rewrite Hb | rewrite He]; reflexivity. }
  split.
  - intros e c' why.
    destruct (read_packet (inbound rw) (closing (conn rw))) as [body | e0 | |];
      try discriminate.
    + destruct body as [| b rest]; [discriminate |].
      destruct (parseHandshakePacket_nonempty b rest)
        as [H | [H | (caps & H & _)]]; rewrite H.
      * intros [= <- _]. destruct why; reflexivity.
      * intros [= <- _]. destruct why; reflexivity.
      * destruct (Z.eqb (Z.land caps 0x800) 0).
        -- intros [= <- _]. destruct why; reflexivity.
        -- destruct (mysql_send_outcome rw1 Hfresh)
             as [(_ & ->) | (n & msg & _ & _ & ->)]; [discriminate |].
           intros [= <- _]. destruct why; reflexivity.
    + intros [= <- _]. apply io_error_not_ctx. apply (Hio e0 eq_refl).
  - intros Hshort Hsilent.
    replace (read_packet (inbound rw) (closing (conn rw))) with (@Blocked (list byte));
      [reflexivity |].
    unfold read_packet, read_exactly, inbound. cbn [rw bufio_NewReadWriter rbuf conn app].
    rewrite (proj2 (Nat.leb_gt _ _)) by exact Hshort. rewrite Hsilent. reflexivity.
Qed.

Lemma mysql_ignores_context_witness :
  fst (StartTLS (mkConn (recv [x31; x00] ++ [Done DeadlineExceeded]) Silent [] None)
         "3306") = Blocked.
Proof.
  destruct (mysql_ignores_context
              (mkConn (recv [x31; x00] ++ [Done DeadlineExceeded]) Silent [] None))
    as (_ & Hblocked).
  apply Hblocked; [vm_compute; lia | reflexivity].
Defined.

(** ** The line-oriented drivers *)

(** X5: the patterns of the four drivers, compiled by
    [regexp.MustCompile], are tests for a prefix: a line matches the
    greeting pattern, or the response pattern, exactly when it begins with
    the literal of the table; the same text further inside the line does
    not count. *)
Theorem patterns_are_prefix_tests (d : line_driver) (line : list byte) :
  regexp_MatchString (greetMsg (driver_base d)) line
  = strings_HasPrefix line (greeting_prefix d)
  /\ regexp_MatchString (respMsg (driver_base d)) line
     = strings_HasPrefix line (success_prefix d).
Proof. split; [apply greetMsg_prefix | apply respMsg_prefix]. Qed.

(** X6: the upgrade step that succeeds.  With a writer that can send, the
    command of the driver goes on the wire, one line is read, and when the
    line starts with the success prefix the step and the driver return
    success: exactly the command has been sent and exactly that line has
    been taken from the stream. *)
Theorem upgrade_accepted (d : line_driver) (rw : ReadWriter)
    (line : list byte) (rw' : ReadWriter) :
  can_send rw (length (upgrade_command d)) ->
  readLine (after_command (upgrade_command d) rw) = (Ret line, rw') ->
  strings_HasPrefix line (success_prefix d) = true ->
  upgrade_step d rw = (Ret tt, rw')
  /\ sent (conn rw') = sent (conn rw) ++ upgrade_command d
  /\ inbound rw = line ++ inbound rw'
  /\ (forall rw0, before_upgrade d rw0 = (Ret tt, rw) ->
        driver_Handshake d rw0 = (Ret tt, rw')).
Proof.
  intros Hsend Hread Hyes.
  destruct (patterns_compile d) as (_ & _ & Hauth).
  destruct (commands_fit d) as (Hne & Hlen).
  assert (Hstep : upgrade_step d rw = (Ret tt, rw')).
  { unfold upgrade_step.
    rewrite sendStartTLS_run; rewrite ?Hauth; try assumption.
    rewrite Hread, respMsg_prefix, Hyes. reflexivity. }
  split; [exact Hstep |].
  pose proof (readLine_Ret _ _ _ Hread) as (_ & _ & Hin & Hro & _).
  split; [destruct Hro as (_ & _ & _ & Hsent & _); rewrite Hsent; reflexivity |].
  split; [exact Hin |].
  intros rw0 Hbefore. rewrite (driver_Handshake_upgrade d rw0 rw Hbefore).
  unfold bind, wrapping. rewrite Hstep. reflexivity.
Qed.

Lemma upgrade_accepted_witness :
  upgrade_step FTP
    (mkRW [] [] None (server [str "234 ready" ++ CRLF] Silent))
  = (Ret tt,
     mkRW [] [] None (mkConn [] Silent (str "AUTH TLS" ++ CRLF) None)).
Proof.
  destruct (upgrade_accepted FTP
              (mkRW [] [] None (server [str "234 ready" ++ CRLF] Silent))
              (str "234 ready" ++ CRLF)
              (mkRW [] [] None (mkConn [] Silent (str "AUTH TLS" ++ CRLF) None)))
    as (Hstep & _).
  - vm_compute. repeat split.
  - vm_compute. reflexivity.
  - vm_compute. reflexivity.
  - exact Hstep.
Defined.

(** ** Segments *)

Lemma never_cancelled_readable rw :
  never_cancelled rw -> readable rw = inbound rw.
Proof.
  unfold never_cancelled, readable, inbound. intros Hnever.
  rewrite (script_data_split (incoming (conn rw))), Hnever. simpl.
  rewrite app_nil_r. reflexivity.
Qed.

(** On a script that is never cancelled the outcome of [readLine] is read
    off the stream. *)
Lemma readLine_outcome_never_cancelled rw :
  never_cancelled rw ->
  readLine_outcome rw
  = match first_line (inbound rw) with
    | Some line => Ret line
    | None =>
        match closing (conn rw) with
        | AtEOF => Fail io_EOF
        | Broken msg => Fail (net_Error msg)
        | Silent => Blocked
        end
    end.
Proof.
  intros Hnever. unfold readLine_outcome.
  rewrite (never_cancelled_readable rw Hnever).
  unfold never_cancelled in Hnever. rewrite Hnever.
  destruct (incoming (conn rw)) as [| [b cs | why] evs];
    [reflexivity | reflexivity | discriminate].
Qed.

Lemma readLine_reads_only rw : reads_only rw (snd (readLine rw)).
Proof.
  destruct (readLine_spec rw) as (rw' & -> & Hro & _). exact Hro.
Qed.

Lemma readLine_same_stream rw1 rw2 :
  same_stream rw1 rw2 ->
  fst (readLine rw1) = fst (readLine rw2)
  /\ (forall line, fst (readLine rw1) = Ret line ->
        same_stream (snd (readLine rw1)) (snd (readLine rw2))).
Proof.
  intros (Hn1 & Hn2 & Hin & Hcl).
  destruct (readLine_spec rw1) as (rw1' & Hrun1 & Hro1 & Hfrom1 & Hline1).
  destruct (readLine_spec rw2) as (rw2' & Hrun2 & Hro2 & Hfrom2 & Hline2).
  assert (Hout : readLine_outcome rw1 = readLine_outcome rw2).
  { rewrite !readLine_outcome_never_cancelled by assumption.
    rewrite Hin, Hcl. reflexivity. }
  rewrite Hrun1, Hrun2. cbn [fst snd]. split; [exact Hout |].
  intros line Hline.
  destruct (Hline1 line Hline) as (_ & Hrest1).
  rewrite Hout in Hline. destruct (Hline2 line Hline) as (_ & Hrest2).
  unfold never_cancelled in *.
  assert (Hn1' : from_done (incoming (conn rw1')) = []) by congruence.
  assert (Hn2' : from_done (incoming (conn rw2')) = []) by congruence.
  split; [exact Hn1' |]. split; [exact Hn2' |]. split.
  - rewrite <- (never_cancelled_readable rw1' Hn1').
    rewrite <- (never_cancelled_readable rw2' Hn2').
    rewrite (never_cancelled_readable rw1 Hn1) in Hrest1.
    rewrite (never_cancelled_readable rw2 Hn2) in Hrest2.
    rewrite Hin, Hrest2 in Hrest1. apply app_inv_head in Hrest1.
    symmetry. exact Hrest1.
  - destruct Hro1 as (_ & _ & -> & _). destruct Hro2 as (_ & _ & -> & _).
    exact Hcl.
Qed.

(** X7: without cancellation [readLine] does not depend on the segments
    the bytes arrive in.  Two readers with the same bytes ahead of them and
    the same end of the connection get the same line or the same error,
    and after a line they have the same bytes ahead of them again. *)
Theorem readLine_ignores_segments (rw1 rw2 : ReadWriter) :
  same_stream rw1 rw2 ->
  fst (readLine rw1) = fst (readLine rw2)
  /\ (forall line, fst (readLine rw1) = Ret line ->
        same_stream (snd (readLine rw1)) (snd (readLine rw2))).
Proof. apply readLine_same_stream. Qed.

Lemma readLine_ignores_segments_witness :
  fst (readLine (bufio_NewReadWriter
                   (server [str "22"; str "0 ok" ++ CRLF ++ str "250"] Silent)))
  = fst (readLine (bufio_NewReadWriter
                     (server [str "220 ok" ++ CRLF; str "2"; str "50"] Silent))).
Proof.
  apply readLine_ignores_segments.
  repeat split; vm_compute; reflexivity.
Defined.

Lemma expectGreeting_reads_only pattern rw :
  reads_only rw (snd (expectGreeting pattern rw)).
Proof.
  destruct (expectGreeting pattern rw) as [r rw2] eqn:Hrun.
  destruct (expectGreeting_ends pattern (S (unread rw)) rw r rw2 ltac:(lia) Hrun)
    as (lines & rw1 & Hskips & Hend).
  destruct (skips_stream _ _ _ _ Hskips) as (_ & Hro).
  eapply reads_only_trans; [exact Hro |].
  pose proof (readLine_reads_only rw1) as Hro1.
  destruct r as [[] | e | |]; [destruct Hend as (line & Hend & _) | | |];
    rewrite Hend in Hro1; exact Hro1.
Qed.

Lemma expectGreeting_same_stream pattern n : forall rw1 rw2,
  unread rw1 < n ->
  same_stream rw1 rw2 ->
  fst (expectGreeting pattern rw1) = fst (expectGreeting pattern rw2)
  /\ (fst (expectGreeting pattern rw1) = Ret tt ->
      same_stream (snd (expectGreeting pattern rw1))
        (snd (expectGreeting pattern rw2))).
Proof.
  induction n as [| n IH]; intros rw1 rw2 Hn Hsame; [lia |].
  destruct (readLine_same_stream rw1 rw2 Hsame) as (Hres & Hnext).
  rewrite (expectGreeting_unfold pattern rw1), (expectGreeting_unfold pattern rw2).
  destruct (readLine rw1) as [r1 rw1'] eqn:Hread1.
  destruct (readLine rw2) as [r2 rw2'] eqn:Hread2.
  cbn [fst snd] in Hres, Hnext. subst r2.
  destruct r1 as [line | e | |]; try (split; [reflexivity | discriminate]).
  specialize (Hnext line eq_refl).
  destruct (regexp_MatchString pattern line).
  - split; [reflexivity | intros _; exact Hnext].
  - apply readLine_Ret in Hread1. destruct Hread1 as (_ & _ & _ & _ & Hless).
    apply IH; [lia | exact Hnext].
Qed.

Lemma same_stream_after_command s rw1 rw2 :
  same_stream rw1 rw2 ->
  same_stream (after_command s rw1) (after_command s rw2).
Proof. intros H. exact H. Qed.

(** The upgrade step on two readers with the same stream and two writers
    in the same state. *)
Lemma sendStartTLS_same_stream authMsg respPattern rw1 rw2 :
  authMsg <> [] -> length authMsg <= defaultBufSize ->
  fresh_writer rw1 -> same_writer rw1 rw2 -> same_stream rw1 rw2 ->
  fst (sendStartTLS authMsg respPattern rw1)
  = fst (sendStartTLS authMsg respPattern rw2)
  /\ sent (conn (snd (sendStartTLS authMsg respPattern rw1)))
     = sent (conn (snd (sendStartTLS authMsg respPattern rw2))).
Proof.
  intros Hne Hlen Hfresh1 (Hb & He & Hs & Hf) Hsame.
  assert (Hfresh2 : fresh_writer rw2).
  { destruct Hfresh1 as (H1 & H2). split; congruence. }
  unfold sendStartTLS.
  destruct (command_outcome authMsg
              (bind readLine (fun line =>
                 if negb (regexp_MatchString respPattern line)
                 then fail (rejected line) else ret tt))
              rw1 Hfresh1 Hne Hlen)
    as [(Hacc1 & Hrun1) | (n & msg & Hfail1 & Hn & Hrun1)].
  - assert (Hacc2 : accepts (conn rw2) (length authMsg))
      by (unfold accepts in *; rewrite <- Hf; exact Hacc1).
    assert (Hrun2 := command_then authMsg
              (bind readLine (fun line =>
                 if negb (regexp_MatchString respPattern line)
                 then fail (rejected line) else ret tt))
              rw2 (conj (proj1 Hfresh2) (conj (proj2 Hfresh2) Hacc2)) Hne Hlen).
    unfold rejected in *. rewrite Hrun1, Hrun2. unfold bind.
    destruct (readLine_same_stream _ _ (same_stream_after_command authMsg _ _ Hsame))
      as (Hres & _).
    pose proof (readLine_reads_only (after_command authMsg rw1)) as Hro1.
    pose proof (readLine_reads_only (after_command authMsg rw2)) as Hro2.
    destruct (readLine (after_command authMsg rw1)) as [r1 rw1'].
    destruct (readLine (after_command authMsg rw2)) as [r2 rw2'].
    cbn [fst snd] in *. subst r2.
    assert (Hsent : sent (conn rw1') = sent (conn rw2')).
    { destruct Hro1 as (_ & _ & _ & -> & _). destruct Hro2 as (_ & _ & _ & -> & _).
      cbn [after_command conn conn_after_write sent]. rewrite Hs. reflexivity. }
    destruct r1 as [line | e | |]; cbn [fst snd]; try (split; [reflexivity | exact Hsent]).
    destruct (negb (regexp_MatchString respPattern line));
      (split; [reflexivity | exact Hsent]).
  - assert (Hfail2 : wfail (conn rw2) = Some (n, msg)) by congruence.
    assert (Hrun2 := command_refused authMsg
              (bind readLine (fun line =>
                 if negb (regexp_MatchString respPattern line)
                 then fail (rejected line) else ret tt))
              rw2 n msg Hfresh2 Hlen Hfail2 Hn).
    unfold rejected in *. rewrite Hrun1, Hrun2.
    cbn [fst snd after_refusal conn sent]. rewrite Hs. split; reflexivity.
Qed.

(** A greeting step followed by an upgrade step, as in the IMAP, POP3 and
    FTP drivers. *)
Lemma greet_then_upgrade_same pre1 pre2 greet auth resp rw1 rw2 :
  auth <> [] -> length auth <= defaultBufSize ->
  fresh_writer rw1 -> same_writer rw1 rw2 -> same_stream rw1 rw2 ->
  let run :=
    bind (wrapping pre1 (expectGreeting greet))
      (fun _ => bind (wrapping pre2 (sendStartTLS auth resp)) (fun _ => ret tt)) in
  fst (run rw1) = fst (run rw2)
  /\ sent (conn (snd (run rw1))) = sent (conn (snd (run rw2))).
Proof.
  intros Hne Hlen Hfresh Hwriter Hsame run. subst run.
  unfold bind, wrapping, ret.
  destruct (expectGreeting_same_stream greet (S (unread rw1)) rw1 rw2
              ltac:(lia) Hsame) as (Hres & Hnext).
  pose proof (expectGreeting_reads_only greet rw1) as Hro1.
  pose proof (expectGreeting_reads_only greet rw2) as Hro2.
  destruct (expectGreeting greet rw1) as [r1 rw1'].
  destruct (expectGreeting greet rw2) as [r2 rw2'].
  cbn [fst snd] in *. subst r2.
  destruct Hwriter as (Hb & He & Hs & Hf).
  destruct Hfresh as (Hfb & Hfe).
  destruct Hro1 as (Hb1 & He1 & _ & Hs1 & Hf1).
  destruct Hro2 as (Hb2 & He2 & _ & Hs2 & Hf2).
  assert (Hsent : sent (conn rw1') = sent (conn rw2')) by congruence.
  destruct r1 as [[] | e | |]; cbn [fst snd];
    try (split; [reflexivity | exact Hsent]).
  specialize (Hnext eq_refl).
  destruct (sendStartTLS_same_stream auth resp rw1' rw2' Hne Hlen)
    as (Hres2 & Hsent2); [split; congruence | repeat split; congruence | exact Hnext |].
  destruct (sendStartTLS auth resp rw1') as [q1 rw1''].
  destruct (sendStartTLS auth resp rw2') as [q2 rw2''].
  cbn [fst snd] in *. subst q2.
  destruct q1 as [[] | e | |]; cbn [fst snd]; split; first [reflexivity | exact Hsent2].
Qed.

Lemma same_traffic_wrapped c1 c2 :
  same_traffic c1 c2 ->
  fresh_writer (bufio_NewReadWriter c1)
  /\ same_writer (bufio_NewReadWriter c1) (bufio_NewReadWriter c2)
  /\ same_stream (bufio_NewReadWriter c1) (bufio_NewReadWriter c2).
Proof.
  intros (Hn1 & Hn2 & Hdata & Hcl & Hs & Hf).
  repeat split; try assumption.
Qed.

(** X8: without cancellation the FTP, POP3 and IMAP negotiations do not
    depend on the segments the bytes of the server arrive in.  On two
    connections with the same bytes to come, the same end and the same
    outgoing side, [StartTLS] returns the same result and has sent the same
    bytes. *)
Theorem plain_line_drivers_ignore_segments (c1 c2 : Conn) (port : string) :
  same_traffic c1 c2 ->
  port ∈ plainLinePorts ->
  fst (StartTLS c1 port) = fst (StartTLS c2 port)
  /\ sent (snd (StartTLS c1 port)) = sent (snd (StartTLS c2 port)).
Proof.
  intros Htraffic Hport.
  destruct (same_traffic_wrapped c1 c2 Htraffic) as (Hfresh & Hwriter & Hsame).
  unfold plainLinePorts in Hport. rewrite !elem_of_cons, elem_of_nil in Hport.
  destruct Hport as [-> | [-> | [-> | []]]].
  - destruct (commands_fit FTP) as (Hne & Hlen).
    pose proof (greet_then_upgrade_same (str "ftp: greeting failed: ")
                  (str "ftp: AUTH TLS failed: ")
                  (greetMsg (ftp_base newFTPProtocol))
                  (authMsg (ftp_base newFTPProtocol))
                  (respMsg (ftp_base newFTPProtocol))
                  _ _ Hne Hlen Hfresh Hwriter Hsame) as Hrun.
    cbv zeta in Hrun.
    change (StartTLS c1 "21") with (negotiate_with newFTPProtocol c1).
    change (StartTLS c2 "21") with (negotiate_with newFTPProtocol c2).
    unfold negotiate_with. cbn [Handshake ftp_StartTLSProtocol].
    unfold ftpProtocol_Handshake.
    destruct (bind _ _ (bufio_NewReadWriter c1)) as [r1 rw1'].
    destruct (bind _ _ (bufio_NewReadWriter c2)) as [r2 rw2'].
    exact Hrun.
  - destruct (commands_fit POP3) as (Hne & Hlen).
    pose proof (greet_then_upgrade_same (str "pop3: greeting failed: ")
                  (str "pop3: STARTTLS failed: ")
                  (greetMsg (pop3_base newPOP3Protocol))
                  (authMsg (pop3_base newPOP3Protocol))
                  (respMsg (pop3_base newPOP3Protocol))
                  _ _ Hne Hlen Hfresh Hwriter Hsame) as Hrun.
    cbv zeta in Hrun.
    change (StartTLS c1 "110") with (negotiate_with newPOP3Protocol c1).
    change (StartTLS c2 "110") with (negotiate_with newPOP3Protocol c2).
    unfold negotiate_with. cbn [Handshake pop3_StartTLSProtocol].
    unfold pop3Protocol_Handshake.
    destruct (bind _ _ (bufio_NewReadWriter c1)) as [r1 rw1'].
    destruct (bind _ _ (bufio_NewReadWriter c2)) as [r2 rw2'].
    exact Hrun.
  - destruct (commands_fit IMAP) as (Hne & Hlen).
    pose proof (greet_then_upgrade_same (str "imap: greeting failed: ")
                  (str "imap: STARTTLS failed: ")
                  (greetMsg (imap_base newIMAPProtocol))
                  (authMsg (imap_base newIMAPProtocol))
                  (respMsg (imap_base newIMAPProtocol))
                  _ _ Hne Hlen Hfresh Hwriter Hsame) as Hrun.
    cbv zeta in Hrun.
    change (StartTLS c1 "143") with (negotiate_with newIMAPProtocol c1).
    change (StartTLS c2 "143") with (negotiate_with newIMAPProtocol c2).
    unfold negotiate_with. cbn [Handshake imap_StartTLSProtocol].
    unfold imapProtocol_Handshake.
    destruct (bind _ _ (bufio_NewReadWriter c1)) as [r1 rw1'].
    destruct (bind _ _ (bufio_NewReadWriter c2)) as [r2 rw2'].
    exact Hrun.
Qed.

Lemma plain_line_drivers_ignore_segments_witness :
  fst (StartTLS (server [str "220 ftp" ++ CRLF; str "234 go" ++ CRLF] Silent) "21")
  = fst (StartTLS (server [str "220 f"; str "tp" ++ CRLF ++ str "234 go" ++ CRLF] Silent)
           "21").
Proof.
  apply plain_line_drivers_ignore_segments.
  - repeat split; vm_compute; reflexivity.
  - apply (bool_decide_unpack _). vm_compute. exact I.
Defined.

(** X9: the SMTP negotiation does depend on the segments: what holds
    for FTP, POP3 and IMAP fails on port 25.  Two connections can carry
    the same bytes and end the same way, and [StartTLS] succeeds on the
    one, where the capability reply comes in one segment, and fails on the
    other, where it comes in two. *)
Theorem smtp_depends_on_segments :
  ~ (forall c1 c2 : Conn,
       same_traffic c1 c2 ->
       fst (StartTLS c1 "25") = fst (StartTLS c2 "25")).
Proof.
  intros Hsame.
  assert (Htraffic : same_traffic smtp_joined_reply smtp_split_reply)
    by (repeat split; vm_compute; reflexivity).
  specialize (Hsame smtp_joined_reply smtp_split_reply Htraffic).
  vm_compute in Hsame. discriminate Hsame.
Qed.

(** ** The capability reply in one segment *)

Lemma IndexByte_line delim (s more : list byte) :
  delim ∉ s ->
  bytes_IndexByte ((s ++ [delim]) ++ more) delim = Some (length s).
Proof.
  induction s as [| b s IH]; simpl; intros Hs.
  - assert (E : Byte.eqb delim delim = true)
      by (apply Byte.byte_dec_lb; reflexivity).
    rewrite E. reflexivity.
  - rewrite not_elem_of_cons in Hs. destruct Hs as (Hb & Hs).
    destruct (Byte.eqb b delim) eqn:E;
      [apply Byte.byte_dec_bl in E; congruence |].
    rewrite IH by exact Hs. reflexivity.
Qed.

(** A line that is in the buffer is returned without a read of the
    connection. *)
Lemma readLine_buffered rw line more :
  token_fired (incoming (conn rw)) = false ->
  is_line line -> rbuf rw = line ++ more ->
  readLine rw = (Ret line, set_rbuf more rw).
Proof.
  intros Hfired (s & -> & Hs) Hbuf. unfold readLine.
  assert (Hread : bufio_ReadString LF rw = (Got (s ++ [LF]), set_rbuf more rw)).
  { unfold bufio_ReadString.
    replace (2 * script_bytes (incoming (conn rw)) + 2)
      with (S (2 * script_bytes (incoming (conn rw)) + 1)) by lia.
    cbn [ReadString_loop]. rewrite Hbuf, IndexByte_line by exact Hs.
    replace (S (length s)) with (length (s ++ [LF]))
      by (rewrite length_app; simpl; lia).
    rewrite take_app_length, drop_app_length. reflexivity. }
  rewrite Hread.
  destruct (incoming (conn rw)) as [| [b cs | why] evs];
    [reflexivity | reflexivity | discriminate].
Qed.

(** A segment that fits into the empty buffer is taken whole, and its
    first line is returned. *)
Lemma readLine_segment rw b bs rest line more :
  rbuf rw = [] -> incoming (conn rw) = Recv b bs :: rest ->
  length (b :: bs) <= defaultBufSize ->
  is_line line -> b :: bs = line ++ more ->
  readLine rw
  = (Ret line,
     mkRW more (wbuf rw) (werr rw)
       (mkConn rest (closing (conn rw)) (sent (conn rw)) (wfail (conn rw)))).
Proof.
  intros Hbuf Hscript Hlen (s & -> & Hs) Hdata. unfold readLine. rewrite Hscript.
  unfold bufio_ReadString. rewrite Hscript.
  replace (2 * script_bytes (Recv b bs :: rest) + 2)
    with (S (S (2 * script_bytes (Recv b bs :: rest)))) by lia.
  cbn [ReadString_loop]. rewrite Hbuf. cbn [bytes_IndexByte length].
  rewrite (proj2 (Nat.leb_gt _ _)) by apply defaultBufSize_pos.
  unfold bufio_fill, conn_Read. rewrite Hscript, Hbuf. cbn [length app].
  rewrite Nat.sub_0_r, take_ge, drop_ge by exact Hlen.
  cbn [recv app rbuf wbuf werr conn]. rewrite Hdata.
  rewrite IndexByte_line by exact Hs.
  replace (S (length s)) with (length (s ++ [LF]))
    by (rewrite length_app; simpl; lia).
  rewrite take_app_length, drop_app_length. reflexivity.
Qed.

Lemma is_line_nonempty line : is_line line -> line <> [].
Proof. intros (s & -> & _). destruct s; discriminate. Qed.

(** Lines that are all in the buffer: the loop takes them all and reads
    nothing from the connection. *)
Lemma ehlo_replies_buffered lines : forall rw,
  lines <> [] ->
  Forall is_line lines ->
  Forall (fun l => strings_HasPrefix l (str "250") = true) lines ->
  token_fired (incoming (conn rw)) = false ->
  rbuf rw = concat lines ->
  ehlo_replies rw = (Ret tt, set_rbuf [] rw).
Proof.
  induction lines as [| line lines IH]; intros rw Hne Hlines Hpre Hfired Hbuf;
    [contradiction |].
  inversion Hlines as [| ? ? Hline Hlines']; subst.
  inversion Hpre as [| ? ? Hpre1 Hpre']; subst.
  rewrite ehlo_replies_unfold.
  rewrite (readLine_buffered rw line (concat lines) Hfired Hline Hbuf), Hpre1.
  destruct lines as [| line' lines'].
  - reflexivity.
  - inversion Hlines' as [| ? ? Hline' _]; subst.
    replace (bufio_Buffered (set_rbuf (concat (line' :: lines')) rw) =? 0)
      with false.
    + rewrite (IH (set_rbuf (concat (line' :: lines')) rw));
        [reflexivity | discriminate | assumption | assumption
         | exact Hfired | reflexivity].
    + symmetry. apply Nat.eqb_neq. unfold bufio_Buffered, set_rbuf.
      cbn [rbuf concat]. rewrite length_app.
      pose proof (is_line_nonempty _ Hline'). destruct line'; [contradiction |].
      simpl. lia.
Qed.

(** X10: the capability loop as it is meant to work.  When the whole
    reply, lines that all start with "250", arrives as one segment that
    fits into the buffer, and the token has not fired, [sendEHLO] sends its
    command, takes exactly that segment and returns success: the buffer is
    empty again and the segments behind are untouched. *)
Theorem sendEHLO_reply_in_one_segment (rw : ReadWriter) (b : byte)
    (bs : list byte) (rest : list event) (lines : list (list byte)) :
  can_send rw (length ehlo_command) ->
  rbuf rw = [] ->
  incoming (conn rw) = Recv b bs :: rest ->
  length (b :: bs) <= defaultBufSize ->
  b :: bs = concat lines ->
  Forall is_line lines ->
  Forall (fun l => strings_HasPrefix l (str "250") = true) lines ->
  token_fired rest = false ->
  exists rw',
    sendEHLO newSMTPProtocol rw = (Ret tt, rw')
    /\ rbuf rw' = [] /\ incoming (conn rw') = rest
    /\ sent (conn rw') = sent (conn rw) ++ ehlo_command.
Proof.
  intros Hsend Hbuf Hscript Hlen Hdata Hlines Hpre Hfired.
  rewrite (sendEHLO_run _ _ Hsend).
  destruct lines as [| line lines]; [discriminate |].
  inversion Hlines as [| ? ? Hline Hlines']; subst.
  inversion Hpre as [| ? ? Hpre1 Hpre']; subst.
  rewrite ehlo_replies_unfold.
  rewrite (readLine_segment (after_command ehlo_command rw) b bs rest line
             (concat lines) Hbuf Hscript Hlen Hline Hdata).
  rewrite Hpre1.
  destruct lines as [| line' lines'].
  - eexists. split; [reflexivity |]. repeat split.
  - inversion Hlines' as [| ? ? Hline' _]; subst.
    match goal with
    | |- context [bufio_Buffered ?st =? 0] =>
        replace (bufio_Buffered st =? 0) with false
    end.
    + rewrite (ehlo_replies_buffered (line' :: lines'));
        [| discriminate | assumption | assumption | exact Hfired | reflexivity].
      eexists. split; [reflexivity |]. repeat split.
    + symmetry. apply Nat.eqb_neq. unfold bufio_Buffered.
      cbn [rbuf concat]. rewrite length_app.
      pose proof (is_line_nonempty _ Hline'). destruct line'; [contradiction |].
      simpl. lia.
Qed.

Lemma sendEHLO_reply_in_one_segment_witness :
  exists rw',
    sendEHLO newSMTPProtocol
      (bufio_NewReadWriter
         (server [str "250-test.test.test" ++ CRLF ++ str "250 STARTTLS" ++ CRLF;
                  str "220 ready for TLS" ++ CRLF] Silent))
    = (Ret tt, rw')
    /\ rbuf rw' = []
    /\ incoming (conn rw') = recv (str "220 ready for TLS" ++ CRLF).
Proof.
  destruct (sendEHLO_reply_in_one_segment
              (bufio_NewReadWriter
                 (server [str "250-test.test.test" ++ CRLF ++ str "250 STARTTLS" ++ CRLF;
                          str "220 ready for TLS" ++ CRLF] Silent))
              "2"%byte (tail (str "250-test.test.test" ++ CRLF ++ str "250 STARTTLS" ++ CRLF))
              (recv (str "220 ready for TLS" ++ CRLF))
              [str "250-test.test.test" ++ CRLF; str "250 STARTTLS" ++ CRLF])
    as (rw' & Hrun & Hbuf & Hrest & _).
  - vm_compute. repeat split.
  - reflexivity.
  - reflexivity.
  - apply Nat.leb_le. vm_compute. reflexivity.
  - reflexivity.
  - repeat constructor.
    + exists (str "250-test.test.test" ++ [CR]). split; [reflexivity |].
      apply (bool_decide_unpack _). vm_compute. exact I.
    + exists (str "250 STARTTLS" ++ [CR]). split; [reflexivity |].
      apply (bool_decide_unpack _). vm_compute. exact I.
  - repeat constructor.
  - reflexivity.
  - exists rw'. auto.
Defined.

(** ** The steps of a line-oriented driver, one by one *)

Lemma readLine_Fail rw e rw' :
  readLine rw = (Fail e, rw') -> transport_failure e.
Proof.
  intros Hrun. destruct (readLine_spec rw) as (rw1 & Hspec & _).
  rewrite Hrun in Hspec. injection Hspec as Hout _. revert Hout.
  unfold readLine_outcome, transport_failure.
  destruct (incoming (conn rw)) as [| [b cs | why] evs].
  - destruct (first_line (readable rw)); [discriminate |]. cbn [from_done].
    destruct (closing (conn rw)); intros [= ->]; eauto.
  - destruct (first_line (readable rw)); [discriminate |].
    destruct (from_done (Recv b cs :: evs)) as [| [b' cs' | why] evs'];
      try (destruct (closing (conn rw))); intros [= ->]; eauto.
  - intros [= ->]. eauto.
Qed.

Lemma readLine_no_panic rw rw' : readLine rw <> (Panic, rw').
Proof.
  intros Hrun. destruct (readLine_spec rw) as (rw1 & Hspec & _).
  rewrite Hrun in Hspec. injection Hspec as Hout _. revert Hout.
  unfold readLine_outcome.
  destruct (incoming (conn rw)) as [| [b cs | why] evs]; try discriminate;
    destruct (first_line (readable rw)); try discriminate;
    destruct (from_done _) as [| [b' cs' | why'] evs'];
    try discriminate; destruct (closing (conn rw)); discriminate.
Qed.

Lemma skips_lines pattern rw lines rw' :
  skips pattern rw lines rw' ->
  Forall (fun l => regexp_MatchString pattern l = false) lines.
Proof. induction 1; constructor; assumption. Qed.

Lemma drains_lines rw lines rw' :
  drains rw lines rw' ->
  Forall (fun l => strings_HasPrefix l (str "250") = true) lines.
Proof. induction 1; constructor; assumption. Qed.

(** The greeting step. *)
Lemma expectGreeting_outcome pattern rw r rw' :
  expectGreeting pattern rw = (r, rw') ->
  reads_only rw rw'
  /\ match r with
     | Ret _ =>
         exists skipped greeting,
           Forall (fun l => regexp_MatchString pattern l = false) skipped
           /\ regexp_MatchString pattern greeting = true
           /\ inbound rw = concat skipped ++ greeting ++ inbound rw'
     | Fail e => transport_failure e
     | Panic => False
     | Blocked => True
     end.
Proof.
  intros Hrun.
  split; [pose proof (expectGreeting_reads_only pattern rw) as H;
          rewrite Hrun in H; exact H |].
  destruct (expectGreeting_ends pattern (S (unread rw)) rw r rw' ltac:(lia) Hrun)
    as (lines & rw1 & Hskips & Hend).
  destruct (skips_stream _ _ _ _ Hskips) as (Hin & _).
  destruct r as [[] | e | |].
  - destruct Hend as (line & Hread & Hmatch).
    exists lines, line. split; [eapply skips_lines; exact Hskips |].
    split; [exact Hmatch |].
    apply readLine_Ret in Hread. destruct Hread as (_ & _ & Hin1 & _).
    rewrite Hin, Hin1. reflexivity.
  - eapply readLine_Fail. exact Hend.
  - eapply readLine_no_panic. exact Hend.
  - exact I.
Qed.

(** Every run of the capability loop ends in the read that stops it. *)
Lemma ehlo_replies_ends n : forall rw r rw2,
  unread rw < n ->
  ehlo_replies rw = (r, rw2) ->
  exists lines rw1,
    drains rw lines rw1
    /\ match r with
       | Ret _ => exists line, readLine rw1 = (Ret line, rw2)
                               /\ strings_HasPrefix line (str "250") = true
                               /\ bufio_Buffered rw2 = 0
       | Fail e =>
           readLine rw1 = (Fail e, rw2)
           \/ exists line, readLine rw1 = (Ret line, rw2)
                           /\ strings_HasPrefix line (str "250") = false
                           /\ e = unexpected_EHLO line
       | Blocked => readLine rw1 = (Blocked, rw2)
       | Panic => readLine rw1 = (Panic, rw2)
       end.
Proof.
  induction n as [| n IH]; intros rw r rw2 Hn; [lia |].
  rewrite ehlo_replies_unfold.
  destruct (readLine rw) as [[line | e | |] rw'] eqn:Hread.
  - destruct (strings_HasPrefix line (str "250")) eqn:Hpre.
    + destruct (bufio_Buffered rw' =? 0) eqn:Hbuf.
      * intros [= <- <-]. exists [], rw. split; [constructor |].
        apply Nat.eqb_eq in Hbuf. eauto.
      * intros Hrun. apply Nat.eqb_neq in Hbuf.
        pose proof (readLine_Ret _ _ _ Hread) as (_ & _ & _ & _ & Hless).
        destruct (IH rw' r rw2 ltac:(lia) Hrun) as (lines & rw1 & Hdrains & Hend).
        exists (line :: lines), rw1. split; [| exact Hend].
        econstructor; eassumption.
    + intros [= <- <-]. exists [], rw. split; [constructor |].
      right. exists line. auto.
  - intros [= <- <-]. exists [], rw. split; [constructor | left; exact Hread].
  - intros [= <- <-]. exists [], rw. split; [constructor | exact Hread].
  - intros [= <- <-]. exists [], rw. split; [constructor | exact Hread].
Qed.

Lemma fresh_writer_reads_only rw rw' :
  reads_only rw rw' -> fresh_writer rw -> fresh_writer rw'.
Proof.
  intros (Hb & He & _) (? & ?). split; congruence.
Qed.

(** The capability step of SMTP through a fresh writer. *)
Lemma sendEHLO_outcome p rw r rw' :
  fresh_writer rw ->
  sendEHLO p rw = (r, rw') ->
  match r with
  | Ret _ =>
      fresh_writer rw'
      /\ sent (conn rw') = sent (conn rw) ++ ehlo_command
      /\ exists replies,
           replies <> []
           /\ Forall (fun l => strings_HasPrefix l (str "250") = true) replies
           /\ inbound rw = concat replies ++ inbound rw'
  | Fail e =>
      transport_failure e
      \/ exists line, strings_HasPrefix line (str "250") = false
                      /\ e = unexpected_EHLO line
  | Panic => False
  | Blocked => True
  end.
Proof.
  intros Hfresh. destruct ehlo_command_fits as (Hne & Hlen).
  unfold sendEHLO. change (str "EHLO tlstools.com" ++ CRLF) with ehlo_command.
  destruct (command_outcome ehlo_command
              (fun rw0 => sendEHLO_loop (S (unread rw0)) rw0) rw Hfresh Hne Hlen)
    as [(_ & ->) | (n & msg & _ & _ & ->)].
  - change (sendEHLO_loop (S (unread (after_command ehlo_command rw)))
              (after_command ehlo_command rw))
      with (ehlo_replies (after_command ehlo_command rw)).
    intros Hrun.
    destruct (ehlo_replies_ends (S (unread (after_command ehlo_command rw)))
                (after_command ehlo_command rw) r rw' (Nat.lt_succ_diag_r _) Hrun)
      as (lines & rw1 & Hdrains & Hend).
    destruct (drains_stream _ _ _ Hdrains) as (Hin & Hro).
    destruct r as [[] | e | |].
    + destruct Hend as (line & Hread & Hpre & _).
      pose proof (readLine_Ret _ _ _ Hread) as (_ & _ & Hin1 & Hro1 & _).
      pose proof (reads_only_trans _ _ _ Hro Hro1) as Hro2.
      split; [apply (fresh_writer_reads_only _ _ Hro2); split; reflexivity |].
      split; [destruct Hro2 as (_ & _ & _ & -> & _); reflexivity |].
      exists (lines ++ [line]). split; [destruct lines; discriminate |].
      split; [apply Forall_app; split;
              [eapply drains_lines; exact Hdrains | repeat constructor; exact Hpre] |].
      change (inbound rw) with (inbound (after_command ehlo_command rw)).
      rewrite Hin, Hin1, concat_app. simpl. rewrite app_nil_r, <- app_assoc.
      reflexivity.
    + destruct Hend as [Hread | (line & _ & Hpre & ->)].
      * left. eapply readLine_Fail. exact Hread.
      * right. exists line. auto.
    + eapply readLine_no_panic. exact Hend.
    + exact I.
  - intros [= <- <-]. left. right. right. eauto.
Qed.

(** The upgrade step through a fresh writer. *)
Lemma sendStartTLS_outcome authMsg respPattern rw r rw' :
  fresh_writer rw -> authMsg <> [] -> length authMsg <= defaultBufSize ->
  sendStartTLS authMsg respPattern rw = (r, rw') ->
  match r with
  | Ret _ =>
      sent (conn rw') = sent (conn rw) ++ authMsg
      /\ exists reply,
           regexp_MatchString respPattern reply = true
           /\ inbound rw = reply ++ inbound rw'
  | Fail e =>
      transport_failure e
      \/ exists reply, regexp_MatchString respPattern reply = false
                       /\ e = rejected reply
  | Panic => False
  | Blocked => True
  end.
Proof.
  intros Hfresh Hne Hlen. unfold sendStartTLS.
  destruct (command_outcome authMsg
              (bind readLine (fun line =>
                 if negb (regexp_MatchString respPattern line)
                 then fail (fmt_Errorf_w [] ErrStartTLSNotSupported
                              (str ": " ++ strings_TrimSpace line))
                 else ret tt)) rw Hfresh Hne Hlen)
    as [(_ & ->) | (n & msg & _ & _ & ->)].
  - unfold bind.
    destruct (readLine (after_command authMsg rw)) as [[line | e | |] rw1] eqn:Hread.
    + pose proof (readLine_Ret _ _ _ Hread) as (_ & _ & Hin & Hro & _).
      destruct (regexp_MatchString respPattern line) eqn:Hmatch; cbn [negb].
      * intros [= <- <-]. split.
        -- destruct Hro as (_ & _ & _ & -> & _). reflexivity.
        -- exists line. split; [exact Hmatch | exact Hin].
      * intros [= <- <-]. right. exists line. split; [exact Hmatch | reflexivity].
    + intros [= <- <-]. left. eapply readLine_Fail. exact Hread.
    + intros _. exfalso. eapply readLine_no_panic. exact Hread.
    + intros [= <- <-]. exact I.
  - intros [= <- <-]. left. right. right. eauto.
Qed.

(** ** The line-oriented drivers, whole *)

Lemma driver_Handshake_phases d rw0 :
  driver_Handshake d rw0
  = match wrapping (greeting_step_name d)
            (expectGreeting (greetMsg (driver_base d))) rw0 with
    | (Ret _, rw1) =>
        match capability_step d rw1 with
        | (Ret _, rw2) =>
            match wrapping (upgrade_step_name d) (upgrade_step d) rw2 with
            | (Ret _, rw3) => (Ret tt, rw3)
            | (Fail e, rw3) => (Fail e, rw3)
            | (Panic, rw3) => (Panic, rw3)
            | (Blocked, rw3) => (Blocked, rw3)
            end
        | (Fail e, rw2) => (Fail e, rw2)
        | (Panic, rw2) => (Panic, rw2)
        | (Blocked, rw2) => (Blocked, rw2)
        end
    | (Fail e, rw1) => (Fail e, rw1)
    | (Panic, rw1) => (Panic, rw1)
    | (Blocked, rw1) => (Blocked, rw1)
    end.
Proof.
  destruct d; cbn [driver_Handshake Handshake capability_step
                     smtp_StartTLSProtocol imap_StartTLSProtocol
                     pop3_StartTLSProtocol ftp_StartTLSProtocol];
    unfold smtpProtocol_Handshake, imapProtocol_Handshake,
      pop3Protocol_Handshake, ftpProtocol_Handshake, upgrade_step, driver_base,
      greeting_step_name, upgrade_step_name, ehlo_step_name, bind, ret;
    repeat match goal with
           | |- context [match ?m ?rw with _ => _ end] =>
               lazymatch m with
               | wrapping _ _ => destruct (m rw) as [[[] | ? | |] ?]
               end
           end; reflexivity.
Qed.

Lemma capability_step_outcome d rw r rw' :
  fresh_writer rw ->
  capability_step d rw = (r, rw') ->
  match r with
  | Ret _ =>
      fresh_writer rw'
      /\ sent (conn rw') = sent (conn rw) ++ capability_command d
      /\ exists replies,
           capability_lines d replies
           /\ inbound rw = concat replies ++ inbound rw'
  | Fail e =>
      d = SMTP
      /\ exists cause,
           e = fmt_Errorf_w ehlo_step_name cause []
           /\ (transport_failure cause
               \/ exists line, strings_HasPrefix line (str "250") = false
                               /\ cause = unexpected_EHLO line)
  | Panic => False
  | Blocked => True
  end.
Proof.
  intros Hfresh. destruct d; cbn [capability_step capability_command capability_lines];
    try (unfold ret; intros [= <- <-]; split; [exact Hfresh |];
         split; [rewrite app_nil_r; reflexivity |];
         exists []; split; reflexivity).
  unfold wrapping.
  destruct (sendEHLO newSMTPProtocol rw) as [q rw1] eqn:Hrun.
  pose proof (sendEHLO_outcome _ _ _ _ Hfresh Hrun) as Hout.
  destruct q as [[] | e | |]; intros [= <- <-].
  - destruct Hout as (Hf & Hs & replies & Hne & Hall & Hin).
    split; [exact Hf |]. split; [exact Hs |]. exists replies. auto.
  - split; [reflexivity |]. exists e. auto.
  - exact Hout.
  - exact I.
Qed.

Lemma driver_Handshake_outcome d rw0 r rw' :
  fresh_writer rw0 ->
  driver_Handshake d rw0 = (r, rw') ->
  match r with
  | Ret _ => negotiated d rw0 rw'
  | Fail e => step_failure d rw0 rw' e
  | Panic => False
  | Blocked => True
  end.
Proof.
  intros Hfresh. rewrite driver_Handshake_phases. unfold wrapping at 1.
  destruct (expectGreeting (greetMsg (driver_base d)) rw0) as [r1 rw1] eqn:Hg.
  destruct (expectGreeting_outcome _ _ _ _ Hg) as (Hro1 & Hout1).
  pose proof (fresh_writer_reads_only _ _ Hro1 Hfresh) as Hfresh1.
  destruct r1 as [[] | e1 | |].
  - destruct Hout1 as (skipped & greeting & Hskipped & Hgreeting & Hin1).
    rewrite greetMsg_prefix in Hgreeting.
    assert (Hskipped' : Forall (fun l => strings_HasPrefix l (greeting_prefix d) = false)
                          skipped).
    { eapply Forall_impl; [exact Hskipped |]. intros l Hl. cbn beta in Hl |- *.
      rewrite <- greetMsg_prefix. exact Hl. }
    destruct (capability_step d rw1) as [r2 rw2] eqn:Hc.
    pose proof (capability_step_outcome _ _ _ _ Hfresh1 Hc) as Hout2.
    destruct r2 as [[] | e2 | |].
    + destruct Hout2 as (Hfresh2 & Hsent2 & replies & Hreplies & Hin2).
      unfold wrapping, upgrade_step.
      destruct (patterns_compile d) as (_ & _ & Hauth).
      destruct (commands_fit d) as (Hne & Hlen). rewrite <- Hauth in Hne, Hlen.
      destruct (sendStartTLS (authMsg (driver_base d)) (respMsg (driver_base d)) rw2)
        as [r3 rw3] eqn:Hu.
      pose proof (sendStartTLS_outcome _ _ _ _ _ Hfresh2 Hne Hlen Hu) as Hout3.
      destruct r3 as [[] | e3 | |]; intros [= <- <-].
      * destruct Hout3 as (Hsent3 & reply & Hreply & Hin3).
        rewrite respMsg_prefix in Hreply.
        exists skipped, greeting, replies, reply.
        repeat (split; [assumption |]).
        split; [rewrite Hin1, Hin2, Hin3; reflexivity |].
        rewrite Hsent3, Hsent2, Hauth.
        destruct Hro1 as (_ & _ & _ & -> & _).
        destruct d; cbn [capability_command commands_of];
          rewrite <- ?app_assoc, ?app_nil_r; reflexivity.
      * exists (upgrade_step_name d), e3. split; [reflexivity |].
        right. right. split; [reflexivity |].
        destruct Hout3 as [Ht | (reply & Hreply & ->)]; [left; exact Ht |].
        right. exists reply. rewrite respMsg_prefix in Hreply. auto.
      * exact Hout3.
      * exact I.
    + intros [= <- <-]. destruct Hout2 as (-> & cause & -> & Hcause).
      exists ehlo_step_name, cause. split; [reflexivity |].
      right. left. auto.
    + destruct Hout2.
    + intros [= <- <-]. exact I.
  - intros [= <- <-]. exists (greeting_step_name d), e1. split; [reflexivity |].
    left. split; [reflexivity |]. split; [exact Hout1 |].
    destruct Hro1 as (_ & _ & _ & -> & _). reflexivity.
  - destruct Hout1.
  - intros [= <- <-]. exact I.
Qed.



(** X12: a line-oriented driver never panics, and each of its failures is
    one cause wrapped with the name of the step that failed: a failure of
    the transport or the cancellation error, under any step; the
    invalid-response error with the offending line, under the EHLO step of
    SMTP; the not-supported error with the trimmed reply, under the upgrade
    step.  A failure of the greeting step leaves nothing sent. *)
Theorem line_driver_failures (d : line_driver) (rw0 : ReadWriter)
    (r : result unit) (rw' : ReadWriter) :
  fresh_writer rw0 ->
  driver_Handshake d rw0 = (r, rw') ->
  r <> Panic /\ (forall e, r = Fail e -> step_failure d rw0 rw' e).
Proof.
  intros Hfresh Hrun.
  pose proof (driver_Handshake_outcome d rw0 r rw' Hfresh Hrun) as Hout.
  split.
  - intros ->. exact Hout.
  - intros e ->. exact Hout.
Qed.

Lemma line_driver_failures_witness :
  step_failure SMTP
    (bufio_NewReadWriter
       (mkConn (recv (str "220 test.test.test server" ++ CRLF)
                  ++ [Done DeadlineExceeded]) Silent [] None))
    (snd (driver_Handshake SMTP
            (bufio_NewReadWriter
               (mkConn (recv (str "220 test.test.test server" ++ CRLF)
                          ++ [Done DeadlineExceeded]) Silent [] None))))
    (fmt_Errorf_w (str "smtp: EHLO failed: ") context_DeadlineExceeded []).
Proof.
  destruct (line_driver_failures SMTP
              (bufio_NewReadWriter
                 (mkConn (recv (str "220 test.test.test server" ++ CRLF)
                            ++ [Done DeadlineExceeded]) Silent [] None))
              (Fail (fmt_Errorf_w (str "smtp: EHLO failed: ")
                       context_DeadlineExceeded []))
              (snd (driver_Handshake SMTP
                      (bufio_NewReadWriter
                         (mkConn (recv (str "220 test.test.test server" ++ CRLF)
                                    ++ [Done DeadlineExceeded]) Silent [] None)))))
    as (_ & Hfail).
  - split; reflexivity.
  - vm_compute. reflexivity.
  - apply Hfail. reflexivity.
Defined.

(** ** The MySQL driver, whole *)

Lemma mysql_StartTLS_outcome c r c' :
  StartTLS c "3306" = (r, c') ->
  match r with
  | Ret _ => mysql_negotiated c c'
  | Fail e => mysql_failure c c' e
  | Panic => read_packet (script_data (incoming c)) (closing c) = Ret []
  | Blocked => True
  end.
Proof.
  rewrite StartTLS_mysql. unfold negotiate_with.
  set (rw := bufio_NewReadWriter c).
  destruct (mysql_Handshake_steps rw) as (rw1 & Hro & ->).
  destruct (readMySQLPacket_spec newMySQLProtocol rw) as (_ & _ & _ & _ & Hio).
  assert (Hfresh : fresh_writer rw1).
  { destruct Hro as (Hb & He & _). split; [rewrite Hb | rewrite He]; reflexivity. }
  assert (Hsent : sent (conn rw1) = sent c) by (destruct Hro as (_ & _ & _ & -> & _); reflexivity).
  assert (Hwfail : wfail (conn rw1) = wfail c) by (destruct Hro as (_ & _ & _ & _ & ->); reflexivity).
  change (inbound rw) with (script_data (incoming c)) in *.
  change (closing (conn rw)) with (closing c) in *.
  pose proof (read_packet_no_panic (script_data (incoming c)) (closing c)) as Hnp.
  destruct (read_packet (script_data (incoming c)) (closing c)) as [body | e0 | |] eqn:Hread.
  - destruct body as [| b rest].
    { intros [= <- _]. reflexivity. }
    destruct (parseHandshakePacket_nonempty b rest)
      as [H | [H | (caps & H & _)]]; rewrite H.
    + intros [= <- <-]. right. left. exists (b :: rest).
      repeat split; first [assumption | reflexivity].
    + intros [= <- <-]. right. left. exists (b :: rest).
      repeat split; first [assumption | reflexivity].
    + destruct (Z.eqb (Z.land caps 0x800) 0) eqn:Hbit.
      * intros [= <- <-]. right. right. left. exists (b :: rest), caps.
        apply Z.eqb_eq in Hbit. repeat split; first [assumption | reflexivity].
      * apply Z.eqb_neq in Hbit.
        destruct (mysql_send_outcome rw1 Hfresh)
          as [(Hacc & ->) | (n & msg & Hfail & Hn & ->)]; intros [= <- <-].
        -- exists (b :: rest), caps. repeat split; try assumption.
           ++ unfold accepts in *. rewrite <- Hwfail. exact Hacc.
           ++ cbn [after_command conn conn_after_write sent]. rewrite Hsent. reflexivity.
        -- right. right. right. exists (b :: rest), caps, n, msg.
           repeat split; try assumption.
           ++ rewrite <- Hwfail. exact Hfail.
           ++ cbn [after_refusal conn sent]. rewrite Hsent. reflexivity.
  - intros [= <- <-]. left. split; [exact Hread | exact Hsent].
  - contradiction.
  - intros [= <- _]. exact I.
Qed.

(** X13: the MySQL driver that returns success has done the whole
    exchange: it has read one packet, the packet parses to capability
    flags with the bit 0x800 set, the connection has taken the 36 bytes,
    and what it has sent is the SSL request packet and nothing else. *)
Theorem mysql_success_is_earned (c c' : Conn) :
  StartTLS c "3306" = (Ret tt, c') -> mysql_negotiated c c'.
Proof.
  intros Hrun. exact (mysql_StartTLS_outcome c _ c' Hrun).
Qed.

Lemma mysql_success_is_earned_witness :
  mysql_negotiated (server [mysql_greeting x08] Silent)
    (snd (StartTLS (server [mysql_greeting x08] Silent) "3306")).
Proof.
  apply mysql_success_is_earned. vm_compute. reflexivity.
Defined.

(** X14: every failure of the MySQL driver is one of four: the packet
    could not be read, and the error is the wrapped I/O error; the packet
    does not parse; the capability flags lack the bit 0x800, and the error
    is the not-supported error; the connection refused part of the 36
    bytes, and the error is the network error under the name of the flush
    step.  Only in the last case has anything been sent.  The error of
    the write step is never returned: the 36 bytes always fit the buffer. *)
Theorem mysql_failures (c c' : Conn) (e : error) :
  StartTLS c "3306" = (Fail e, c') ->
  mysql_failure c c' e
  /\ (forall cause,
        e <> fmt_Errorf_w (str "mysql: failed to write SSL request: ") cause []).
Proof.
  intros Hrun. pose proof (mysql_StartTLS_outcome c _ c' Hrun) as Hout.
  split; [exact Hout |]. intros cause Heq.
  destruct Hout as [(Hread & _) | [(body & _ & Hparse & _)
                   | [(body & caps & _ & _ & _ & He & _)
                   | (body & caps & n & msg & _ & _ & _ & _ & _ & He & _)]]].
  - revert Hread. rewrite Heq. unfold read_packet.
    destruct (read_exactly 4 (script_data (incoming c)) (closing c))
      as [[| h0 [| h1 [| h2 header]]] | e0 | |]; try discriminate.
    destruct (read_exactly (little_endian_24 h0 h1 h2)
                (drop 4 (script_data (incoming c))) (closing c));
      discriminate.
  - rewrite Heq in Hparse. destruct body as [| b rest]; [discriminate |].
    destruct (parseHandshakePacket_nonempty b rest)
      as [H | [H | (caps & H & _)]]; rewrite H in Hparse; discriminate.
  - rewrite Heq in He. injection He as Htext _. vm_compute in Htext. discriminate.
  - rewrite Heq in He. injection He as Htext _. vm_compute in Htext. discriminate.
Qed.

Lemma mysql_failures_witness :
  mysql_failure mysql_broken_pipe (snd (StartTLS mysql_broken_pipe "3306"))
    (fmt_Errorf_w (str "mysql: failed to flush SSL request: ")
       (net_Error (str "broken pipe")) []).
Proof.
  apply (mysql_failures mysql_broken_pipe). vm_compute. reflexivity.
Defined.

(** ** The errors of [StartTLS], port by port *)

Lemma StartTLS_cases c port :
  (port = "3306" /\ (port ∈ startTLSPorts))
  \/ (exists d, (port ∈ ports_of d) /\ (port ∈ startTLSPorts) /\ port <> "3306"
                /\ StartTLS c port = run_driver d c)
  \/ ((port ∉ startTLSPorts)
      /\ StartTLS c port
         = if bool_decide (port ∈ directTLSPorts) then (Ret tt, c)
           else (Fail (fmt_Errorf_w [] ErrUnsupportedProtocol
                         (str ": port " ++ str port)), c)).
Proof.
  destruct (decide (port ∈ startTLSPorts)) as [Hin | Hout].
  - pose proof Hin as Hport. unfold startTLSPorts in Hport.
    rewrite !elem_of_cons, elem_of_nil in Hport.
    destruct Hport as [-> | [-> | [-> | [-> | [-> | [-> | []]]]]]].
    + right. left. exists FTP. repeat split; [cbn [ports_of]; rewrite !elem_of_cons; auto | exact Hin | discriminate].
    + right. left. exists SMTP. repeat split; [cbn [ports_of]; rewrite !elem_of_cons; auto | exact Hin | discriminate].
    + right. left. exists SMTP. repeat split; [cbn [ports_of]; rewrite !elem_of_cons; auto | exact Hin | discriminate].
    + right. left. exists POP3. repeat split; [cbn [ports_of]; rewrite !elem_of_cons; auto | exact Hin | discriminate].
    + right. left. exists IMAP. repeat split; [cbn [ports_of]; rewrite !elem_of_cons; auto | exact Hin | discriminate].
    + left. split; [reflexivity | exact Hin].
  - right. right. split; [exact Hout |].
    unfold StartTLS. rewrite (protocols_other port Hout). reflexivity.
Qed.

Lemma transport_failure_sentinels step cause post :
  transport_failure cause ->
  sentinels_in (fmt_Errorf_w step cause post) = [].
Proof.
  intros [(why & ->) | [-> | (msg & ->)]]; [destruct why | |]; reflexivity.
Qed.

Lemma io_error_sentinels e :
  is_protocol_error e = false -> sentinels_in e = [].
Proof.
  unfold is_protocol_error, sentinels_in. intros H.
  apply orb_false_elim in H as (H & H3).
  apply orb_false_elim in H as (H1 & H2).
  cbn [filter list_filter]. 
  repeat (destruct (decide _) as [Heq | _];
          [rewrite ?H1, ?H2, ?H3 in Heq; discriminate |]).
  reflexivity.
Qed.

Lemma StartTLS_failure_sentinels c port e c' :
  StartTLS c port = (Fail e, c') ->
  ((port ∉ startTLSPorts) /\ sentinels_in e = [ErrUnsupportedProtocol])
  \/ ((port ∈ ports_of SMTP) /\ sentinels_in e = [ErrInvalidResponse])
  \/ ((port ∈ startTLSPorts)
      /\ (sentinels_in e = [ErrStartTLSNotSupported] \/ sentinels_in e = [])).
Proof.
  destruct (StartTLS_cases c port)
    as [(-> & Hin) | [(d & Hd & Hin & _ & ->) | (Hout & ->)]].
  - intros Hrun. right. right. split; [exact Hin |].
    pose proof (mysql_StartTLS_outcome c _ c' Hrun) as Hout. cbv beta iota in Hout.
    destruct Hout as [(Hread & _) | [(body & _ & _ & Hproto & _)
                     | [(body & caps & _ & _ & _ & -> & _)
                     | (body & caps & n & msg & _ & _ & _ & _ & _ & -> & _)]]].
    + right. apply io_error_sentinels.
      destruct (readMySQLPacket_spec newMySQLProtocol (bufio_NewReadWriter c))
        as (_ & _ & _ & _ & Hio).
      apply (Hio e). exact Hread.
    + right. apply io_error_sentinels. exact Hproto.
    + left. reflexivity.
    + right. reflexivity.
  - unfold run_driver.
    destruct (driver_Handshake d (bufio_NewReadWriter c)) as [r rw'] eqn:Hrun.
    intros [= -> <-].
    assert (Hfresh : fresh_writer (bufio_NewReadWriter c)) by (split; reflexivity).
    pose proof (driver_Handshake_outcome d _ _ _ Hfresh Hrun) as Hfail.
    cbv beta iota in Hfail.
    destruct Hfail as (step & cause & -> & [(_ & Ht & _)
                      | [(-> & _ & [Ht | (line & _ & ->)])
                      | (_ & [Ht | (reply & _ & ->)])]]).
    + right. right. split; [exact Hin |]. right.
      apply transport_failure_sentinels. exact Ht.
    + right. right. split; [exact Hin |]. right.
      apply transport_failure_sentinels. exact Ht.
    + right. left. split; [exact Hd | reflexivity].
    + right. right. split; [exact Hin |]. right.
      apply transport_failure_sentinels. exact Ht.
    + right. right. split; [exact Hin |]. left. reflexivity.
  - destruct (bool_decide (port ∈ directTLSPorts)); [discriminate |].
    intros [= <- _]. left. split; [exact Hout | reflexivity].
Qed.

(** X15: an error of [StartTLS] holds at most one of the three sentinel
    errors, and the sentinel tells what happened: the unsupported-protocol
    error exactly when the port is none of the registry; the
    invalid-response error only on the SMTP ports 25 and 587; the
    not-supported error only on a port of the registry. *)
Theorem StartTLS_sentinels (c : Conn) (port : string) (e : error) (c' : Conn) :
  StartTLS c port = (Fail e, c') ->
  length (sentinels_in e) <= 1
  /\ (errors_Is e ErrUnsupportedProtocol = true <-> port ∉ startTLSPorts)
  /\ (errors_Is e ErrInvalidResponse = true -> port ∈ ports_of SMTP)
  /\ (errors_Is e ErrStartTLSNotSupported = true -> port ∈ startTLSPorts).
Proof.
  intros Hrun.
  assert (Hsmtp : port ∈ ports_of SMTP -> port ∈ startTLSPorts).
  { unfold ports_of, startTLSPorts. rewrite !elem_of_cons. tauto. }
  destruct (StartTLS_failure_sentinels c port e c' Hrun)
    as [(Hport & Hs) | [(Hport & Hs) | (Hport & [Hs | Hs])]];
    (split; [rewrite Hs; simpl; lia |]);
    unfold sentinels_in in Hs; cbn [filter list_filter] in Hs;
    destruct (errors_Is e ErrStartTLSNotSupported),
             (errors_Is e ErrInvalidResponse),
             (errors_Is e ErrUnsupportedProtocol);
    vm_compute in Hs; try discriminate Hs;
    repeat split; intros; try discriminate; try assumption;
    try contradiction; auto.
Qed.

Lemma StartTLS_sentinels_witness :
  length (sentinels_in
            (fmt_Errorf_w (str "smtp: STARTTLS failed: ")
               (rejected (str "250 STARTTLS" ++ CRLF)) [])) <= 1.
Proof.
  apply (StartTLS_sentinels smtp_split_reply "25" _
           (snd (StartTLS smtp_split_reply "25"))).
  vm_compute. reflexivity.
Defined.

(** ** What the parser does not look at *)

Lemma cstring_len_app s t :
  cstring_len s < length s -> cstring_len (s ++ t) = cstring_len s.
Proof.
  induction s as [| b s IH]; simpl; [lia |].
  destruct (Byte.eqb b x00); [reflexivity |].
  intros H. rewrite IH by lia. reflexivity.
Qed.

Lemma capability_offset_app body extra :
  capability_offset body + 2 <= length body ->
  capability_offset (body ++ extra) = capability_offset body.
Proof.
  unfold capability_offset. cbv zeta. intros H.
  assert (E1 : cstring_len (drop 1 (body ++ extra)) = cstring_len (drop 1 body)).
  { rewrite drop_app_le by lia. apply cstring_len_app. rewrite length_drop. lia. }
  rewrite E1. rewrite drop_app_le by lia.
  rewrite cstring_len_app; [reflexivity |]. rewrite length_drop. lia.
Qed.

(** X16: [parseHandshakePacket] looks at nothing behind the two bytes of
    the capability flags: a body that parses gives the same flags with
    any bytes added at its end. *)
Theorem parseHandshakePacket_ignores_tail (body extra : list byte) (capabilities : Z) :
  parseHandshakePacket body = Ret capabilities ->
  parseHandshakePacket (body ++ extra) = Ret capabilities.
Proof.
  intros Hp. destruct body as [| b rest]; [vm_compute in Hp; discriminate |].
  destruct (parseHandshakePacket_nonempty b rest)
    as [H | [H | (caps' & _ & _ & -> & _)]]; try congruence.
  rewrite parseHandshakePacket_offset in Hp. cbv zeta in Hp.
  change ((x0a :: rest) ++ extra) with (x0a :: (rest ++ extra)).
  rewrite parseHandshakePacket_offset. cbv zeta.
  change (x0a :: (rest ++ extra)) with ((x0a :: rest) ++ extra).
  destruct (length (x0a :: rest) <? capability_offset (x0a :: rest) + 2) eqn:Hlen;
    [discriminate |].
  apply Nat.ltb_ge in Hlen.
  rewrite capability_offset_app by exact Hlen.
  rewrite (proj2 (Nat.ltb_ge _ _)) by (rewrite length_app; lia).
  unfold index in *. rewrite !lookup_app_l by lia. exact Hp.
Qed.

Lemma parseHandshakePacket_ignores_tail_witness :
  parseHandshakePacket (take 49 (drop 4 (mysql_greeting x08)) ++ [xff; xff])
  = Ret 0x800%Z.
Proof.
  apply parseHandshakePacket_ignores_tail. vm_compute. reflexivity.
Defined.

(** ** The name of the driver in its errors *)

Lemma step_failure_text d rw0 rw' e :
  step_failure d rw0 rw' e ->
  strings_HasPrefix (error_text e) (str (name (driver_base d)) ++ str ": ") = true.
Proof.
  intros (step & cause & -> & [(-> & _) | [(-> & -> & _) | (-> & _)]]);
    try destruct d; vm_compute; reflexivity.
Qed.

Lemma read_packet_failure_text data close e :
  read_packet data close = Fail e ->
  strings_HasPrefix (error_text e) (str "mysql: ") = true.
Proof.
  unfold read_packet.
  destruct (read_exactly 4 data close) as [[| h0 [| h1 [| h2 header]]] | e0 | |];
    try discriminate.
  - destruct (read_exactly (little_endian_24 h0 h1 h2) (drop 4 data) close);
      try discriminate.
    intros [= <-]. vm_compute. reflexivity.
  - intros [= <-]. vm_compute. reflexivity.
Qed.

Lemma protocols_registered :
  protocols !! "21" = Some (fun _ => asProtocol newFTPProtocol)
  /\ protocols !! "25" = Some (fun _ => asProtocol newSMTPProtocol)
  /\ protocols !! "587" = Some (fun _ => asProtocol newSMTPProtocol)
  /\ protocols !! "110" = Some (fun _ => asProtocol newPOP3Protocol)
  /\ protocols !! "143" = Some (fun _ => asProtocol newIMAPProtocol)
  /\ protocols !! "3306" = Some (fun _ => asProtocol newMySQLProtocol).
Proof. repeat split; reflexivity. Qed.

(** X17: the errors of a driver begin with its name.  On a port of the
    registry, the text of every error of [StartTLS] begins with what
    [Name] returns for the driver of the port, a colon and a space; the
    one exception is the not-supported error of the MySQL driver, which
    is returned without the name. *)
Theorem failure_names_the_driver (c : Conn) (port : string)
    (protocolFactory : unit -> Protocol) (e : error) (c' : Conn) :
  protocols !! port = Some protocolFactory ->
  StartTLS c port = (Fail e, c') ->
  strings_HasPrefix (error_text e)
    (str (Protocol_Name (protocolFactory tt)) ++ str ": ") = true
  \/ (port = "3306"
      /\ e = fmt_Errorf_w [] ErrStartTLSNotSupported
               (str ": MySQL server does not support SSL")).
Proof.
  intros Hf.
  destruct protocols_registered as (Hftp & Hsmtp & Hsubmission & Hpop3 & Himap & Hmysql).
  destruct (StartTLS_cases c port)
    as [(-> & _) | [(d & Hd & _ & _ & ->) | (Hout & _)]].
  - intros Hrun. rewrite Hmysql in Hf. injection Hf as <-.
    pose proof (mysql_StartTLS_outcome c _ c' Hrun) as Hout. cbv beta iota in Hout.
    destruct Hout as [(Hread & _) | [(body & _ & Hparse & _)
                     | [(body & caps & _ & _ & _ & -> & _)
                     | (body & caps & n & msg & _ & _ & _ & _ & _ & -> & _)]]].
    + left. exact (read_packet_failure_text _ _ _ Hread).
    + left. destruct body as [| b rest]; [discriminate |].
      destruct (parseHandshakePacket_nonempty b rest)
        as [H | [H | (caps & H & _)]]; rewrite H in Hparse;
        [| | discriminate]; injection Hparse as <-; vm_compute; reflexivity.
    + right. split; reflexivity.
    + left. vm_compute. reflexivity.
  - unfold run_driver.
    destruct (driver_Handshake d (bufio_NewReadWriter c)) as [r rw'] eqn:Hrun.
    intros [= -> <-]. left.
    assert (Hfresh : fresh_writer (bufio_NewReadWriter c)) by (split; reflexivity).
    pose proof (driver_Handshake_outcome d _ _ _ Hfresh Hrun) as Hfail.
    cbv beta iota in Hfail.
    apply step_failure_text in Hfail.
    destruct d; cbn [ports_of] in Hd; rewrite !elem_of_cons, elem_of_nil in Hd;
      repeat (destruct Hd as [-> | Hd]); try contradiction;
      rewrite ?Hftp, ?Hsmtp, ?Hsubmission, ?Hpop3, ?Himap in Hf;
      injection Hf as <-; exact Hfail.
  - rewrite (protocols_other port Hout) in Hf. discriminate.
Qed.

Lemma failure_names_the_driver_witness :
  strings_HasPrefix
    (error_text (fmt_Errorf_w (str "smtp: STARTTLS failed: ")
                   (rejected (str "250 STARTTLS" ++ CRLF)) []))
    (str (Protocol_Name (asProtocol newSMTPProtocol)) ++ str ": ") = true
  \/ ("25" = "3306"
      /\ fmt_Errorf_w (str "smtp: STARTTLS failed: ")
           (rejected (str "250 STARTTLS" ++ CRLF)) []
         = fmt_Errorf_w [] ErrStartTLSNotSupported
             (str ": MySQL server does not support SSL")).
Proof.
  apply (failure_names_the_driver smtp_split_reply "25"
           (fun _ => asProtocol newSMTPProtocol)
           (fmt_Errorf_w (str "smtp: STARTTLS failed: ")
              (rejected (str "250 STARTTLS" ++ CRLF)) [])
           (snd (StartTLS smtp_split_reply "25"))).
  - reflexivity.
  - vm_compute. reflexivity.
Defined.

(** ** What the reader has taken and not returned *)

Lemma StartTLS_run_driver d port c :
  port ∈ ports_of d -> StartTLS c port = run_driver d c.
Proof.
  destruct d; cbn [ports_of]; rewrite !elem_of_cons, elem_of_nil;
    intros Hport; repeat (destruct Hport as [-> | Hport]); try contradiction;
    reflexivity.
Qed.

(** X18: bytes that reach the reader behind the reply are lost.  The
    greeting arrives as one segment and the reply as the beginning of the
    next: [StartTLS] on the port of a driver without capability step
    returns success, and the connection it leaves holds only what comes
    after that segment; the bytes of the segment behind the reply have been
    taken from the connection into the reader that [StartTLS] drops. *)
Theorem StartTLS_drops_buffered_bytes (d : line_driver) (port : string) (c : Conn)
    (g : byte) (gs : list byte) (b : byte) (bs : list byte)
    (rest : list event) (reply more : list byte) :
  port ∈ ports_of d -> d <> SMTP ->
  accepts c (length (upgrade_command d)) ->
  incoming c = Recv g gs :: Recv b bs :: rest ->
  is_line (g :: gs) ->
  strings_HasPrefix (g :: gs) (greeting_prefix d) = true ->
  length (g :: gs) <= defaultBufSize ->
  b :: bs = reply ++ more ->
  is_line reply ->
  strings_HasPrefix reply (success_prefix d) = true ->
  length (b :: bs) <= defaultBufSize ->
  exists c',
    StartTLS c port = (Ret tt, c')
    /\ incoming c' = rest
    /\ sent c' = sent c ++ upgrade_command d.
Proof.
  intros Hport Hd Hacc Hscript Hgline Hgreet Hglen Hdata Hrline Hreply Hrlen.
  rewrite (StartTLS_run_driver d port c Hport). unfold run_driver.
  rewrite driver_Handshake_phases.
  set (rw0 := bufio_NewReadWriter c).
  pose proof (readLine_segment rw0 g gs (Recv b bs :: rest) (g :: gs) []
                eq_refl Hscript Hglen Hgline (eq_sym (app_nil_r _))) as Hread1.
  cbn [rw0 bufio_NewReadWriter wbuf werr conn] in Hread1.
  unfold wrapping at 1.
  rewrite expectGreeting_unfold, Hread1, greetMsg_prefix, Hgreet.
  set (rw1 := mkRW [] [] None
                (mkConn (Recv b bs :: rest) (closing c) (sent c) (wfail c))).
  assert (Hcap : capability_step d rw1 = (Ret tt, rw1))
    by (destruct d; [contradiction | reflexivity | reflexivity | reflexivity]).
  rewrite Hcap.
  destruct (patterns_compile d) as (_ & _ & Hauth).
  destruct (commands_fit d) as (Hne & Hlen).
  unfold wrapping, upgrade_step.
  rewrite sendStartTLS_run; rewrite ?Hauth; try assumption;
    [| repeat split; exact Hacc].
  pose proof (readLine_segment (after_command (upgrade_command d) rw1)
                b bs rest reply more eq_refl eq_refl Hrlen Hrline Hdata) as Hread2.
  rewrite Hread2, respMsg_prefix, Hreply.
  eexists. split; [reflexivity |]. split; reflexivity.
Qed.

Lemma StartTLS_drops_buffered_bytes_witness :
  exists c',
    StartTLS
      (server [str "220 FTP ready" ++ CRLF;
               str "234 go ahead" ++ CRLF ++ [x16; x03; x01]] Silent) "21"
    = (Ret tt, c')
    /\ incoming c' = []
    /\ sent c' = [] ++ upgrade_command FTP.
Proof.
  apply (StartTLS_drops_buffered_bytes FTP "21"
           (server [str "220 FTP ready" ++ CRLF;
                    str "234 go ahead" ++ CRLF ++ [x16; x03; x01]] Silent)
           "2"%byte (str "20 FTP ready" ++ CRLF)
           "2"%byte (str "34 go ahead" ++ CRLF ++ [x16; x03; x01])
           [] (str "234 go ahead" ++ CRLF) [x16; x03; x01]).
  - cbn [ports_of]. apply list_elem_of_here.
  - discriminate.
  - exact I.
  - reflexivity.
  - exists (str "220 FTP ready" ++ [CR]). split; [reflexivity |].
    apply (bool_decide_unpack _). vm_compute. exact I.
  - reflexivity.
  - apply Nat.leb_le. vm_compute. reflexivity.
  - reflexivity.
  - exists (str "234 go ahead" ++ [CR]). split; [reflexivity |].
    apply (bool_decide_unpack _). vm_compute. exact I.
  - reflexivity.
  - apply Nat.leb_le. vm_compute. reflexivity.
Defined.
